(** * sbml2dae.matlab: the Matlab exporter of a DAE model

    A shallow embedding of [src/sbml2dae/matlab.py] (class [Matlab]) and the
    properties of its two core parts: the token-level expression translator
    ([string2matlab], with the state-reference extractor [get_states]) and the
    dependency resolver (the loop of [write_local_states]).

    Python values are modelled as follows: [str] as [string], a list as a
    [list], a dict read through fixed keys as a record, a generator as the
    list of what it yields (or the exception it raises), a file object as an
    index into a table of files, and a method with effects as a function in
    the monad [M] that threads this table and carries exceptions. *)

From stdpp Require Import base decidable relations list strings pretty.
From Stdlib Require Import Ascii.

(** ** Python side: exceptions and outcomes *)

(** An exception: its class name and its message. *)
Record exn : Type := Exn { exn_class : string; exn_msg : string }.

(** How a call ends: it returns a value, it raises, or ([Timeout]) the bound
    given to its [while] loop ran out before the loop condition turned false. *)
Inductive result (A : Type) : Type :=
  | Ok (a : A)
  | Raise (e : exn)
  | Timeout.
Arguments Ok {A} a.
Arguments Raise {A} e.
Arguments Timeout {A}.

(** ** Characters the emitted text needs *)

Definition nl : string := String "010"%char EmptyString.
Definition tab : string := String "009"%char EmptyString.
Definition dq : string := String "034"%char EmptyString.

(** [s * n] on strings. *)
Fixpoint str_mul (s : string) (n : nat) : string :=
  match n with
  | 0 => EmptyString
  | S n => s +:+ str_mul s n
  end.

(** ** Files *)

(** A file object: the path it was opened on, the text written so far and
    whether [close] was called on it. *)
Record file : Type := File { f_path : string; f_text : string; f_closed : bool }.

(** The file objects created so far; a handle is an index in this table. *)
Abbreviation world := (list file) (only parsing).
Abbreviation handle := nat (only parsing).

Definition M (A : Type) : Type := world → result A * world.

Global Instance M_ret : MRet M := λ A a w, (Ok a, w).
Global Instance M_bind : MBind M := λ A B k m w,
  match m w with
  | (Ok a, w') => k a w'
  | (Raise e, w') => (Raise e, w')
  | (Timeout, w') => (Timeout, w')
  end.

Definition lift {A} (r : result A) : M A := λ w, (r, w).

(** The same sequencing for code that does not touch the files. *)
Global Instance result_ret : MRet result := λ A a, Ok a.
Global Instance result_bind : MBind result := λ A B k r,
  match r with
  | Ok a => k a
  | Raise e => Raise e
  | Timeout => Timeout
  end.

(** [open(filepath, "w")]: a fresh, empty, open file object. *)
Definition open (filepath : string) : M handle :=
  λ w, (Ok (length w), w ++ [File filepath "" false]).

(** [f.write(s)]: appends to an open file; Python raises [ValueError] on a
    closed one. *)
Definition write (f : handle) (s : string) : M unit := λ w,
  match w !! f with
  | Some (File p t false) => (Ok (), <[f := File p (t +:+ s) false]> w)
  | _ => (Raise (Exn "ValueError" "I/O operation on closed file."), w)
  end.

(** [f.close()]: idempotent on a file object. (An index outside the table is
    no file object; the exporter only ever uses the handle [open] gave it.) *)
Definition close (f : handle) : M unit := λ w,
  match w !! f with
  | Some (File p t _) => (Ok (), <[f := File p t true]> w)
  | None => (Raise (Exn "ValueError" "not a file object"), w)
  end.

Definition is_open (f : handle) (w : world) : Prop :=
  ∃ p t, w !! f = Some (File p t false).
Definition is_closed (f : handle) (w : world) : Prop :=
  ∃ p t, w !! f = Some (File p t true).

(** A [for] loop whose body updates the local variables [s]. *)
Fixpoint for_each {A S} (body : S → A → M S) (s : S) (l : list A) : M S :=
  match l with
  | [] => mret s
  | x :: l => s' ← body s x; for_each body s' l
  end.

(** A [while] loop whose body updates the local variables [s]: [Timeout]
    when the condition still holds after [fuel] rounds. *)
Fixpoint while_ {S} (fuel : nat) (cond : S → bool) (body : S → M S) (s : S) : M S :=
  if cond s then
    match fuel with
    | 0 => lift Timeout
    | S fuel => s' ← body s; while_ fuel cond body s'
    end
  else mret s.

(** What a call may do to the table: [appends f w w'] when [w'] is [w] with
    text added at the end of the open file [f] and nothing else changed. *)
Definition appends (f : handle) (w w' : world) : Prop :=
  ∃ p t s, w !! f = Some (File p t false)
           ∧ w' = <[f := File p (t +:+ s) false]> w.

(** [m] ends with [r] in every table where [f] is open, and only writes to
    [f]. *)
Definition pure_on {A} (f : handle) (m : M A) (r : result A) : Prop :=
  ∀ w, is_open f w → ∃ w', m w = (r, w') ∧ appends f w w'.

(** [m] leaves [f] open, however it ends. *)
Definition keeps_open {A} (f : handle) (m : M A) : Prop :=
  ∀ w r w', is_open f w → m w = (r, w') → is_open f w'.

(** [m] never returns a value when [f] is open: it raises or runs out of
    fuel. *)
Definition never_ok {A} (f : handle) (m : M A) : Prop :=
  ∀ w a w', is_open f w → m w ≠ (Ok a, w').

(** [m], started with [f] open, has closed [f] if it returns and has left
    it open if it does not. *)
Definition released_on_return {A} (f : handle) (m : M A) : Prop :=
  ∀ w r w', is_open f w → m w = (r, w') →
    match r with
    | Ok _ => is_closed f w'
    | _ => is_open f w'
    end.

(** [m], started with [f] open, returns [a] and has closed [f]. *)
Definition returns_closed {A} (f : handle) (m : M A) (a : A) : Prop :=
  ∀ w, is_open f w → ∃ w', m w = (Ok a, w') ∧ is_closed f w'.

(** [m], run with [f] open, ends with [r] and has appended exactly [s] to
    [f], whatever [f] held before. *)
Definition emits {A} (f : handle) (m : M A) (r : result A) (s : string) : Prop :=
  ∀ w p t, w !! f = Some (File p t false) →
    m w = (r, <[f := File p (t +:+ s) false]> w).

(** [m], run with [f] open, only appends to [f]; when it returns [a], the
    text [s] it appended satisfies [P a s]. *)
Definition emits_when {A} (f : handle) (m : M A) (P : A → string → Prop) : Prop :=
  ∃ r s, emits f m r s ∧ ∀ a, r = Ok a → P a s.

(** How a call may end: with a value that [V] allows, with an exception that
    [E] allows or, where [T] holds, out of fuel. *)
Definition outcome {A} (V : A → Prop) (E : exn → Prop) (T : Prop) (r : result A)
    : Prop :=
  match r with
  | Ok a => V a
  | Raise e => E e
  | Timeout => T
  end.

(** [m], run with [f] open, only appends to [f], and ends as [P] says. *)
Definition ends {A} (f : handle) (m : M A) (P : result A → Prop) : Prop :=
  ∃ r s, emits f m r s ∧ P r.

(** [m], run with [f] open, ends as [P] says; it has appended to [f], has
    closed it when it returns and has left it open when it does not. *)
Definition finishes {A} (f : handle) (m : M A) (P : result A → Prop) : Prop :=
  ∃ r s,
    P r
    ∧ ∀ w p t, w !! f = Some (File p t false) →
        m w = (r, <[f := File p (t +:+ s) (if r is Ok _ then true else false)]> w).

(** The loops again, for code that does not touch the files. *)
Fixpoint for_each_r {A S} (body : S → A → result S) (s : S) (l : list A) : result S :=
  match l with
  | [] => mret s
  | x :: l => s' ← body s x; for_each_r body s' l
  end.

Fixpoint while_r {S} (fuel : nat) (cond : S → bool) (body : S → result S) (s : S)
    : result S :=
  if cond s then
    match fuel with
    | 0 => Timeout
    | S fuel => s' ← body s; while_r fuel cond body s'
    end
  else mret s.

(** ** The DAE model *)

(** Modelled from the spec: [sbml2dae.dae_model] is not among the source
    files; the exporter reads it through [get_model_name], [get_parameters],
    [get_states] and [get_options] and through the keys of the dicts these
    return (spec, sections 3 and 6). [StateType] has the three kinds the
    exporter compares against, with the source's spelling [ASSIGMENT].
    Numbers ([value], [initialCondition], option values) only ever reach the
    exporter's f-strings, so they are kept as the text [str] gives them. *)
Module dae_model.

Inductive StateType : Type := ODE | ALGEBRAIC | ASSIGMENT.

Global Instance StateType_eq_dec : EqDecision StateType.
Proof. solve_decision. Defined.

Module Param.
Record t : Type := mk { id : string; value : string }.
End Param.

Module State.
Record t : Type := mk {
  id : string;
  type : StateType;
  equation : string;
  initialCondition : string;
  context : string
}.
End State.

Record DaeModel : Type := mkDae {
  get_model_name : string;
  get_parameters : list Param.t;
  get_states : list State.t;
  get_options : list (string * string)
}.

End dae_model.

Import dae_model (StateType(..), DaeModel).
Module Param := dae_model.Param.
Module State := dae_model.State.

(** ** Tokens *)

(** The token types of Python's [token] module that [tokenize] yields. *)
Inductive toknum : Type :=
  | ENDMARKER | NAME | NUMBER | STRING | NEWLINE | INDENT | DEDENT
  | OP | COMMENT | NL | ERRORTOKEN | ENCODING.

Global Instance toknum_eq_dec : EqDecision toknum.
Proof. solve_decision. Defined.

(** A [TokenInfo]; both consumers bind its [start], [end] and [line] to [_],
    so only the type and the string are kept. *)
Record TokenInfo : Type := Token { tok_type : toknum; tok_string : string }.

(** ** The tokenizer on one-line formulas *)

(** The tokenizer is Python's standard [tokenize] module, which is no part of
    the repository. [Py.tokenize] follows the scanner of CPython 3.11's
    [Lib/tokenize.py] on the inputs a formula is made of: one line without
    line break, over ASCII letters, digits, [_], blanks and the operator
    characters. It yields the encoding header, an [INDENT] for leading
    blanks, numbers, operators (the first match in Python's operator list,
    longest first) and names, an [ERRORTOKEN] for a character no token starts
    with, and at the end of the input the implicit [NEWLINE], the [DEDENT]
    and the [ENDMARKER]; it raises [TokenError] when brackets are left
    unbalanced. String literals, comments, backslash continuations and
    non-ASCII letters are outside it: their first character is scanned as a
    character no token starts with. It is used to run the exporter on
    concrete formulas; the general statements below hold for any tokenizer. *)
Module Py.

Definition chars : Type := list ascii.

Definition in_range (lo hi : nat) (c : ascii) : bool :=
  (lo <=? nat_of_ascii c) && (nat_of_ascii c <=? hi).
Definition is_digit (c : ascii) : bool := in_range 48 57 c.
Definition is_nonzero_digit (c : ascii) : bool := in_range 49 57 c.
Definition is_zero (c : ascii) : bool := in_range 48 48 c.
Definition is_bin (c : ascii) : bool := in_range 48 49 c.
Definition is_oct (c : ascii) : bool := in_range 48 55 c.
Definition is_hex (c : ascii) : bool :=
  is_digit c || in_range 65 70 c || in_range 97 102 c.
Definition is_letter (c : ascii) : bool :=
  in_range 65 90 c || in_range 97 122 c || in_range 95 95 c.
Definition is_word (c : ascii) : bool := is_letter c || is_digit c.
(** [Whitespace = r'[ \f\t]*'] *)
Definition is_blank (c : ascii) : bool :=
  in_range 32 32 c || in_range 12 12 c || in_range 9 9 c.
Definition is_char (n : nat) (c : ascii) : bool := in_range n n c.
Definition one_of (ns : list nat) (c : ascii) : bool :=
  existsb (λ n, is_char n c) ns.

(** A matcher returns the text it matched and what is left. *)
Definition matcher : Type := chars → option (chars * chars).

Definition one (cls : ascii → bool) : matcher := λ l,
  match l with
  | c :: l' => if cls c then Some ([c], l') else None
  | [] => None
  end.

Definition seq (m1 m2 : matcher) : matcher := λ l,
  match m1 l with
  | Some (a, l1) =>
      match m2 l1 with
      | Some (b, l2) => Some (a ++ b, l2)
      | None => None
      end
  | None => None
  end.

Definition alt (m1 m2 : matcher) : matcher := λ l,
  match m1 l with
  | Some r => Some r
  | None => m2 l
  end.

Definition maybe (m : matcher) : matcher := λ l,
  match m l with
  | Some r => Some r
  | None => Some ([], l)
  end.

(** [(?:_?[cls])*], greedy. *)
Fixpoint us_digits (cls : ascii → bool) (l : chars) : chars * chars :=
  match l with
  | c :: l' =>
      if cls c then let '(m, r) := us_digits cls l' in (c :: m, r)
      else if is_char 95 c then
        match l' with
        | d :: l'' =>
            if cls d then let '(m, r) := us_digits cls l'' in (c :: d :: m, r)
            else ([], l)
        | [] => ([], l)
        end
      else ([], l)
  | [] => ([], [])
  end.

(** [[first](?:_?[cls])*] *)
Definition digit_run (first cls : ascii → bool) : matcher := λ l,
  match l with
  | c :: l' =>
      if first c then let '(m, r) := us_digits cls l' in Some (c :: m, r)
      else None
  | [] => None
  end.

(** [(?:_?[cls])+] *)
Definition us_digits1 (cls : ascii → bool) : matcher := λ l,
  match us_digits cls l with
  | ([], _) => None
  | r => Some r
  end.

Definition digitpart : matcher := digit_run is_digit is_digit.

Definition Hexnumber : matcher :=
  seq (one is_zero) (seq (one (one_of [120; 88])) (us_digits1 is_hex)).
Definition Binnumber : matcher :=
  seq (one is_zero) (seq (one (one_of [98; 66])) (us_digits1 is_bin)).
Definition Octnumber : matcher :=
  seq (one is_zero) (seq (one (one_of [111; 79])) (us_digits1 is_oct)).
Definition Decnumber : matcher :=
  alt (digit_run is_zero is_zero) (digit_run is_nonzero_digit is_digit).
Definition Intnumber : matcher :=
  alt Hexnumber (alt Binnumber (alt Octnumber Decnumber)).
Definition Exponent : matcher :=
  seq (one (one_of [101; 69])) (seq (maybe (one (one_of [45; 43]))) digitpart).
Definition Pointfloat : matcher :=
  seq (alt (seq digitpart (seq (one (is_char 46)) (maybe digitpart)))
           (seq (one (is_char 46)) digitpart))
      (maybe Exponent).
Definition Expfloat : matcher := seq digitpart Exponent.
Definition Floatnumber : matcher := alt Pointfloat Expfloat.
Definition jJ : matcher := one (one_of [106; 74]).
Definition Imagnumber : matcher :=
  alt (seq digitpart jJ) (alt (seq Pointfloat jJ) (seq Expfloat jJ)).
Definition Number : matcher := alt Imagnumber (alt Floatnumber Intnumber).

(** [sorted(EXACT_TOKEN_TYPES, reverse=True)] *)
Definition EXACT_TOKENS : list string :=
  ["~"; "}"; "|="; "|"; "{"; "^="; "^"; "]"; "["; "@="; "@"; ">>="; ">>";
   ">="; ">"; "=="; "="; "<="; "<<="; "<<"; "<"; ";"; ":="; ":"; "/=";
   "//="; "//"; "/"; "..."; "."; "->"; "-="; "-"; ","; "+="; "+"; "*=";
   "**="; "**"; "*"; ")"; "("; "&="; "&"; "%="; "%"; "!="].

Fixpoint strip_prefix (p l : chars) : option chars :=
  match p, l with
  | [], _ => Some l
  | a :: p', b :: l' => if bool_decide (a = b) then strip_prefix p' l' else None
  | _ :: _, [] => None
  end.

Fixpoint first_of (ops : list string) : matcher := λ l,
  match ops with
  | [] => None
  | op :: ops' =>
      let p := String.list_ascii_of_string op in
      match strip_prefix p l with
      | Some r => Some (p, r)
      | None => first_of ops' l
      end
  end.

Definition Special : matcher := first_of EXACT_TOKENS.

(** [(?:[cls])*], greedy. *)
Fixpoint span (cls : ascii → bool) (l : chars) : chars * chars :=
  match l with
  | c :: l' => if cls c then let '(m, r) := span cls l' in (c :: m, r) else ([], l)
  | [] => ([], [])
  end.

(** [Name = r'\w+'] *)
Definition Name : matcher := λ l,
  match span is_word l with
  | ([], _) => None
  | r => Some r
  end.

(** The token alternatives of [PseudoToken], in its order. *)
Definition PseudoToken : matcher := alt Number (alt Special Name).

Definition str (l : chars) : string := String.string_of_list_ascii l.

(** The type [_tokenize] gives a matched token, from its first character. *)
Definition kind_of (initial : ascii) (token : chars) : toknum :=
  if is_digit initial
     || (is_char 46 initial
         && negb (bool_decide (str token = "."))
         && negb (bool_decide (str token = "...")))
  then NUMBER
  else if is_letter initial then NAME
  else OP.

Definition paren_step (initial : ascii) (parenlev : Z) : Z :=
  if one_of [40; 91; 123] initial then (parenlev + 1)%Z
  else if one_of [41; 93; 125] initial then (parenlev - 1)%Z
  else parenlev.

(** The loop [while pos < max] over the line; [fuel] bounds its rounds, each
    of which consumes at least one character. *)
Fixpoint scan (fuel : nat) (l : chars) (parenlev : Z) : list TokenInfo * Z :=
  match fuel, l with
  | 0, _ | _, [] => ([], parenlev)
  | S fuel, c0 :: l0 =>
      match snd (span is_blank l) with
      | [] => ([], parenlev)
      | (initial :: _) as l1 =>
          match PseudoToken l1 with
          | Some (token, l2) =>
              let k := kind_of initial token in
              let parenlev :=
                if bool_decide (k = OP) then paren_step initial parenlev
                else parenlev in
              let '(toks, parenlev) := scan fuel l2 parenlev in
              (Token k (str token) :: toks, parenlev)
          | None =>
              let '(toks, parenlev) := scan fuel l0 parenlev in
              (Token ERRORTOKEN (str [c0]) :: toks, parenlev)
          end
      end
  end.

(** The column the leading blanks reach ([tabsize = 8]). *)
Definition measure (ws : chars) : nat :=
  foldl (λ column c,
    if is_char 32 c then column + 1
    else if is_char 9 c then (column `div` 8 + 1) * 8
    else 0) 0 ws.

Definition tokenize (s : string) : exn + list TokenInfo :=
  let line := String.list_ascii_of_string s in
  let '(ws, rest) := span is_blank line in
  match rest with
  | [] => inr [Token ENCODING "utf-8"; Token ENDMARKER ""]
  | _ :: _ =>
      let indented := bool_decide (0 < measure ws) in
      let '(toks, parenlev) := scan (length rest) rest 0%Z in
      if bool_decide (parenlev = 0%Z) then
        inr ([Token ENCODING "utf-8"]
             ++ (if indented then [Token INDENT (str ws)] else [])
             ++ toks
             ++ [Token NEWLINE ""]
             ++ (if indented then [Token DEDENT ""] else [])
             ++ [Token ENDMARKER ""])
      else inl (Exn "TokenError" "EOF in multi-line statement")
  end.

End Py.

(** ** The exporter *)

Record Matlab : Type := mkMatlab { dae : DaeModel; output_path : string }.

Section Exporter.

(** [tokenize(BytesIO(s.encode("utf-8")).readline)] of Python's standard
    library, run to exhaustion: the tokens it yields, or the exception it
    raises on the way. Nothing is assumed about it. *)
Variable tokenize : string → exn + list TokenInfo.

Definition string2matlab (self : Matlab) (math_expr : string) : result string :=
  let parameters :=
    foldl (λ parameters item, parameters ++ [Param.id item])
          [] (dae_model.get_parameters (dae self)) in
  match tokenize math_expr with
  | inl e => Raise e
  | inr g =>
      Ok (foldl (λ result '(Token toknum tokval),
            if bool_decide (toknum = ENCODING) then result
            else if bool_decide (toknum = NAME)
                    && bool_decide (tokval ∈ parameters)
            then result +:+ "p." +:+ tokval
            else if bool_decide (toknum = OP)
                    && bool_decide (tokval ∈ ["*"; "/"; "^"])
            then result +:+ "." +:+ tokval
            else if bool_decide (toknum = OP)
                    && bool_decide (tokval ∈ ["+"; "-"])
            then result +:+ " " +:+ tokval +:+ " "
            else result +:+ tokval)
          "" g)
  end.

Definition get_states (self : Matlab) (math_expr : string) : result (list string) :=
  let states :=
    foldl (λ states state, states ++ [State.id state])
          [] (dae_model.get_states (dae self)) in
  match tokenize math_expr with
  | inl e => Raise e
  | inr g =>
      Ok (foldl (λ result '(Token toknum tokval),
            if bool_decide (toknum = NAME) && bool_decide (tokval ∈ states)
            then result ++ [tokval]
            else result)
          [] g)
  end.


(** *** Loops and small helpers of the templating code *)

Definition tabs (n : nat) : string := str_mul tab n.

(** [d.get(key, None)] on a dict kept as its items in insertion order. *)
Fixpoint dict_get {V} (d : list (string * V)) (key : string) : option V :=
  match d with
  | [] => None
  | (k, v) :: d => if bool_decide (k = key) then Some v else dict_get d key
  end.

(** [d[key] = v] for a key the dict may already have. *)
Fixpoint dict_set {V} (d : list (string * V)) (key : string) (v : V) : list (string * V) :=
  match d with
  | [] => [(key, v)]
  | (k, v') :: d =>
      if bool_decide (k = key) then (k, v) :: d else (k, v') :: dict_set d key v
  end.

(** [math.ceil(math.sqrt(n))] for a list length [n] (the float square root
    is exact enough for every length a list can have). *)
Definition ceil_sqrt (n : nat) : Z :=
  let r := Nat.sqrt n in
  Z.of_nat (if bool_decide (r * r = n) then r else S r).

(** *** The methods of [Matlab], in the order of the source *)

Definition write_warning (self : Matlab) (f : handle) (tab : nat) : M unit :=
  let tab := tabs tab in
  write f (tab +:+ "% This file was automatically generated by OneModel." +:+ nl);;
  write f (tab +:+ "% Any changes you make to it will be overwritten");;
  write f (" the next time" +:+ nl);;
  write f (tab +:+ "% the file is generated." +:+ nl +:+ nl).

Definition export_example (self : Matlab) : M string :=
  let filepath := output_path self in
  let filepath := filepath +:+ "/" in
  let filepath := filepath +:+ dae_model.get_model_name (dae self) in
  let filepath := filepath +:+ "_example.m" in
  f ← open filepath;
  let name := dae_model.get_model_name (dae self) in
  write f ("%% Example driver script for simulating " +:+ dq +:+ name +:+ dq
           +:+ " model." +:+ nl);;
  write_warning self f 0;;
  write f ("clear all;" +:+ nl);;
  write f ("close all;" +:+ nl);;
  write f (nl +:+ "% Init model." +:+ nl);;
  write f ("m = " +:+ name +:+ "();" +:+ nl);;
  write f (nl +:+ "% Solver options." +:+ nl);;
  write f ("opt = odeset('AbsTol',1e-8,'RelTol',1e-8);" +:+ nl);;
  write f ("opt = odeset(opt,'Mass',m.M);" +:+ nl);;
  write f (nl +:+ "% Simulation time span." +:+ nl);;
  write f ("tspan = [m.opts.t_init m.opts.t_end];" +:+ nl);;
  write f (nl +:+ "[t,x] = ode15s(@(t,x) m.ode(t,x,m.p),tspan,m.x0,opt);" +:+ nl);;
  write f ("out = m.simout2struct(t,x,m.p);" +:+ nl);;
  write f (nl +:+ "% Plot result." +:+ nl);;
  write f ("m.plot(out);" +:+ nl);;
  close f;;
  mret filepath.

Definition write_class_header (self : Matlab) (f : handle) : M unit :=
  write f ("classdef " +:+ dae_model.get_model_name (dae self) +:+ nl);;
  write_warning self f 1;;
  write f (tabs 1 +:+ "properties" +:+ nl);;
  write f (tabs 2 +:+ "p      % Default model parameters." +:+ nl);;
  write f (tabs 2 +:+ "x0     % Default initial conditions." +:+ nl);;
  write f (tabs 2 +:+ "M      % Mass matrix for DAE systems." +:+ nl);;
  write f (tabs 2 +:+ "opts   % Simulation options." +:+ nl);;
  write f (tabs 1 +:+ "end" +:+ nl);;
  write f nl;;
  write f (tabs 1 +:+ "methods" +:+ nl).

Definition write_constructor (self : Matlab) (f : handle) : M unit :=
  let name := dae_model.get_model_name (dae self) in
  write f (tabs 2 +:+ "function obj = " +:+ name +:+ "()" +:+ nl);;
  write f (tabs 3 +:+ "%% Constructor of " +:+ name +:+ "." +:+ nl);;
  write f (tabs 3 +:+ "obj.p    = obj.default_parameters();" +:+ nl);;
  write f (tabs 3 +:+ "obj.x0   = obj.initial_conditions();" +:+ nl);;
  write f (tabs 3 +:+ "obj.M    = obj.mass_matrix();" +:+ nl);;
  write f (tabs 3 +:+ "obj.opts = obj.simulation_options();" +:+ nl);;
  write f (tabs 2 +:+ "end" +:+ nl);;
  write f nl.

Definition write_default_parameters (self : Matlab) (f : handle) : M unit :=
  write f (tabs 2 +:+ "function p = default_parameters(~)" +:+ nl);;
  write f (tabs 3 +:+ "%% Default parameters value." +:+ nl);;
  write f (tabs 3 +:+ "p = [];" +:+ nl);;
  for_each (λ _ item,
      write f (tabs 3 +:+ "p." +:+ Param.id item +:+ " = " +:+ Param.value item
               +:+ ";" +:+ nl))
    () (dae_model.get_parameters (dae self));;
  write f (tabs 2 +:+ "end" +:+ nl);;
  write f nl.

Definition write_initial_conditions (self : Matlab) (f : handle) : M unit :=
  write f (tabs 2 +:+ "function x0 = initial_conditions(~)" +:+ nl);;
  write f (tabs 3 +:+ "%% Default initial conditions." +:+ nl);;
  write f (tabs 3 +:+ "x0 = [" +:+ nl);;
  for_each (λ _ item,
      if bool_decide (State.type item = ODE) then
        write f (tabs 4 +:+ State.initialCondition item +:+ " % " +:+ State.id item
                 +:+ nl)
      else if bool_decide (State.type item = ALGEBRAIC) then
        write f (tabs 4 +:+ State.initialCondition item);;
        write f ("% " +:+ State.id item +:+ " (algebraic)" +:+ nl)
      else mret ())
    () (dae_model.get_states (dae self));;
  write f (tabs 3 +:+ "];" +:+ nl);;
  write f (tabs 2 +:+ "end" +:+ nl);;
  write f nl.

Definition write_mass_matrix (self : Matlab) (f : handle) : M unit :=
  write f (tabs 2 +:+ "function M = mass_matrix(~)" +:+ nl);;
  write f (tabs 3 +:+ "%% Mass matrix for DAE systems." +:+ nl);;
  write f (tabs 3 +:+ "M = [" +:+ nl);;
  let m :=
    foldl (λ m item,
        if bool_decide (State.type item = ODE) then m ++ [1]
        else if bool_decide (State.type item = ALGEBRAIC) then m ++ [0]
        else m)
      [] (dae_model.get_states (dae self)) in
  let i_max := length m in
  while_ i_max (λ i, bool_decide (i < i_max))
    (λ i,
      write f (tabs 4);;
      write f (str_mul "0 " i);;
      match m !! i with
      | Some mi => write f (pretty mi +:+ " ")
      | None => lift (Raise (Exn "IndexError" "list index out of range"))
      end;;
      write f (str_mul "0 " (i_max - i - 1));;
      write f nl;;
      mret (i + 1))
    0;;
  write f (tabs 3 +:+ "];" +:+ nl);;
  write f (tabs 2 +:+ "end" +:+ nl);;
  write f nl.

Definition write_simulation_options (self : Matlab) (f : handle) : M unit :=
  write f (tabs 2 +:+ "function opts = simulation_options(~)" +:+ nl);;
  write f (tabs 3 +:+ "%% Default simulation options." +:+ nl);;
  let options := dae_model.get_options (dae self) in
  for_each (λ _ item,
      let value := default "None" (dict_get options item) in
      write f (tabs 3 +:+ "opts." +:+ item +:+ " = " +:+ value +:+ ";" +:+ nl))
    () (options.*1);;
  write f (tabs 2 +:+ "end" +:+ nl);;
  write f nl.

(** The first loop of [write_local_states] (source lines 200-208): the ODE
    and ALGEBRAIC states are written and recorded in declaration order. *)
Definition write_ode_algebraic_states (self : Matlab) (f : handle)
    (known_states : list string) : M (nat * list string) :=
  for_each (λ '(i, known_states) state,
      if negb (bool_decide (State.type state ∈ [ODE; ALGEBRAIC])) then
        mret (i, known_states)
      else
        write f (tabs 3 +:+ State.id state +:+ " = x(" +:+ pretty i +:+ ",:);"
                 +:+ nl);;
        mret (i + 1, known_states ++ [State.id state]))
    (1, known_states) (dae_model.get_states (dae self)).

(** One round of the [while] loop of [write_local_states] (source lines
    214-228): a full scan of the states in declaration order. *)
Definition write_assigment_scan (self : Matlab) (f : handle)
    (known_states : list string) : M (list string) :=
  for_each (λ known_states state,
      if negb (bool_decide (State.type state = ASSIGMENT)) then
        mret known_states
      else if bool_decide (State.id state ∈ known_states) then
        mret known_states
      else
        dependencies ← lift (get_states self (State.equation state));
        if forallb (λ elem, bool_decide (elem ∈ known_states)) dependencies then
          equation ← lift (string2matlab self (State.equation state));
          write f (tabs 3 +:+ State.id state +:+ " = " +:+ equation +:+ ";" +:+ nl);;
          mret (known_states ++ [State.id state])
        else mret known_states)
    known_states (dae_model.get_states (dae self)).

(** [write_local_states]; the Python method returns nothing, here it returns
    the final value of its local [known_states], which is the order in which
    it wrote the states. [fuel] bounds the rounds of its [while] loop. *)
Definition write_local_states (fuel : nat) (self : Matlab) (f : handle)
    : M (list string) :=
  let known_states := [] in
  let states_num := length (dae_model.get_states (dae self)) in
  write f (tabs 3 +:+ "% ODE and algebraic states:" +:+ nl);;
  '(i, known_states) ← write_ode_algebraic_states self f known_states;
  write f nl;;
  write f (tabs 3 +:+ "% Assigment states:" +:+ nl);;
  known_states ←
    while_ fuel
      (λ known_states, negb (bool_decide (length known_states = states_num)))
      (write_assigment_scan self f)
      known_states;
  write f nl;;
  mret known_states.

Definition write_ode (fuel : nat) (self : Matlab) (f : handle) : M unit :=
  write f (tabs 2 +:+ "function dx = ode(~,t,x,p)" +:+ nl);;
  write f (tabs 3 +:+ "%% Evaluate the ODE." +:+ nl);;
  write f (tabs 3 +:+ "%" +:+ nl);;
  write f (tabs 3 +:+ "% Args:" +:+ nl);;
  write f (tabs 3 +:+ "%" +:+ tab +:+ " t Current time in the simulation." +:+ nl);;
  write f (tabs 3 +:+ "%" +:+ tab +:+ " x Array with the state value." +:+ nl);;
  write f (tabs 3 +:+ "%" +:+ tab +:+ " p Struct with the parameters." +:+ nl);;
  write f (tabs 3 +:+ "%" +:+ nl);;
  write f (tabs 3 +:+ "% Return:" +:+ nl);;
  write f (tabs 3 +:+ "%" +:+ tab +:+ " dx Array with the ODE." +:+ nl);;
  write f nl;;
  write_local_states fuel self f;;
  for_each (λ i item,
      let string := tabs 3 +:+ "% der(" +:+ State.id item +:+ ")" +:+ nl in
      if bool_decide (State.type item = ODE) then
        equation ← lift (string2matlab self (State.equation item));
        let string := string +:+ tabs 3 +:+ "dx(" +:+ pretty i +:+ ",1) = "
                      +:+ equation +:+ ";" +:+ nl +:+ nl in
        write f string;;
        mret (i + 1)
      else if bool_decide (State.type item = ALGEBRAIC) then
        equation ← lift (string2matlab self (State.equation item));
        let string := string +:+ tabs 3 +:+ "dx(" +:+ pretty i +:+ ",1) = "
                      +:+ equation +:+ ";" +:+ nl +:+ nl in
        write f string;;
        mret (i + 1)
      else mret i)
    1 (dae_model.get_states (dae self));;
  write f (tabs 2 +:+ "end" +:+ nl).

Definition write_simout_2_struct (fuel : nat) (self : Matlab) (f : handle) : M unit :=
  write f (tabs 2 +:+ "function out = simout2struct(~,t,x,p)" +:+ nl);;
  write f (tabs 3 +:+ "%% Convert the simulation output into");;
  write f (" an easy-to-use struct." +:+ nl);;
  write f nl;;
  write f (tabs 3 +:+ "% We need to transpose state matrix." +:+ nl);;
  write f (tabs 3 +:+ "x = x';");;
  write f nl;;
  write_local_states fuel self f;;
  write f (tabs 3 +:+ "% Save simulation time." +:+ nl);;
  write f (tabs 3 +:+ "out.t = t;");;
  write f nl;;
  write f nl;;
  write f (tabs 3 +:+ "% Vector for extending single-value states");;
  write f (" and parameters." +:+ nl);;
  write f (tabs 3 +:+ "ones_t = ones(size(t'));" +:+ nl);;
  write f nl;;
  write f (nl +:+ tabs 3 +:+ "% Save states." +:+ nl);;
  for_each (λ _ item,
      write f (tabs 3 +:+ "out." +:+ State.id item +:+ " = (" +:+ State.id item
               +:+ ".*ones_t)';" +:+ nl))
    () (dae_model.get_states (dae self));;
  write f nl;;
  write f (tabs 3 +:+ "% Save parameters." +:+ nl);;
  for_each (λ _ item,
      write f (tabs 3 +:+ "out." +:+ Param.id item +:+ " = (p." +:+ Param.id item
               +:+ ".*ones_t)';" +:+ nl))
    () (dae_model.get_parameters (dae self));;
  write f nl;;
  write f (tabs 2 +:+ "end" +:+ nl).

Definition write_plot (self : Matlab) (f : handle) : M unit :=
  write f (tabs 2 +:+ "function plot(~,out)" +:+ nl);;
  write f (tabs 3 +:+ "%% Plot simulation result." +:+ nl);;
  let states := dae_model.get_states (dae self) in
  let contexts :=
    foldl (λ contexts state,
        let c := State.context state in
        match dict_get contexts c with
        | None => dict_set contexts c [state]
        | Some l => dict_set contexts c (l ++ [state])
        end)
      [] states in
  for_each (λ _ '(context, states),
      let x := ceil_sqrt (length states) in
      let y := x in
      y ← while_ (Z.to_nat x)
             (λ y, bool_decide (Z.of_nat (length states) ≤ x * (y - 1))%Z)
             (λ y, mret (y - 1)%Z)
             y;
      write f (tabs 3 +:+ "figure('Name','" +:+ context +:+ "');" +:+ nl);;
      for_each (λ _ i,
          match states !! i with
          | Some state =>
              write f (tabs 3 +:+ "subplot(" +:+ pretty x +:+ "," +:+ pretty y
                       +:+ "," +:+ pretty (i + 1) +:+ ");" +:+ nl);;
              write f (tabs 3 +:+ "plot(out.t, out." +:+ State.id state +:+ ");"
                       +:+ nl);;
              write f (tabs 3 +:+ "title(" +:+ dq +:+ State.id state +:+ dq
                       +:+ ");" +:+ nl);;
              write f (tabs 3 +:+ "ylim([0, +inf]);" +:+ nl);;
              write f (tabs 3 +:+ "grid on;" +:+ nl);;
              write f nl
          | None => lift (Raise (Exn "IndexError" "list index out of range"))
          end)
        () (seq 0 (length states)))
    () contexts;;
  write f (tabs 2 +:+ "end" +:+ nl).

Definition export_class (fuel : nat) (self : Matlab) : M string :=
  let filepath := output_path self in
  let filepath := filepath +:+ "/" in
  let filepath := filepath +:+ dae_model.get_model_name (dae self) in
  let filepath := filepath +:+ ".m" in
  f ← open filepath;
  write_class_header self f;;
  write_constructor self f;;
  write_default_parameters self f;;
  write_initial_conditions self f;;
  write_mass_matrix self f;;
  write_simulation_options self f;;
  write_ode fuel self f;;
  write_simout_2_struct fuel self f;;
  write_plot self f;;
  write f (tabs 1 +:+ "end" +:+ nl);;
  write f ("end" +:+ nl);;
  close f;;
  mret filepath.

(** *** What the methods compute, without the writes

    The resolver part of [write_local_states] as a function of the model
    alone; [write_local_states_order] below relates the two. *)

Definition state_ids (self : Matlab) : list string :=
  State.id <$> dae_model.get_states (dae self).

Definition parameter_ids (self : Matlab) : list string :=
  Param.id <$> dae_model.get_parameters (dae self).

Definition is_ode_algebraic (state : State.t) : bool :=
  bool_decide (State.type state ∈ [ODE; ALGEBRAIC]).

Definition is_assigment (state : State.t) : bool :=
  bool_decide (State.type state = ASSIGMENT).

(** The ids of the ODE and ALGEBRAIC states, in declaration order. *)
Definition ode_algebraic_ids (self : Matlab) : list string :=
  State.id <$> filter is_ode_algebraic (dae_model.get_states (dae self)).

(** The ids of the ASSIGMENT states, in declaration order. *)
Definition assigment_ids (self : Matlab) : list string :=
  State.id <$> filter is_assigment (dae_model.get_states (dae self)).

Definition scan_step (self : Matlab) (known_states : list string) (state : State.t)
    : result (list string) :=
  if negb (bool_decide (State.type state = ASSIGMENT)) then mret known_states
  else if bool_decide (State.id state ∈ known_states) then mret known_states
  else
    dependencies ← get_states self (State.equation state);
    if forallb (λ elem, bool_decide (elem ∈ known_states)) dependencies then
      equation ← string2matlab self (State.equation state);
      mret (known_states ++ [State.id state])
    else mret known_states.

Definition scan (self : Matlab) (known_states : list string) : result (list string) :=
  for_each_r (scan_step self) known_states (dae_model.get_states (dae self)).

Definition resolve (fuel : nat) (self : Matlab) (known_states : list string)
    : result (list string) :=
  while_r fuel
    (λ known_states,
       negb (bool_decide (length known_states
                          = length (dae_model.get_states (dae self)))))
    (scan self) known_states.

(** The resolver: the order in which [write_local_states] writes the states. *)
Definition order (fuel : nat) (self : Matlab) : result (list string) :=
  resolve fuel self (ode_algebraic_ids self).

(** *** The assignment-state reference graph *)

(** [depends self x y]: an ASSIGMENT state with id [x] has [y] among the
    references of its equation. *)
Definition depends (self : Matlab) (x y : string) : Prop :=
  ∃ state dependencies,
    state ∈ dae_model.get_states (dae self)
    ∧ State.type state = ASSIGMENT
    ∧ State.id state = x
    ∧ get_states self (State.equation state) = Ok dependencies
    ∧ y ∈ dependencies.

(** The graph has a cycle: some id reaches itself along references. *)
Definition cyclic (self : Matlab) : Prop := ∃ x, tc (depends self) x x.

(** Every ASSIGMENT equation passes the tokenizer. *)
Definition tokenizes (self : Matlab) : Prop :=
  ∀ state, state ∈ dae_model.get_states (dae self) →
    State.type state = ASSIGMENT →
    ∃ g, tokenize (State.equation state) = inr g.

(** [x] occurs strictly before [y] in [l]. *)
Definition before (x y : string) (l : list string) : Prop :=
  ∃ i j, l !! i = Some x ∧ l !! j = Some y ∧ i < j.

(** What the resolver keeps true of [known_states]: the ODE and ALGEBRAIC ids
    come first, in declaration order, then ids of ASSIGMENT states; every
    entry is a state id. *)
Definition resolved (self : Matlab) (known_states : list string) : Prop :=
  ∃ tail,
    known_states = ode_algebraic_ids self ++ tail
    ∧ Forall (λ x, x ∈ assigment_ids self) tail.

(** Every resolved ASSIGMENT state comes after each of its references. *)
Definition ordered (self : Matlab) (known_states : list string) : Prop :=
  ∀ state dependencies d,
    state ∈ dae_model.get_states (dae self) →
    State.type state = ASSIGMENT →
    State.id state ∈ known_states →
    get_states self (State.equation state) = Ok dependencies →
    d ∈ dependencies →
    before d (State.id state) known_states.

(** The tokenizer accepts the equation of [state]. *)
Definition is_tokenized (state : State.t) : bool :=
  match tokenize (State.equation state) with
  | inr _ => true
  | inl _ => false
  end.

(** The ids of the ASSIGMENT states whose equation the tokenizer accepts. *)
Definition tokenized_ids (self : Matlab) : list string :=
  State.id <$>
    filter is_tokenized (filter is_assigment (dae_model.get_states (dae self))).

(** What the loop keeps true of the ids it appended: they are distinct ids of
    ASSIGMENT states whose equation passed the tokenizer. *)
Definition appended_tokenized (self : Matlab) (known_states : list string) : Prop :=
  ∃ tail, known_states = ode_algebraic_ids self ++ tail
          ∧ NoDup tail ∧ Forall (λ x, x ∈ tokenized_ids self) tail.

(** What the loop keeps true of the ids it appended, whatever the model: they
    are distinct ids of ASSIGMENT states, and none is the id of an ODE or
    ALGEBRAIC state. *)
Definition appended_fresh (self : Matlab) (known_states : list string) : Prop :=
  ∃ tail, known_states = ode_algebraic_ids self ++ tail
          ∧ NoDup tail
          ∧ Forall (λ x, x ∈ assigment_ids self ∧ x ∉ ode_algebraic_ids self) tail.

(** An ASSIGMENT state shares its id with another state. *)
Definition shared_id (self : Matlab) : Prop :=
  ¬ NoDup (assigment_ids self)
  ∨ ∃ x, x ∈ assigment_ids self ∧ x ∈ ode_algebraic_ids self.

(** The ASSIGMENT states are declared in dependency order: the equation of
    each references only ODE and ALGEBRAIC states and ASSIGMENT states
    declared before it. *)
Definition declared_in_order (self : Matlab) : Prop :=
  ∀ l1 state l2 dependencies d,
    dae_model.get_states (dae self) = l1 ++ state :: l2 →
    State.type state = ASSIGMENT →
    get_states self (State.equation state) = Ok dependencies →
    d ∈ dependencies →
    d ∈ ode_algebraic_ids self ∨ d ∈ State.id <$> filter is_assigment l1.

(** *** The translator's rules, token by token (spec, section 4.3) *)

(** Rule 1: a name that is a parameter id gets the namespace; rule 2: [*],
    [/], [^] get the elementwise marker; rule 3: [+], [-] get a space on each
    side; rule 4: anything else is copied. *)
Definition translate_token (parameter_ids : list string) (t : TokenInfo) : string :=
  match tok_type t with
  | NAME =>
      if bool_decide (tok_string t ∈ parameter_ids) then "p." +:+ tok_string t
      else tok_string t
  | OP =>
      if bool_decide (tok_string t ∈ ["*"; "/"; "^"]) then "." +:+ tok_string t
      else if bool_decide (tok_string t ∈ ["+"; "-"]) then
        " " +:+ tok_string t +:+ " "
      else tok_string t
  | _ => tok_string t
  end.

(** The tokens of the formula: what the tokenizer yields after its encoding
    header. *)
Definition formula_tokens (g : list TokenInfo) : list TokenInfo :=
  filter (λ t, tok_type t ≠ ENCODING) g.

Definition translate_tokens (parameter_ids : list string) (g : list TokenInfo) : string :=
  String.concat "" (translate_token parameter_ids <$> formula_tokens g).

(** The name tokens that are known state ids, in token order. *)
Definition reference_tokens (known_state_ids : list string) (g : list TokenInfo)
    : list string :=
  tok_string <$>
    filter (λ t, tok_type t = NAME ∧ tok_string t ∈ known_state_ids) g.

(** *** What the templating methods write *)

(** The ODE and ALGEBRAIC states, in declaration order: the rows of the
    state vector [x]. *)
Definition ode_algebraic_states (self : Matlab) : list State.t :=
  filter is_ode_algebraic (dae_model.get_states (dae self)).

(** The diagonal entry of a row of the mass matrix. *)
Definition mass_matrix_entry (state : State.t) : nat :=
  if bool_decide (State.type state = ODE) then 1 else 0.

(** Row [i] of an [n] by [n] matrix: [i] zeros, the entry, [n - i - 1]
    zeros. *)
Definition mass_matrix_row (n i mi : nat) : string :=
  tabs 4 +:+ str_mul "0 " i +:+ pretty mi +:+ " " +:+ str_mul "0 " (n - i - 1)
  +:+ nl.

Definition mass_matrix_text (self : Matlab) : string :=
  let m := mass_matrix_entry <$> ode_algebraic_states self in
  tabs 2 +:+ "function M = mass_matrix(~)" +:+ nl
  +:+ tabs 3 +:+ "%% Mass matrix for DAE systems." +:+ nl
  +:+ tabs 3 +:+ "M = [" +:+ nl
  +:+ String.concat "" (imap (mass_matrix_row (length m)) m)
  +:+ tabs 3 +:+ "];" +:+ nl
  +:+ tabs 2 +:+ "end" +:+ nl
  +:+ nl.

(** The row of [x0] for an ODE or ALGEBRAIC state. *)
Definition initial_condition_row (state : State.t) : string :=
  if bool_decide (State.type state = ODE) then
    tabs 4 +:+ State.initialCondition state +:+ " % " +:+ State.id state +:+ nl
  else
    tabs 4 +:+ State.initialCondition state +:+ "% " +:+ State.id state
    +:+ " (algebraic)" +:+ nl.

Definition initial_conditions_text (self : Matlab) : string :=
  tabs 2 +:+ "function x0 = initial_conditions(~)" +:+ nl
  +:+ tabs 3 +:+ "%% Default initial conditions." +:+ nl
  +:+ tabs 3 +:+ "x0 = [" +:+ nl
  +:+ String.concat "" (initial_condition_row <$> ode_algebraic_states self)
  +:+ tabs 3 +:+ "];" +:+ nl
  +:+ tabs 2 +:+ "end" +:+ nl
  +:+ nl.

(** The line that reads row [k + 1] of [x] into the local variable of the
    state at position [k] among the ODE and ALGEBRAIC states. *)
Definition local_state_read (k : nat) (state : State.t) : string :=
  tabs 3 +:+ State.id state +:+ " = x(" +:+ pretty (k + 1) +:+ ",:);" +:+ nl.

(** The translation of the equation of [state], when the tokenizer accepts
    it. *)
Definition translated (self : Matlab) (state : State.t) : string :=
  match string2matlab self (State.equation state) with
  | Ok equation => equation
  | _ => ""
  end.

(** The line that defines the local variable of an ASSIGMENT state. *)
Definition assigment_line (self : Matlab) (state : State.t) : string :=
  tabs 3 +:+ State.id state +:+ " = " +:+ translated self state +:+ ";" +:+ nl.

(** The text of [write_local_states] when it resolved the ASSIGMENT states
    in the order [resolved_states]. *)
Definition local_states_text (self : Matlab) (resolved_states : list State.t)
    : string :=
  tabs 3 +:+ "% ODE and algebraic states:" +:+ nl
  +:+ String.concat "" (imap local_state_read (ode_algebraic_states self))
  +:+ nl
  +:+ tabs 3 +:+ "% Assigment states:" +:+ nl
  +:+ String.concat "" (assigment_line self <$> resolved_states)
  +:+ nl.

(** [m] appends one line per ASSIGMENT state it adds to [known_states], in
    the order it adds them. *)
Definition appends_lines (self : Matlab) (f : handle) (m : M (list string))
    (known_states : list string) : Prop :=
  ∃ r s,
    emits f m r s
    ∧ ∀ k, r = Ok k →
        ∃ resolved_states,
          k = known_states ++ (State.id <$> resolved_states)
          ∧ Forall (λ state, state ∈ dae_model.get_states (dae self)
                             ∧ State.type state = ASSIGMENT) resolved_states
          ∧ s = String.concat "" (assigment_line self <$> resolved_states).

(** The text of [write_local_states] up to and into its loop, when the loop
    has so far resolved the ASSIGMENT states [resolved_states]. *)
Definition local_states_started (self : Matlab) (resolved_states : list State.t)
    : string :=
  tabs 3 +:+ "% ODE and algebraic states:" +:+ nl
  +:+ String.concat "" (imap local_state_read (ode_algebraic_states self))
  +:+ nl
  +:+ tabs 3 +:+ "% Assigment states:" +:+ nl
  +:+ String.concat "" (assigment_line self <$> resolved_states).

(** However [m] ends, it has appended one line per ASSIGMENT state it added
    to [known_states], in the order it added them, and [I] holds of the ids
    known then. *)
Definition resolves_lines (self : Matlab) (f : handle) (I : list string → Prop)
    (m : M (list string)) (known_states : list string) : Prop :=
  ∃ r s resolved_states,
    emits f m r s
    ∧ s = String.concat "" (assigment_line self <$> resolved_states)
    ∧ Forall (λ state, state ∈ dae_model.get_states (dae self)
                       ∧ State.type state = ASSIGMENT) resolved_states
    ∧ I (known_states ++ (State.id <$> resolved_states))
    ∧ ∀ k, r = Ok k → k = known_states ++ (State.id <$> resolved_states).


(** The rows of [dx]: row [k + 1] holds the translated equation of the state
    at position [k] among the ODE and ALGEBRAIC states. *)
Definition ode_row (self : Matlab) (k : nat) (state : State.t) : string :=
  tabs 3 +:+ "% der(" +:+ State.id state +:+ ")" +:+ nl
  +:+ tabs 3 +:+ "dx(" +:+ pretty (k + 1) +:+ ",1) = " +:+ translated self state
  +:+ ";" +:+ nl +:+ nl.

(** The text of [write_ode] when [write_local_states] resolved the ASSIGMENT
    states in the order [resolved_states]. *)
Definition ode_text (self : Matlab) (resolved_states : list State.t) : string :=
  tabs 2 +:+ "function dx = ode(~,t,x,p)" +:+ nl
  +:+ tabs 3 +:+ "%% Evaluate the ODE." +:+ nl
  +:+ tabs 3 +:+ "%" +:+ nl
  +:+ tabs 3 +:+ "% Args:" +:+ nl
  +:+ tabs 3 +:+ "%" +:+ tab +:+ " t Current time in the simulation." +:+ nl
  +:+ tabs 3 +:+ "%" +:+ tab +:+ " x Array with the state value." +:+ nl
  +:+ tabs 3 +:+ "%" +:+ tab +:+ " p Struct with the parameters." +:+ nl
  +:+ tabs 3 +:+ "%" +:+ nl
  +:+ tabs 3 +:+ "% Return:" +:+ nl
  +:+ tabs 3 +:+ "%" +:+ tab +:+ " dx Array with the ODE." +:+ nl
  +:+ nl
  +:+ local_states_text self resolved_states
  +:+ String.concat "" (imap (ode_row self) (ode_algebraic_states self))
  +:+ tabs 2 +:+ "end" +:+ nl.

(** The lines of [simout2struct] that save a state and a parameter. *)
Definition save_state_line (state : State.t) : string :=
  tabs 3 +:+ "out." +:+ State.id state +:+ " = (" +:+ State.id state
  +:+ ".*ones_t)';" +:+ nl.

Definition save_parameter_line (item : Param.t) : string :=
  tabs 3 +:+ "out." +:+ Param.id item +:+ " = (p." +:+ Param.id item
  +:+ ".*ones_t)';" +:+ nl.

(** The text of [write_simout_2_struct] when [write_local_states] resolved
    the ASSIGMENT states in the order [resolved_states]. *)
Definition simout_text (self : Matlab) (resolved_states : list State.t) : string :=
  tabs 2 +:+ "function out = simout2struct(~,t,x,p)" +:+ nl
  +:+ tabs 3 +:+ "%% Convert the simulation output into an easy-to-use struct."
  +:+ nl
  +:+ nl
  +:+ tabs 3 +:+ "% We need to transpose state matrix." +:+ nl
  +:+ tabs 3 +:+ "x = x';" +:+ nl
  +:+ local_states_text self resolved_states
  +:+ tabs 3 +:+ "% Save simulation time." +:+ nl
  +:+ tabs 3 +:+ "out.t = t;" +:+ nl
  +:+ nl
  +:+ tabs 3 +:+ "% Vector for extending single-value states and parameters."
  +:+ nl
  +:+ tabs 3 +:+ "ones_t = ones(size(t'));" +:+ nl
  +:+ nl
  +:+ nl
  +:+ tabs 3 +:+ "% Save states." +:+ nl
  +:+ String.concat "" (save_state_line <$> dae_model.get_states (dae self))
  +:+ nl
  +:+ tabs 3 +:+ "% Save parameters." +:+ nl
  +:+ String.concat "" (save_parameter_line <$> dae_model.get_parameters (dae self))
  +:+ nl
  +:+ tabs 2 +:+ "end" +:+ nl.

(** The line of [simulation_options] for an item of the dict of options. *)
Definition option_line (item : string * string) : string :=
  tabs 3 +:+ "opts." +:+ item.1 +:+ " = " +:+ item.2 +:+ ";" +:+ nl.

Definition simulation_options_text (self : Matlab) : string :=
  tabs 2 +:+ "function opts = simulation_options(~)" +:+ nl
  +:+ tabs 3 +:+ "%% Default simulation options." +:+ nl
  +:+ String.concat "" (option_line <$> dae_model.get_options (dae self))
  +:+ tabs 2 +:+ "end" +:+ nl
  +:+ nl.

(** The dict [contexts] of [write_plot]: the states grouped by context. *)
Definition plot_contexts (self : Matlab) : list (string * list State.t) :=
  foldl (λ contexts state,
      let c := State.context state in
      match dict_get contexts c with
      | None => dict_set contexts c [state]
      | Some l => dict_set contexts c (l ++ [state])
      end)
    [] (dae_model.get_states (dae self)).

(** The distinct elements of a list, in the order they first appear. *)
Fixpoint first_occurrences (l : list string) : list string :=
  match l with
  | [] => []
  | x :: l => x :: filter (λ y, y ≠ x) (first_occurrences l)
  end.

(** The closed form of [plot_contexts]: the contexts in the order they first
    appear, each with its states in declaration order. *)
Definition plot_groups (states : list State.t) : list (string * list State.t) :=
  (λ c, (c, filter (λ state, State.context state = c) states))
  <$> first_occurrences (State.context <$> states).

(** The rows a grid of [x] columns needs for [n] subplots. *)
Definition subplot_rows (x : Z) (n : nat) : Z := ((Z.of_nat n + x - 1) / x)%Z.

(** Subplot [i + 1] of a grid of [x] by [y]. *)
Definition subplot_text (x y : Z) (i : nat) (state : State.t) : string :=
  tabs 3 +:+ "subplot(" +:+ pretty x +:+ "," +:+ pretty y +:+ ","
  +:+ pretty (i + 1) +:+ ");" +:+ nl
  +:+ tabs 3 +:+ "plot(out.t, out." +:+ State.id state +:+ ");" +:+ nl
  +:+ tabs 3 +:+ "title(" +:+ dq +:+ State.id state +:+ dq +:+ ");" +:+ nl
  +:+ tabs 3 +:+ "ylim([0, +inf]);" +:+ nl
  +:+ tabs 3 +:+ "grid on;" +:+ nl
  +:+ nl.

(** The figure of a context. *)
Definition figure_text (group : string * list State.t) : string :=
  let x := ceil_sqrt (length group.2) in
  let y := subplot_rows x (length group.2) in
  tabs 3 +:+ "figure('Name','" +:+ group.1 +:+ "');" +:+ nl
  +:+ String.concat "" (imap (subplot_text x y) group.2).

Definition plot_text (self : Matlab) : string :=
  tabs 2 +:+ "function plot(~,out)" +:+ nl
  +:+ tabs 3 +:+ "%% Plot simulation result." +:+ nl
  +:+ String.concat "" (figure_text <$> plot_contexts self)
  +:+ tabs 2 +:+ "end" +:+ nl.

(** The figure of a context on a grid of [y] rows. *)
Definition figure_text_rows (group : string * list State.t) (y : Z) : string :=
  tabs 3 +:+ "figure('Name','" +:+ group.1 +:+ "');" +:+ nl
  +:+ String.concat "" (imap (subplot_text (ceil_sqrt (length group.2)) y) group.2).

(** The text of [write_plot] when the figures have the numbers of rows
    [rows], one per entry of [contexts]. *)
Definition plot_text_rows (self : Matlab) (rows : list Z) : string :=
  tabs 2 +:+ "function plot(~,out)" +:+ nl
  +:+ tabs 3 +:+ "%% Plot simulation result." +:+ nl
  +:+ String.concat "" (zip_with figure_text_rows (plot_contexts self) rows)
  +:+ tabs 2 +:+ "end" +:+ nl.

(** A grid of [x] columns and [y] rows fits [n] subplots, with no row
    empty. *)
Definition grid_fits (n : nat) (x y : Z) : Prop :=
  (1 ≤ Z.of_nat n ∧ x * (y - 1) < Z.of_nat n ∧ Z.of_nat n ≤ x * y
   ∧ (x - 1) * (x - 1) < Z.of_nat n ∧ Z.of_nat n ≤ x * x
   ∧ x - 1 ≤ y ∧ y ≤ x)%Z.

End Exporter.

(** ** Models the properties are run on *)

Definition state (id : string) (type : StateType) (equation : string) : State.t :=
  State.mk id type equation "0" "main".

Definition model (name : string) (parameters : list string) (states : list State.t)
    : Matlab :=
  mkMatlab (dae_model.mkDae name ((λ id, Param.mk id "1") <$> parameters) states [])
           "out".

(** The end-to-end scenario of the spec (section 8), with [a2] declared
    before the state it references. *)
Definition chain_model : Matlab :=
  model "chain" ["k"]
    [state "a2" ASSIGMENT "a1+1"; state "v1" ODE "-k*v1";
     state "a1" ASSIGMENT "v1*2"].

(** Two ASSIGMENT states that reference each other. *)
Definition cyclic_model : Matlab :=
  model "cyclic" [] [state "A" ASSIGMENT "B"; state "B" ASSIGMENT "A"].

(** An ASSIGMENT state whose equation names [q], which is neither a
    parameter nor a state. *)
Definition unknown_model : Matlab :=
  model "unknown" [] [state "a" ASSIGMENT "q+1"].

(** A state whose equation the tokenizer rejects (an open bracket). *)
Definition broken_model : Matlab :=
  model "broken" [] [state "v" ODE "(v"].

(** The examples of the spec for the translator and the extractor: a
    parameter [a]; states [x], [y], [z], [w]; a parameter [f]. *)
Definition a_model : Matlab := model "a" ["a"] [].

Definition xyzw_model : Matlab :=
  model "xyzw" []
    [state "x" ODE "0"; state "y" ODE "0"; state "z" ODE "0"; state "w" ODE "0"].

Definition f_model : Matlab := model "f" ["f"] [].

(** A file that was just opened. *)
Definition fresh : file := File "out.m" "" false.

(** A cycle, [A] and [B], beside states that can be resolved. *)
Definition partly_cyclic_model : Matlab :=
  model "partly" []
    [state "A" ASSIGMENT "B"; state "v" ODE "1"; state "a" ASSIGMENT "v*2";
     state "B" ASSIGMENT "A"].

(** Two ASSIGMENT states, [b] and [a], that are resolvable in the same scan,
    and a third that becomes resolvable in it. *)
Definition tie_model : Matlab :=
  model "tie" []
    [state "b" ASSIGMENT "v+1"; state "v" ODE "-v"; state "a" ASSIGMENT "v*2";
     state "c" ASSIGMENT "a+b"].

(** The chain model with its states declared in dependency order. *)
Definition sorted_model : Matlab :=
  model "sorted" ["k"]
    [state "a0" ASSIGMENT "k"; state "v1" ODE "-k*v1";
     state "a1" ASSIGMENT "v1*2+a0"; state "a2" ASSIGMENT "a1+1"].

(** A model with simulation options. *)
Definition options_model : Matlab :=
  mkMatlab
    (dae_model.mkDae "options" [] [] [("t_init", "0"); ("t_end", "10")])
    "out".

(** An ASSIGMENT state with the id of an ODE state. *)
Definition shared_id_model : Matlab :=
  model "shared" [] [state "x" ODE "1"; state "x" ASSIGMENT "2"].

(** Five states in two contexts. *)
Definition plot_model : Matlab :=
  mkMatlab
    (dae_model.mkDae "plot" []
       [State.mk "a" ODE "1" "0" "cell"; State.mk "b" ODE "1" "0" "medium";
        State.mk "c" ODE "1" "0" "cell"; State.mk "d" ALGEBRAIC "1" "0" "cell";
        State.mk "e" ASSIGMENT "a" "0" "medium"]
       [])
    "out".

(** * Properties *)

(** ** Strings and loops *)

Lemma append_cons (c : ascii) (s1 s2 : string) :
  String c s1 +:+ s2 = String c (s1 +:+ s2).
Proof. reflexivity. Qed.

Lemma append_nil_r (s : string) : s +:+ "" = s.
Proof. induction s as [|c s IH]; [done | by rewrite append_cons, IH]. Qed.

Lemma append_assoc (s1 s2 s3 : string) : (s1 +:+ s2) +:+ s3 = s1 +:+ s2 +:+ s3.
Proof. induction s1 as [|c s1 IH]; [done | by rewrite !append_cons, IH]. Qed.

Lemma concat_cons (s : string) (l : list string) :
  String.concat "" (s :: l) = s +:+ String.concat "" l.
Proof. destruct l; simpl; [symmetry; apply append_nil_r | done]. Qed.

Lemma concat_app (l1 l2 : list string) :
  String.concat "" (l1 ++ l2) = String.concat "" l1 +:+ String.concat "" l2.
Proof.
  induction l1 as [|s l1 IH]; [done|].
  rewrite <- app_comm_cons, !concat_cons, IH. by rewrite append_assoc.
Qed.

(** The loops that collect ids build the list of ids. *)
Lemma foldl_collect {A B} (h : A → B) (l : list A) (acc : list B) :
  foldl (λ acc x, acc ++ [h x]) acc l = acc ++ (h <$> l).
Proof.
  revert acc. induction l as [|x l IH]; intros acc; simpl.
  - by rewrite app_nil_r.
  - rewrite IH. by rewrite <- app_assoc.
Qed.

Section Translator.

Variable tokenize : string → exn + list TokenInfo.
Variable self : Matlab.

(** The loop body of [string2matlab]. *)
Local Abbreviation string2matlab_body parameters :=
  (λ (result : string) '(Token toknum tokval),
      if bool_decide (toknum = ENCODING) then result
      else if bool_decide (toknum = NAME)
              && bool_decide (tokval ∈ parameters)
      then result +:+ "p." +:+ tokval
      else if bool_decide (toknum = OP)
              && bool_decide (tokval ∈ ["*"; "/"; "^"])
      then result +:+ "." +:+ tokval
      else if bool_decide (toknum = OP)
              && bool_decide (tokval ∈ ["+"; "-"])
      then result +:+ " " +:+ tokval +:+ " "
      else result +:+ tokval).

Lemma string2matlab_body_token (ps : list string) (result : string) (t : TokenInfo) :
  string2matlab_body ps result t
  = if bool_decide (tok_type t = ENCODING) then result
    else result +:+ translate_token ps t.
Proof.
  destruct t as [k v]. unfold translate_token.
  destruct k; simpl; repeat (case_decide; simpl); try done; naive_solver.
Qed.

Lemma translate_tokens_cons (ps : list string) (t : TokenInfo) (g : list TokenInfo) :
  translate_tokens ps (t :: g)
  = if bool_decide (tok_type t = ENCODING) then translate_tokens ps g
    else translate_token ps t +:+ translate_tokens ps g.
Proof.
  unfold translate_tokens, formula_tokens. rewrite filter_cons.
  case_decide; case_bool_decide; try done.
  by rewrite fmap_cons, concat_cons.
Qed.

Lemma string2matlab_loop (ps : list string) (g : list TokenInfo) (acc : string) :
  foldl (string2matlab_body ps) acc g = acc +:+ translate_tokens ps g.
Proof.
  revert acc. induction g as [|t g IH]; intros acc.
  - symmetry. apply append_nil_r.
  - cbn [foldl]. rewrite IH, string2matlab_body_token, translate_tokens_cons.
    case_bool_decide; [done | by rewrite append_assoc].
Qed.

Lemma string2matlab_tokens (math_expr : string) (g : list TokenInfo) :
  tokenize math_expr = inr g →
  string2matlab tokenize self math_expr
  = Ok (translate_tokens (parameter_ids self) g).
Proof.
  intros Hg. unfold string2matlab. rewrite Hg.
  rewrite (foldl_collect Param.id _ []). simpl.
  f_equal. apply (string2matlab_loop _ g "").
Qed.

Lemma string2matlab_raise (math_expr : string) (e : exn) :
  tokenize math_expr = inl e → string2matlab tokenize self math_expr = Raise e.
Proof. intros He. unfold string2matlab. by rewrite He. Qed.

Lemma translate_tokens_app (ps : list string) (g1 g2 : list TokenInfo) :
  translate_tokens ps (g1 ++ g2)
  = translate_tokens ps g1 +:+ translate_tokens ps g2.
Proof.
  unfold translate_tokens, formula_tokens.
  by rewrite filter_app, fmap_app, concat_app.
Qed.

Lemma reference_tokens_cons (ids : list string) (t : TokenInfo) (g : list TokenInfo) :
  reference_tokens ids (t :: g)
  = if bool_decide (tok_type t = NAME) && bool_decide (tok_string t ∈ ids)
    then tok_string t :: reference_tokens ids g
    else reference_tokens ids g.
Proof.
  unfold reference_tokens. rewrite filter_cons.
  destruct (decide _) as [[Hk Hv]|Hn].
  - by rewrite !bool_decide_eq_true_2.
  - destruct (decide (tok_type t = NAME)) as [Hk|Hk].
    + rewrite (bool_decide_eq_false_2 (tok_string t ∈ ids)) by tauto.
      by rewrite andb_false_r.
    + by rewrite (bool_decide_eq_false_2 _ Hk).
Qed.

Lemma get_states_loop (ids : list string) (g : list TokenInfo) (acc : list string) :
  foldl (λ result '(Token toknum tokval),
      if bool_decide (toknum = NAME) && bool_decide (tokval ∈ ids)
      then result ++ [tokval]
      else result) acc g
  = acc ++ reference_tokens ids g.
Proof.
  revert acc. induction g as [|[k v] g IH]; intros acc.
  - by rewrite app_nil_r.
  - cbn [foldl]. rewrite IH, reference_tokens_cons. cbn [tok_type tok_string].
    destruct (bool_decide (k = NAME) && bool_decide (v ∈ ids)); [|done].
    by rewrite <- app_assoc.
Qed.

Lemma get_states_tokens (math_expr : string) (g : list TokenInfo) :
  tokenize math_expr = inr g →
  get_states tokenize self math_expr = Ok (reference_tokens (state_ids self) g).
Proof.
  intros Hg. unfold get_states. rewrite Hg.
  rewrite (foldl_collect State.id _ []). simpl.
  f_equal. apply (get_states_loop _ g []).
Qed.

Lemma get_states_raise (math_expr : string) (e : exn) :
  tokenize math_expr = inl e → get_states tokenize self math_expr = Raise e.
Proof. intros He. unfold get_states. by rewrite He. Qed.

Lemma reference_tokens_app (ids : list string) (g1 g2 : list TokenInfo) :
  reference_tokens ids (g1 ++ g2) = reference_tokens ids g1 ++ reference_tokens ids g2.
Proof. unfold reference_tokens. by rewrite filter_app, fmap_app. Qed.

Lemma reference_tokens_known (ids : list string) (g : list TokenInfo) (x : string) :
  x ∈ reference_tokens ids g → x ∈ ids.
Proof.
  unfold reference_tokens. intros Hx.
  apply list_elem_of_fmap in Hx as (t & -> & Ht).
  by apply list_elem_of_filter in Ht as [[_ ?] _].
Qed.

(** Whatever the tokenizer does, a returned reference is a state id. *)
Lemma get_states_known (math_expr : string) (deps : list string) (x : string) :
  get_states tokenize self math_expr = Ok deps → x ∈ deps → x ∈ state_ids self.
Proof.
  intros Hd Hx. destruct (tokenize math_expr) as [e|g] eqn:Hg.
  - by rewrite (get_states_raise _ _ Hg) in Hd.
  - rewrite (get_states_tokens _ _ Hg) in Hd. simplify_eq.
    by eapply reference_tokens_known.
Qed.

(** The two consumers fail together: one tokenizer run decides both. *)
Lemma get_states_string2matlab (math_expr : string) (deps : list string) :
  get_states tokenize self math_expr = Ok deps →
  ∃ equation, string2matlab tokenize self math_expr = Ok equation.
Proof.
  intros Hd. destruct (tokenize math_expr) as [e|g] eqn:Hg.
  - by rewrite (get_states_raise _ _ Hg) in Hd.
  - eexists. by apply string2matlab_tokens.
Qed.

End Translator.

(** ** Files: what a sequence of writes does *)

Lemma is_open_lookup (f : handle) (w : world) :
  is_open f w ∨ (∀ s, write f s w = (Raise (Exn "ValueError" "I/O operation on closed file."), w)).
Proof.
  unfold is_open, write. destruct (w !! f) as [[p t [|]]|]; eauto.
Qed.

Lemma appends_refl (f : handle) (w : world) : is_open f w → appends f w w.
Proof.
  intros (p & t & Hf). exists p, t, "". split; [done|].
  rewrite append_nil_r. symmetry. by apply list_insert_id.
Qed.

Lemma appends_trans (f : handle) (w1 w2 w3 : world) :
  appends f w1 w2 → appends f w2 w3 → appends f w1 w3.
Proof.
  intros (p & t & s & Hf & ->) (p' & t' & s' & Hf' & ->).
  rewrite list_lookup_insert_eq in Hf' by by eapply lookup_lt_Some.
  simplify_eq. exists p', t, (s +:+ s'). split; [done|].
  by rewrite list_insert_insert_eq, append_assoc.
Qed.

Lemma appends_open (f : handle) (w w' : world) : appends f w w' → is_open f w'.
Proof.
  intros (p & t & s & Hf & ->). exists p, (t +:+ s).
  apply list_lookup_insert_eq. by eapply lookup_lt_Some.
Qed.

Lemma appends_length (f : handle) (w w' : world) :
  appends f w w' → length w' = length w.
Proof. intros (p & t & s & Hf & ->). apply length_insert. Qed.

Lemma pure_on_ret {A} (f : handle) (a : A) : pure_on f (mret a) (Ok a).
Proof. intros w Hw. exists w. split; [done | by apply appends_refl]. Qed.

Lemma pure_on_lift {A} (f : handle) (r : result A) : pure_on f (lift r) r.
Proof. intros w Hw. exists w. split; [done | by apply appends_refl]. Qed.

Lemma pure_on_write (f : handle) (s : string) : pure_on f (write f s) (Ok ()).
Proof.
  intros w (p & t & Hf). unfold write. rewrite Hf.
  eexists. split; [done|]. by exists p, t, s.
Qed.

Lemma pure_on_bind {A B} (f : handle) (m : M A) (k : A → M B)
    (r : result A) (k' : A → result B) :
  pure_on f m r → (∀ a, pure_on f (k a) (k' a)) → pure_on f (m ≫= k) (r ≫= k').
Proof.
  intros Hm Hk w Hw. destruct (Hm w Hw) as (w1 & Hm1 & Hw1).
  unfold mbind, M_bind, result_bind. rewrite Hm1. destruct r as [a|e|].
  - destruct (Hk a w1) as (w2 & Hk2 & Hw2); [by eapply appends_open|].
    exists w2. split; [done | by eapply appends_trans].
  - by exists w1.
  - by exists w1.
Qed.

Lemma pure_on_seq {A B} (f : handle) (m : M A) (k : A → M B) (a : A) (r : result B) :
  pure_on f m (Ok a) → pure_on f (k a) r → pure_on f (m ≫= k) r.
Proof.
  intros Hm Hk w Hw. destruct (Hm w Hw) as (w1 & Hm1 & Hw1).
  destruct (Hk w1) as (w2 & Hk2 & Hw2); [by eapply appends_open|].
  exists w2. unfold mbind, M_bind. rewrite Hm1.
  split; [done | by eapply appends_trans].
Qed.

Lemma pure_on_for_each {A S} (f : handle) (body : S → A → M S)
    (body' : S → A → result S) (l : list A) (s : S) :
  (∀ s x, pure_on f (body s x) (body' s x)) →
  pure_on f (for_each body s l) (for_each_r body' s l).
Proof.
  intros Hbody. revert s. induction l as [|x l IH]; intros s; simpl.
  - apply pure_on_ret.
  - by apply pure_on_bind.
Qed.

Lemma pure_on_while {S} (f : handle) (cond : S → bool) (body : S → M S)
    (body' : S → result S) (fuel : nat) (s : S) :
  (∀ s, pure_on f (body s) (body' s)) →
  pure_on f (while_ fuel cond body s) (while_r fuel cond body' s).
Proof.
  intros Hbody. revert s. induction fuel as [|fuel IH]; intros s; simpl.
  - destruct (cond s); [apply pure_on_lift | apply pure_on_ret].
  - destruct (cond s); [by apply pure_on_bind | apply pure_on_ret].
Qed.

(** The result of a call that only writes to [f] does not depend on the
    table it runs in. *)
Lemma pure_on_fst {A} (f : handle) (m : M A) (r : result A) (w : world) :
  pure_on f m r → is_open f w → (m w).1 = r.
Proof. intros Hm Hw. destruct (Hm w Hw) as (w' & -> & _). done. Qed.

Lemma keeps_open_ret {A} (f : handle) (a : A) : keeps_open f (mret a).
Proof. intros w r w' Hw [= <- <-]. done. Qed.

Lemma keeps_open_lift {A} (f : handle) (r : result A) : keeps_open f (lift r).
Proof. intros w r' w' Hw [= <- <-]. done. Qed.

Lemma keeps_open_write (f : handle) (s : string) : keeps_open f (write f s).
Proof.
  intros w r w' (p & t & Hf). unfold write. rewrite Hf. intros [= <- <-].
  exists p, (t +:+ s). apply list_lookup_insert_eq. by eapply lookup_lt_Some.
Qed.

Lemma keeps_open_bind {A B} (f : handle) (m : M A) (k : A → M B) :
  keeps_open f m → (∀ a, keeps_open f (k a)) → keeps_open f (m ≫= k).
Proof.
  intros Hm Hk w r w' Hw. unfold mbind, M_bind.
  destruct (m w) as [[a|e|] w1] eqn:Hm1.
  - intros Hk1. eapply Hk; [|done]. by eapply Hm.
  - intros [= <- <-]. by eapply Hm.
  - intros [= <- <-]. by eapply Hm.
Qed.

Lemma keeps_open_for_each {A S} (f : handle) (body : S → A → M S) (l : list A) (s : S) :
  (∀ s x, keeps_open f (body s x)) → keeps_open f (for_each body s l).
Proof.
  intros Hbody. revert s. induction l as [|x l IH]; intros s; simpl.
  - apply keeps_open_ret.
  - by apply keeps_open_bind.
Qed.

Lemma keeps_open_while {S} (f : handle) (cond : S → bool) (body : S → M S)
    (fuel : nat) (s : S) :
  (∀ s, keeps_open f (body s)) → keeps_open f (while_ fuel cond body s).
Proof.
  intros Hbody. revert s. induction fuel as [|fuel IH]; intros s; simpl.
  - destruct (cond s); [apply keeps_open_lift | apply keeps_open_ret].
  - destruct (cond s); [by apply keeps_open_bind | apply keeps_open_ret].
Qed.

(** Splits a sequence of calls into its steps. *)
Ltac keeps_open :=
  repeat first
    [ apply keeps_open_ret | apply keeps_open_lift | apply keeps_open_write
    | apply keeps_open_for_each; intros
    | apply keeps_open_while; intros
    | apply keeps_open_bind; [|intros]
    | match goal with
      | |- keeps_open _ (if ?b then _ else _) => destruct b
      | |- keeps_open _ (match ?x with _ => _ end) => destruct x
      | |- keeps_open _ ?m =>
          match m with
          | context [match ?x with _ => _ end] =>
              is_var x; destruct x; cbv beta iota
          end
      end ].

(** ** The resolver, step by step *)

Section Resolver.

Variable tokenize : string → exn + list TokenInfo.
Variable self : Matlab.

Local Abbreviation states := (dae_model.get_states (dae self)).
Local Abbreviation get_states' := (get_states tokenize self).
Local Abbreviation string2matlab' := (string2matlab tokenize self).

Lemma result_bind_ret {A} (r : result A) : r ≫= mret = r.
Proof. by destruct r. Qed.

(** The first loop records the ODE and ALGEBRAIC ids in declaration order. *)
Lemma write_ode_algebraic_states_pure (f : handle) (l : list State.t)
    (i : nat) (known_states : list string) :
  ∃ j, pure_on f
    (for_each (λ '(i, known_states) state,
        if negb (bool_decide (State.type state ∈ [ODE; ALGEBRAIC])) then
          mret (i, known_states)
        else
          write f (tabs 3 +:+ State.id state +:+ " = x(" +:+ pretty i +:+ ",:);"
                   +:+ nl);;
          mret (i + 1, known_states ++ [State.id state]))
      (i, known_states) l)
    (Ok (j, known_states ++ (State.id <$> filter is_ode_algebraic l))).
Proof.
  revert i known_states. induction l as [|state l IH]; intros i known_states.
  - exists i. cbn. rewrite app_nil_r. apply pure_on_ret.
  - cbn [for_each].
    destruct (bool_decide (State.type state ∈ [ODE; ALGEBRAIC])) eqn:Ht; cbn [negb].
    + rewrite filter_cons_True by (unfold is_ode_algebraic; by rewrite Ht).
      destruct (IH (i + 1) (known_states ++ [State.id state])) as (j & Hj).
      exists j. rewrite fmap_cons. rewrite <- app_assoc in Hj.
      eapply pure_on_seq; [|exact Hj].
      eapply pure_on_seq; [apply pure_on_write | apply pure_on_ret].
    + rewrite filter_cons_False by (unfold is_ode_algebraic; rewrite Ht; intros []).
      destruct (IH i known_states) as (j & Hj).
      exists j. eapply pure_on_seq; [apply pure_on_ret | exact Hj].
Qed.

(** One step of the scan writes a line exactly when [scan_step] appends. *)
Lemma write_assigment_scan_step (f : handle) (known_states : list string)
    (state : State.t) :
  pure_on f
    (if negb (bool_decide (State.type state = ASSIGMENT)) then
       mret known_states
     else if bool_decide (State.id state ∈ known_states) then
       mret known_states
     else
       dependencies ← lift (get_states' (State.equation state));
       if forallb (λ elem, bool_decide (elem ∈ known_states)) dependencies then
         equation ← lift (string2matlab' (State.equation state));
         write f (tabs 3 +:+ State.id state +:+ " = " +:+ equation +:+ ";" +:+ nl);;
         mret (known_states ++ [State.id state])
       else mret known_states)
    (scan_step tokenize self known_states state).
Proof.
  unfold scan_step.
  destruct (negb _); [apply pure_on_ret|].
  destruct (bool_decide (State.id state ∈ known_states)); [apply pure_on_ret|].
  apply pure_on_bind; [apply pure_on_lift|]. intros deps.
  destruct (forallb _ deps); [|apply pure_on_ret].
  apply pure_on_bind; [apply pure_on_lift|]. intros equation.
  eapply pure_on_seq; [apply pure_on_write | apply pure_on_ret].
Qed.

Lemma write_assigment_scan_pure (f : handle) (known_states : list string) :
  pure_on f (write_assigment_scan tokenize self f known_states)
            (scan tokenize self known_states).
Proof.
  unfold write_assigment_scan, scan. apply pure_on_for_each.
  intros. apply write_assigment_scan_step.
Qed.

(** [write_local_states] writes the states in the order [order] computes,
    whatever the file holds. *)
Lemma write_local_states_pure (fuel : nat) (f : handle) :
  pure_on f (write_local_states tokenize fuel self f) (order tokenize fuel self).
Proof.
  unfold write_local_states, order, resolve.
  eapply pure_on_seq; [apply pure_on_write|].
  destruct (write_ode_algebraic_states_pure f states 1 []) as (j & Hj).
  eapply pure_on_seq; [exact Hj|]. cbn [app].
  eapply pure_on_seq; [apply pure_on_write|].
  eapply pure_on_seq; [apply pure_on_write|].
  rewrite <- (result_bind_ret (while_r _ _ _ _)).
  apply pure_on_bind.
  - apply pure_on_while. intros. apply write_assigment_scan_pure.
  - intros known. eapply pure_on_seq; [apply pure_on_write | apply pure_on_ret].
Qed.

(** A call that returns went through the writes, so its file was open. *)
Lemma write_local_states_order (fuel : nat) (f : handle) (w : world)
    (r : list string) :
  (write_local_states tokenize fuel self f w).1 = Ok r →
  order tokenize fuel self = Ok r.
Proof.
  destruct (is_open_lookup f w) as [Hw|Hw].
  - by rewrite (pure_on_fst _ _ _ _ (write_local_states_pure fuel f) Hw).
  - unfold write_local_states, mbind, M_bind. by rewrite Hw.
Qed.

Lemma write_assigment_scan_scan (f : handle) (w : world)
    (known_states : list string) :
  is_open f w →
  (write_assigment_scan tokenize self f known_states w).1
  = scan tokenize self known_states.
Proof. apply pure_on_fst, write_assigment_scan_pure. Qed.

End Resolver.

(** ** Loops over a list and bounded loops, without the files *)

Lemma for_each_r_ind {A S} (P : S → Prop) (body : S → A → result S)
    (l : list A) (s r : S) :
  P s →
  (∀ s x s', x ∈ l → P s → body s x = Ok s' → P s') →
  for_each_r body s l = Ok r → P r.
Proof.
  revert s. induction l as [|x l IH]; intros s Hs Hbody; cbn.
  - by intros [= <-].
  - destruct (body s x) as [s'| |] eqn:Hx; cbn; [|done..].
    apply IH.
    + eapply Hbody; [|done..]. left.
    + intros s1 y s2 Hy. apply Hbody. by right.
Qed.

Lemma for_each_r_cons_inv {A S} (body : S → A → result S) (x : A) (l : list A)
    (s r : S) :
  for_each_r body s (x :: l) = Ok r →
  ∃ s', body s x = Ok s' ∧ for_each_r body s' l = Ok r.
Proof. cbn. destruct (body s x); cbn; [eauto | done..]. Qed.

Lemma for_each_r_app {A S} (body : S → A → result S) (l1 l2 : list A) (s : S) :
  for_each_r body s (l1 ++ l2) = for_each_r body s l1 ≫= λ s', for_each_r body s' l2.
Proof.
  revert s. induction l1 as [|x l1 IH]; intros s; cbn; [done|].
  destruct (body s x); cbn; [apply IH | done..].
Qed.

Lemma while_r_ind {S} (P : S → Prop) (cond : S → bool) (body : S → result S)
    (fuel : nat) (s r : S) :
  P s →
  (∀ s s', P s → cond s = true → body s = Ok s' → P s') →
  while_r fuel cond body s = Ok r → P r ∧ cond r = false.
Proof.
  intros Hs Hbody. revert s Hs. induction fuel as [|fuel IH]; intros s Hs; cbn.
  - destruct (cond s) eqn:Hc; [done|]. by intros [= <-].
  - destruct (cond s) eqn:Hc; [|by intros [= <-]].
    destruct (body s) as [s'| |] eqn:Hb; cbn; [|done..].
    apply IH. by eapply Hbody.
Qed.


(** ** A finite graph in which every node has a successor has a cycle *)

Lemma no_sink_cycle {A} `{EqDecision A} (n : nat) :
  ∀ (R : relation A) (l : list A),
    length l ≤ n → l ≠ [] →
    (∀ x, x ∈ l → ∃ y, y ∈ l ∧ R x y) →
    ∃ x, tc R x x.
Proof.
  induction n as [|n IH]; intros R l Hlen Hne Hsucc.
  { destruct l; [done | simpl in Hlen; lia]. }
  destruct l as [|x0 l0]; [done|]. clear Hne.
  destruct (Hsucc x0) as (y0 & Hy0 & Hxy0); [left|].
  destruct (decide (y0 = x0)) as [->|Hne0].
  { exists x0. by apply tc_once. }
  set (l' := filter (λ x, x ≠ x0) (x0 :: l0)).
  set (R' := λ x y, R x y ∨ (R x x0 ∧ R x0 y)).
  destruct (IH R' l') as (x & Hx).
  - assert (length l' ≤ length l0); [|simpl in Hlen; lia].
    unfold l'. rewrite filter_cons_False by naive_solver.
    apply length_filter.
  - intros Hl'. assert (y0 ∈ l') as Hin by by apply list_elem_of_filter.
    rewrite Hl' in Hin. by apply elem_of_nil in Hin.
  - intros x [Hx Hxl]%list_elem_of_filter.
    destruct (Hsucc x Hxl) as (y & Hy & Hxy).
    destruct (decide (y = x0)) as [->|Hney].
    + exists y0. split; [by apply list_elem_of_filter|]. right. done.
    + exists y. split; [by apply list_elem_of_filter|]. by left.
  - exists x. revert Hx. generalize x at 1 3. intros a Ha.
    induction Ha as [a b [Hab|[Ha0 H0b]]|a b c [Hab|[Ha0 H0b]] _ IHtc].
    + by apply tc_once.
    + eapply tc_l; [done|]. by apply tc_once.
    + by eapply tc_l.
    + eapply tc_l; [done|]. by eapply tc_l.
Qed.

(** A node on a cycle has a successor on a cycle. *)
Lemma cycle_successor {A} (R : relation A) (x : A) :
  tc R x x → ∃ y, R x y ∧ tc R y y.
Proof.
  intros Hx. inversion Hx as [? ? Hxx|? y ? Hxy Hyx]; subst.
  - by exists x.
  - exists y. split; [done|]. eapply tc_r; done.
Qed.

(** A strictly decreasing rank rules cycles out. *)
Lemma ranked_acyclic {A} (R : relation A) (rank : A → nat) :
  (∀ x y, R x y → rank y < rank x) → ∀ x, ¬ tc R x x.
Proof.
  intros Hrank. assert (∀ x y, tc R x y → rank y < rank x) as Htc.
  { induction 1 as [x y Hxy|x y z Hxy _ IH]; [by apply Hrank|].
    specialize (Hrank _ _ Hxy). lia. }
  intros x Hx. specialize (Htc _ _ Hx). lia.
Qed.

(** ** The order the resolver builds *)

Section Order.

Variable tokenize : string → exn + list TokenInfo.
Variable self : Matlab.

Local Abbreviation states := (dae_model.get_states (dae self)).
Local Abbreviation get_states' := (get_states tokenize self).
Local Abbreviation string2matlab' := (string2matlab tokenize self).
Local Abbreviation scan_step' := (scan_step tokenize self).
Local Abbreviation scan' := (scan tokenize self).
Local Abbreviation depends' := (depends tokenize self).

(** The four ways a step of the scan can end well. *)
Lemma scan_step_inv (known : list string) (state : State.t) (r : list string) :
  scan_step' known state = Ok r →
  (r = known ∧ (State.type state ≠ ASSIGMENT ∨ State.id state ∈ known))
  ∨ (∃ deps, get_states' (State.equation state) = Ok deps
       ∧ State.type state = ASSIGMENT ∧ (State.id state ∉ known)
       ∧ ((r = known ∧ (∃ d, d ∈ deps ∧ d ∉ known))
          ∨ (r = known ++ [State.id state] ∧ ∀ d, d ∈ deps → d ∈ known))).
Proof.
  unfold scan_step. case_bool_decide as Ht; cbn [negb].
  2: { intros [= <-]. left. eauto. }
  case_bool_decide as Hid.
  { intros [= <-]. left. eauto. }
  destruct (get_states' _) as [deps| |] eqn:Hdeps; cbn; [|done..].
  destruct (forallb _ deps) eqn:Hall.
  - destruct (string2matlab' _); cbn; [|done..]. intros [= <-].
    right. exists deps. repeat split; try done. right. split; [done|].
    intros d Hd. rewrite forallb_forall in Hall.
    apply list_elem_of_In, Hall in Hd. by apply bool_decide_eq_true in Hd.
  - intros [= <-]. right. exists deps. repeat split; try done. left.
    split; [done|].
    destruct (decide (Forall (λ d, d ∈ known) deps)) as [Hf|Hf].
    + exfalso. apply not_true_iff_false in Hall. apply Hall.
      apply forallb_forall. intros d Hd. apply bool_decide_eq_true_2.
      rewrite Forall_forall in Hf. by apply Hf, list_elem_of_In.
    + apply not_Forall_Exists in Hf; [|apply _].
      apply Exists_exists in Hf. destruct Hf as (d & Hd & Hnd). eauto.
Qed.

(** *** Ids and kinds *)

Lemma state_id_elem (state : State.t) :
  state ∈ states → State.id state ∈ state_ids self.
Proof. intros Hs. unfold state_ids. by apply list_elem_of_fmap_2. Qed.

Lemma ode_algebraic_ids_elem (x : string) :
  x ∈ ode_algebraic_ids self ↔
  ∃ state, state ∈ states ∧ State.id state = x ∧ State.type state ≠ ASSIGMENT.
Proof.
  unfold ode_algebraic_ids. rewrite list_elem_of_fmap. split.
  - intros (state & -> & [Ht Hs]%list_elem_of_filter). exists state.
    repeat split; [done|]. unfold is_ode_algebraic in Ht.
    apply bool_decide_unpack in Ht. intros Heq. rewrite Heq in Ht.
    apply elem_of_cons in Ht as [Ht|Ht]; [done|].
    apply elem_of_cons in Ht as [Ht|Ht]; [done|].
    by apply elem_of_nil in Ht.
  - intros (state & Hs & <- & Ht). exists state. split; [done|].
    apply list_elem_of_filter. split; [|done]. unfold is_ode_algebraic.
    apply bool_decide_pack.
    destruct (State.type state); [left | right; left | done].
Qed.

Lemma assigment_ids_elem (x : string) :
  x ∈ assigment_ids self ↔
  ∃ state, state ∈ states ∧ State.id state = x ∧ State.type state = ASSIGMENT.
Proof.
  unfold assigment_ids. rewrite list_elem_of_fmap. split.
  - intros (state & -> & [Ht Hs]%list_elem_of_filter). exists state.
    repeat split; [done|]. by apply bool_decide_unpack in Ht.
  - intros (state & Hs & <- & Ht). exists state. split; [done|].
    apply list_elem_of_filter. split; [|done]. by apply bool_decide_pack.
Qed.

(** With unique ids, an id names one state. *)
Lemma state_id_inj (s1 s2 : State.t) :
  NoDup (state_ids self) → s1 ∈ states → s2 ∈ states →
  State.id s1 = State.id s2 → s1 = s2.
Proof.
  unfold state_ids. induction states as [|s l IH]; [by intros _ ?%elem_of_nil|].
  rewrite fmap_cons, NoDup_cons. intros [Hs Hl].
  intros [->|H1]%elem_of_cons [->|H2]%elem_of_cons Heq; try done.
  - exfalso. apply Hs. rewrite Heq. by apply list_elem_of_fmap_2.
  - exfalso. apply Hs. rewrite <- Heq. by apply list_elem_of_fmap_2.
  - by apply IH.
Qed.

Lemma resolved_known (known : list string) (x : string) :
  resolved self known → x ∈ known → x ∈ state_ids self.
Proof.
  intros (tail & -> & Htail) [Hx|Hx]%elem_of_app.
  - apply ode_algebraic_ids_elem in Hx as (state & Hs & <- & _).
    by apply state_id_elem.
  - rewrite Forall_forall in Htail.
    apply Htail, assigment_ids_elem in Hx as (state & Hs & <- & _).
    by apply state_id_elem.
Qed.

Lemma resolved_init : resolved self (ode_algebraic_ids self).
Proof. exists []. by rewrite app_nil_r. Qed.

(** *** One step of the scan *)

Lemma scan_step_resolved (known : list string) (state : State.t) (r : list string) :
  state ∈ states → resolved self known →
  scan_step' known state = Ok r → resolved self r.
Proof.
  intros Hs Hk [[-> _]|(deps & _ & Ht & _ & [[-> _]|[-> _]])]%scan_step_inv;
    try done.
  destruct Hk as (tail & -> & Htail). exists (tail ++ [State.id state]).
  split; [by rewrite app_assoc|]. apply Forall_app. split; [done|].
  apply Forall_singleton, assigment_ids_elem. eauto.
Qed.

Lemma scan_step_NoDup (known : list string) (state : State.t) (r : list string) :
  NoDup known → scan_step' known state = Ok r → NoDup r.
Proof.
  intros Hk [[-> _]|(deps & _ & _ & Hid & [[-> _]|[-> _]])]%scan_step_inv;
    try done.
  apply NoDup_app. repeat split; [done| |apply NoDup_singleton].
  intros x Hx ->%list_elem_of_singleton. done.
Qed.

Lemma scan_step_prefix (known : list string) (state : State.t) (r : list string) :
  scan_step' known state = Ok r → known `prefix_of` r.
Proof.
  intros [[-> _]|(deps & _ & _ & _ & [[-> _]|[-> _]])]%scan_step_inv;
    try done.
  by apply prefix_app_r.
Qed.

Lemma scan_prefix_list (l : list State.t) (known r : list string) :
  for_each_r scan_step' known l = Ok r → known `prefix_of` r.
Proof.
  apply (for_each_r_ind (λ k, known `prefix_of` k)); [done|].
  intros k x k' _ Hk Hx. etrans; [done|]. by eapply scan_step_prefix.
Qed.

(** What one scan adds is a subsequence of the ASSIGMENT ids in declaration
    order. *)
Lemma scan_added_list (l : list State.t) (known r : list string) :
  for_each_r scan_step' known l = Ok r →
  ∃ added, r = known ++ added
           ∧ added `sublist_of` (State.id <$> filter is_assigment l).
Proof.
  revert known. induction l as [|state l IH]; intros known.
  { intros [= <-]. exists []. by rewrite app_nil_r. }
  intros (r1 & Hstep & (added & -> & Hsub)%IH)%for_each_r_cons_inv.
  apply scan_step_inv in Hstep
    as [[-> _]|(deps & _ & Ht & _ & [[-> _]|[-> _]])].
  - exists added. split; [done|]. rewrite filter_cons.
    destruct (decide _); [by apply sublist_cons | done].
  - exists added. split; [done|]. rewrite filter_cons.
    destruct (decide _); [by apply sublist_cons | done].
  - exists (State.id state :: added). split; [by rewrite <- app_assoc|].
    rewrite filter_cons_True by by apply bool_decide_pack.
    by apply sublist_skip.
Qed.


(** *** The position of a state after its references *)

Lemma before_app (x y : string) (l k : list string) :
  before x y l → before x y (l ++ k).
Proof.
  intros (i & j & Hi & Hj & Hij). exists i, j.
  repeat split; [by apply lookup_app_l_Some..|done].
Qed.

Lemma before_snoc (x y : string) (l : list string) :
  x ∈ l → before x y (l ++ [y]).
Proof.
  intros [i Hi]%list_elem_of_lookup. exists i, (length l).
  repeat split.
  - by apply lookup_app_l_Some.
  - by apply list_lookup_middle.
  - by eapply lookup_lt_Some.
Qed.

Lemma ordered_init : NoDup (state_ids self) → ordered tokenize self (ode_algebraic_ids self).
Proof.
  intros Hnd state deps d Hs Ht Hid _ _. exfalso.
  apply ode_algebraic_ids_elem in Hid as (state' & Hs' & Hid' & Ht').
  by rewrite (state_id_inj _ _ Hnd Hs' Hs Hid') in Ht'.
Qed.

Lemma scan_step_ordered (known : list string) (state : State.t) (r : list string) :
  NoDup (state_ids self) → state ∈ states → ordered tokenize self known →
  scan_step' known state = Ok r → ordered tokenize self r.
Proof.
  intros Hnd Hs Hk
    [[-> _]|(deps & Hdeps & Ht & Hid & [[-> _]|[-> Hall]])]%scan_step_inv;
    try done.
  intros state' deps' d Hs' Ht' [Hid'|Hid']%elem_of_app Hdeps' Hd.
  - apply before_app. by eapply Hk.
  - apply list_elem_of_singleton in Hid'.
    rewrite (state_id_inj _ _ Hnd Hs' Hs Hid') in *.
    rewrite Hdeps in Hdeps'. simplify_eq. by apply before_snoc, Hall.
Qed.

(** *** One scan *)

Lemma scan_resolved (known r : list string) :
  resolved self known → scan' known = Ok r → resolved self r.
Proof.
  intros Hk. apply (for_each_r_ind (resolved self)); [done|].
  intros k x k' Hx Hk' Hstep. by eapply scan_step_resolved.
Qed.

Lemma scan_NoDup (known r : list string) :
  NoDup known → scan' known = Ok r → NoDup r.
Proof.
  intros Hk. apply (for_each_r_ind NoDup); [done|].
  intros k x k' Hx Hk' Hstep. by eapply scan_step_NoDup.
Qed.

Lemma scan_ordered (known r : list string) :
  NoDup (state_ids self) → ordered tokenize self known →
  scan' known = Ok r → ordered tokenize self r.
Proof.
  intros Hnd Hk. apply (for_each_r_ind (ordered tokenize self)); [done|].
  intros k x k' Hx Hk' Hstep. by eapply scan_step_ordered.
Qed.

Lemma scan_step_total (known : list string) (state : State.t) :
  tokenizes tokenize self → state ∈ states → ∃ r, scan_step' known state = Ok r.
Proof.
  intros Htok Hs. unfold scan_step.
  case_bool_decide as Ht; cbn [negb]; [|by eexists].
  case_bool_decide; [by eexists|].
  destruct (Htok state Hs Ht) as [g Hg].
  rewrite (get_states_tokens _ _ _ _ Hg), (string2matlab_tokens _ _ _ _ Hg).
  cbn. destruct (forallb _ _); by eexists.
Qed.

Lemma scan_total (known : list string) :
  tokenizes tokenize self → ∃ r, scan' known = Ok r.
Proof.
  intros Htok. unfold scan.
  assert (∀ x, x ∈ states → x ∈ states) as Hin by done. revert Hin.
  generalize states at 1 3. intros l. revert known.
  induction l as [|x l IH]; intros known Hin; [by eexists|].
  destruct (scan_step_total known x Htok) as [r1 Hr1]; [apply Hin; left|].
  destruct (IH r1) as [r Hr]; [intros y Hy; apply Hin; by right|].
  exists r. cbn [for_each_r]. by rewrite Hr1.
Qed.

(** A scan that adds nothing found every unresolved ASSIGMENT state waiting
    for an unresolved reference. *)
Lemma scan_stuck_list (l : list State.t) (known : list string) (state : State.t) :
  for_each_r scan_step' known l = Ok known →
  state ∈ l → State.type state = ASSIGMENT → State.id state ∉ known →
  ∃ deps d, get_states' (State.equation state) = Ok deps ∧ d ∈ deps ∧ d ∉ known.
Proof.
  induction l as [|x l IH]; [by intros _ ?%elem_of_nil|].
  intros (r1 & Hstep & Hrest)%for_each_r_cons_inv.
  assert (r1 = known) as ->.
  { apply (anti_symm prefix); [by eapply scan_prefix_list | by eapply scan_step_prefix]. }
  intros [->|Hin]%elem_of_cons Ht Hid; [|by apply IH].
  apply scan_step_inv in Hstep
    as [[_ [?|?]]|(deps & Hdeps & _ & _ & [[_ (d & Hd & Hnd)]|[Heq _]])];
    try done.
  - by exists deps, d.
  - apply (f_equal length) in Heq. rewrite length_app in Heq. simpl in Heq. lia.
Qed.

Lemma resolved_length (known : list string) :
  resolved self known → NoDup known → length known ≤ length states.
Proof.
  intros Hk Hnd. rewrite <- (length_fmap State.id states).
  apply submseteq_length, NoDup_submseteq; [done|].
  intros x. by apply resolved_known.
Qed.

(** With a state left to resolve and no cycle, a scan resolves one. *)
Lemma scan_progress (known r : list string) :
  NoDup (state_ids self) → ¬ cyclic tokenize self →
  resolved self known → NoDup known →
  length known ≠ length states →
  scan' known = Ok r → length known < length r.
Proof.
  intros Hids Hacyclic Hk Hnd Hlen Hscan.
  destruct (scan_added_list _ _ _ Hscan) as (added & -> & _).
  destruct added as [|a added]; [|rewrite length_app; simpl; lia].
  rewrite app_nil_r in Hscan. exfalso. apply Hacyclic.
  set (U := filter (λ x, x ∉ known) (state_ids self)).
  apply (no_sink_cycle (length U) depends' U); [done| |].
  - intros HU. apply Hlen, Nat.le_antisymm; [by apply resolved_length|].
    rewrite <- (length_fmap State.id states).
    apply submseteq_length, NoDup_submseteq; [done|].
    intros x Hx. destruct (decide (x ∈ known)) as [|Hn]; [done|].
    assert (x ∈ U) as HxU by by apply list_elem_of_filter.
    rewrite HU in HxU. by apply elem_of_nil in HxU.
  - intros x [Hx Hxid]%list_elem_of_filter.
    apply list_elem_of_fmap in Hxid as (state & -> & Hs).
    assert (State.type state = ASSIGMENT) as Ht.
    { destruct (decide (State.type state = ASSIGMENT)) as [|Hn]; [done|].
      exfalso. apply Hx. destruct Hk as (tail & -> & _).
      apply elem_of_app. left. apply ode_algebraic_ids_elem. eauto. }
    destruct (scan_stuck_list _ _ _ Hscan Hs Ht Hx) as (deps & d & Hdeps & Hd & Hnd').
    exists d. split.
    + apply list_elem_of_filter. split; [done|]. by eapply get_states_known.
    + exists state, deps. done.
Qed.

(** *** The loop *)

Lemma resolve_unfold (fuel : nat) (known : list string) :
  resolve tokenize (S fuel) self known
  = if bool_decide (length known = length states) then Ok known
    else scan' known ≫= resolve tokenize fuel self.
Proof. unfold resolve. cbn [while_r]. by case_bool_decide. Qed.

Lemma resolve_0 (known : list string) :
  resolve tokenize 0 self known
  = if bool_decide (length known = length states) then Ok known else Timeout.
Proof. unfold resolve. cbn [while_r]. by case_bool_decide. Qed.

(** The loop keeps the shape of [known_states]: ODE and ALGEBRAIC ids first. *)
Lemma resolve_resolved (fuel : nat) (known r : list string) :
  resolved self known → resolve tokenize fuel self known = Ok r → resolved self r.
Proof.
  intros Hk Hr. unfold resolve in Hr.
  apply (while_r_ind (resolved self)) in Hr as [Hr _]; [done..|].
  intros k k' Hk' _. by apply scan_resolved.
Qed.

(** Without a cycle the loop ends within as many scans as states are left,
    with every state resolved after its references. *)
Lemma resolve_terminates (fuel : nat) (known : list string) :
  NoDup (state_ids self) → tokenizes tokenize self → ¬ cyclic tokenize self →
  resolved self known → NoDup known → ordered tokenize self known →
  length states - length known ≤ fuel →
  ∃ r, resolve tokenize fuel self known = Ok r
       ∧ resolved self r ∧ NoDup r ∧ ordered tokenize self r
       ∧ length r = length states.
Proof.
  intros Hids Htok Hacyclic. revert known.
  induction fuel as [|fuel IH]; intros known Hk Hnd Hord Hfuel.
  - exists known. rewrite resolve_0.
    pose proof (resolved_length _ Hk Hnd).
    rewrite bool_decide_eq_true_2 by lia. repeat split; try done. lia.
  - rewrite resolve_unfold. case_bool_decide as Hlen; [by exists known|].
    destruct (scan_total known Htok) as [r1 Hr1]. rewrite Hr1. cbn.
    apply IH.
    + by eapply scan_resolved.
    + by eapply scan_NoDup.
    + by eapply scan_ordered.
    + pose proof (scan_progress _ _ Hids Hacyclic Hk Hnd Hlen Hr1). lia.
Qed.

(** On a cycle nothing is ever resolved, and the loop has no other exit. *)
Lemma scan_step_off_cycle (known : list string) (state : State.t) (r : list string) :
  NoDup (state_ids self) → state ∈ states →
  (∀ y, tc depends' y y → y ∉ known) →
  scan_step' known state = Ok r →
  ∀ y, tc depends' y y → y ∉ r.
Proof.
  intros Hnd Hs Hk
    [[-> _]|(deps & Hdeps & Ht & Hid & [[-> _]|[-> Hall]])]%scan_step_inv;
    try done.
  intros y Hy [Hin|Heq%list_elem_of_singleton]%elem_of_app; [by eapply Hk|].
  subst y.
  destruct (cycle_successor _ _ Hy) as (z & Hyz & Hz).
  destruct Hyz as (state' & deps' & Hs' & Ht' & Hid' & Hdeps' & Hin).
  rewrite (state_id_inj _ _ Hnd Hs' Hs Hid') in *.
  rewrite Hdeps in Hdeps'. simplify_eq. by eapply Hk, Hall.
Qed.

Lemma resolve_cyclic (fuel : nat) (known : list string) :
  NoDup (state_ids self) → tokenizes tokenize self → cyclic tokenize self →
  resolved self known → NoDup known →
  (∀ y, tc depends' y y → y ∉ known) →
  resolve tokenize fuel self known = Timeout.
Proof.
  intros Hids Htok [x Hx]. revert known.
  assert (x ∈ state_ids self) as Hxid.
  { destruct (cycle_successor _ _ Hx) as (_ & (state & _ & Hs & _ & <- & _) & _).
    by apply state_id_elem. }
  assert (∀ known, resolved self known → NoDup known →
            (∀ y, tc depends' y y → y ∉ known) →
            length known ≠ length states) as Hlen.
  { intros known Hk Hnd Hoff Hlen.
    assert (x :: known ⊆+ state_ids self) as Hsub.
    { apply NoDup_submseteq.
      - apply NoDup_cons. split; [by apply Hoff | done].
      - intros y [->|Hy]%elem_of_cons; [done | by eapply resolved_known]. }
    apply submseteq_length in Hsub. unfold state_ids in Hsub.
    rewrite length_fmap in Hsub. simpl in Hsub. lia. }
  induction fuel as [|fuel IH]; intros known Hk Hnd Hoff.
  - rewrite resolve_0. by rewrite bool_decide_eq_false_2 by by apply Hlen.
  - rewrite resolve_unfold. rewrite bool_decide_eq_false_2 by by apply Hlen.
    destruct (scan_total known Htok) as [r1 Hr1]. rewrite Hr1. cbn.
    apply IH.
    + by eapply scan_resolved.
    + by eapply scan_NoDup.
    + revert Hr1. unfold scan.
      apply (for_each_r_ind (λ k, ∀ y, tc depends' y y → y ∉ k)); [done|].
      intros k s k' Hs Hk' Hstep. by eapply scan_step_off_cycle.
Qed.

Lemma ode_algebraic_ids_NoDup :
  NoDup (state_ids self) → NoDup (ode_algebraic_ids self).
Proof.
  unfold state_ids, ode_algebraic_ids. intros Hnd.
  eapply sublist_NoDup; [done|]. apply fmap_sublist, sublist_filter.
Qed.

Lemma ode_algebraic_ids_off_cycle (y : string) :
  NoDup (state_ids self) → tc depends' y y → y ∉ ode_algebraic_ids self.
Proof.
  intros Hnd Hy (state' & Hs' & Hid' & Ht')%ode_algebraic_ids_elem.
  destruct (cycle_successor _ _ Hy) as (_ & (state & _ & Hs & Ht & Hid & _) & _).
  rewrite <- Hid in Hid'.
  by rewrite (state_id_inj _ _ Hnd Hs' Hs Hid') in Ht'.
Qed.

End Order.

(** ** The resolver: what [write_local_states] guarantees *)


(** The ids of the example models are distinct and their equations pass the
    tokenizer. *)
Lemma chain_model_NoDup : NoDup (state_ids chain_model).
Proof. compute_done. Qed.

Lemma chain_model_tokenizes : tokenizes Py.tokenize chain_model.
Proof.
  intros s Hs _. cbn in Hs.
  repeat (apply elem_of_cons in Hs as [->|Hs]; [by eexists|]).
  by apply elem_of_nil in Hs.
Qed.

Lemma chain_model_depends (x y : string) :
  depends Py.tokenize chain_model x y →
  (x = "a2" ∧ y = "a1") ∨ (x = "a1" ∧ y = "v1").
Proof.
  intros (s & deps & Hs & Ht & <- & Hdeps & Hy). cbn in Hs.
  repeat (apply elem_of_cons in Hs as [->|Hs];
    [vm_compute in Hdeps; try discriminate; simplify_eq;
     apply list_elem_of_singleton in Hy; auto|]).
  by apply elem_of_nil in Hs.
Qed.

Lemma chain_model_acyclic : ¬ cyclic Py.tokenize chain_model.
Proof.
  intros [x Hx]. revert Hx.
  apply (ranked_acyclic _ (λ x, if bool_decide (x = "a2") then 2
                                else if bool_decide (x = "a1") then 1 else 0)).
  intros a b [[-> ->]|[-> ->]]%chain_model_depends; vm_compute; lia.
Qed.

Lemma cyclic_model_NoDup : NoDup (state_ids cyclic_model).
Proof. compute_done. Qed.

Lemma cyclic_model_tokenizes : tokenizes Py.tokenize cyclic_model.
Proof.
  intros s Hs _. cbn in Hs.
  repeat (apply elem_of_cons in Hs as [->|Hs]; [by eexists|]).
  by apply elem_of_nil in Hs.
Qed.

Lemma cyclic_model_cyclic : cyclic Py.tokenize cyclic_model.
Proof.
  exists "A". apply tc_l with "B"; [|apply tc_once].
  - exists (state "A" ASSIGMENT "B"), ["B"]. repeat split; [left|left].
  - exists (state "B" ASSIGMENT "A"), ["A"]. repeat split; [right; left|left].
Qed.

Lemma fresh_open : is_open 0 [fresh].
Proof. by exists "out.m", "". Qed.

(** C1 fails on the code: for the states [A = B], [B = A] no bound on the
    loop lets [write_local_states] end, with an error or otherwise. *)
Lemma cyclic_model_never_ends :
  ¬ ∃ fuel, (write_local_states Py.tokenize fuel cyclic_model 0 [fresh]).1 ≠ Timeout.
Proof.
  intros [fuel Hend]. apply Hend. clear Hend.
  rewrite (pure_on_fst _ _ _ _
             (write_local_states_pure Py.tokenize cyclic_model fuel 0) fresh_open).
  unfold order. change (ode_algebraic_ids cyclic_model) with (@nil string).
  assert (scan Py.tokenize cyclic_model [] = Ok []) as Hscan by by vm_compute.
  induction fuel as [|fuel IH].
  - by vm_compute.
  - rewrite resolve_unfold, Hscan. exact IH.
Qed.

(** C2: on a model with unique state ids whose equations pass the tokenizer
    and whose assignment-state reference graph has no cycle,
    [write_local_states] ends within one scan per state; the order it wrote
    the states in is a permutation of the state ids, each exactly once, and
    every ASSIGMENT state comes strictly after every state its equation
    references. *)
Theorem write_local_states_topological
    (tokenize : string → exn + list TokenInfo) (self : Matlab)
    (f : handle) (w : world) (fuel : nat) :
  NoDup (state_ids self) → tokenizes tokenize self → ¬ cyclic tokenize self →
  is_open f w → length (dae_model.get_states (dae self)) ≤ fuel →
  ∃ order,
    (write_local_states tokenize fuel self f w).1 = Ok order
    ∧ order ≡ₚ state_ids self
    ∧ NoDup order
    ∧ ∀ state dependencies d,
        state ∈ dae_model.get_states (dae self) →
        State.type state = ASSIGMENT →
        get_states tokenize self (State.equation state) = Ok dependencies →
        d ∈ dependencies →
        before d (State.id state) order.
Proof.
  intros Hids Htok Hacyclic Hw Hfuel.
  rewrite (pure_on_fst _ _ _ _ (write_local_states_pure tokenize self fuel f) Hw).
  unfold order.
  destruct (resolve_terminates tokenize self fuel (ode_algebraic_ids self))
    as (r & Hr & Hres & Hnd & Hord & Hlen); try done.
  - apply resolved_init.
  - by apply ode_algebraic_ids_NoDup.
  - by apply ordered_init.
  - lia.
  - assert (r ≡ₚ state_ids self) as Hperm.
    { apply submseteq_length_Permutation.
      - apply NoDup_submseteq; [done|]. intros x. by apply resolved_known.
      - unfold state_ids. rewrite length_fmap. lia. }
    exists r. repeat split; try done.
    intros state deps d Hs Ht Hdeps Hd. eapply Hord; try done.
    rewrite Hperm. by apply state_id_elem.
Qed.

Lemma write_local_states_topological_witness :
  ∃ order,
    (write_local_states Py.tokenize 3 chain_model 0 [fresh]).1 = Ok order
    ∧ order ≡ₚ state_ids chain_model
    ∧ NoDup order
    ∧ ∀ state dependencies d,
        state ∈ dae_model.get_states (dae chain_model) →
        State.type state = ASSIGMENT →
        get_states Py.tokenize chain_model (State.equation state) = Ok dependencies →
        d ∈ dependencies →
        before d (State.id state) order.
Proof.
  apply write_local_states_topological.
  - exact chain_model_NoDup.
  - exact chain_model_tokenizes.
  - exact chain_model_acyclic.
  - exact fresh_open.
  - vm_compute. lia.
Defined.

(** The scenario of the spec: [a2] waits for [a1], which waits for [v1]. *)
Example chain_model_order :
  (write_local_states Py.tokenize 3 chain_model 0 [fresh]).1 = Ok ["v1"; "a1"; "a2"].
Proof. by vm_compute. Qed.

(** C9: in the order [write_local_states] wrote the states in, the ids of
    the ODE and ALGEBRAIC states come first, in declaration order, and
    everything after them is the id of an ASSIGMENT state; nothing is assumed
    of the model. *)
Theorem write_local_states_ode_algebraic_first
    (tokenize : string → exn + list TokenInfo) (self : Matlab)
    (f : handle) (w : world) (fuel : nat) (written : list string) :
  (write_local_states tokenize fuel self f w).1 = Ok written →
  ∃ tail,
    written = ode_algebraic_ids self ++ tail
    ∧ Forall (λ x, x ∈ assigment_ids self) tail.
Proof.
  intros Horder%write_local_states_order. unfold order in Horder.
  eapply resolve_resolved; [|exact Horder]. apply resolved_init.
Qed.

Lemma write_local_states_ode_algebraic_first_witness :
  ∃ tail,
    ["v1"; "a1"; "a2"] = ode_algebraic_ids chain_model ++ tail
    ∧ Forall (λ x, x ∈ assigment_ids chain_model) tail.
Proof.
  apply (write_local_states_ode_algebraic_first Py.tokenize chain_model 0 [fresh] 3).
  by vm_compute.
Defined.




(** One scan resolves [b], [a] and [c], in the order they are declared. *)
Example tie_model_scan :
  (write_assigment_scan Py.tokenize tie_model 0 ["v"] [fresh]).1
  = Ok ["v"; "b"; "a"; "c"].
Proof. by vm_compute. Qed.

(** ** The translator and the extractor: what they return *)

(** C3: whenever the tokenizer accepts a formula, [string2matlab] returns the
    concatenation, in token order and with nothing in between, of each token
    of the formula rewritten on its own by [translate_token]: a name that is a
    parameter id becomes [p.<name>], [*], [/] and [^] get a leading [.], [+]
    and [-] get one space on each side, any other token is copied; so
    [a*b+c] with parameter [a] becomes [p.a.*b + c]. *)
Theorem string2matlab_rewrites_tokens :
  (∀ (tokenize : string → exn + list TokenInfo) (self : Matlab)
     (math_expr : string) (g : list TokenInfo),
      tokenize math_expr = inr g →
      string2matlab tokenize self math_expr
      = Ok (String.concat ""
              (translate_token (parameter_ids self) <$> formula_tokens g)))
  ∧ string2matlab Py.tokenize a_model "a*b+c" = Ok "p.a.*b + c".
Proof.
  split; [|by vm_compute].
  intros tokenize self math_expr g Hg. by apply string2matlab_tokens.
Qed.

Lemma string2matlab_rewrites_tokens_witness :
  string2matlab Py.tokenize a_model "a*b+c"
  = Ok (String.concat ""
          (translate_token ["a"] <$>
             formula_tokens
               [Token ENCODING "utf-8"; Token NAME "a"; Token OP "*";
                Token NAME "b"; Token OP "+"; Token NAME "c";
                Token NEWLINE ""; Token ENDMARKER ""])).
Proof.
  apply (proj1 string2matlab_rewrites_tokens Py.tokenize a_model).
  by vm_compute.
Defined.

(** C4: whenever the tokenizer accepts a formula, [get_states] returns the
    strings of exactly those tokens that are names and state ids, in token
    order and with repeats kept; so [x + 2*y - z] over the states [x], [y],
    [z], [w] gives [x], [y], [z], and [x*x] gives [x] twice. *)
Theorem get_states_references :
  (∀ (tokenize : string → exn + list TokenInfo) (self : Matlab)
     (math_expr : string) (g : list TokenInfo),
      tokenize math_expr = inr g →
      get_states tokenize self math_expr
      = Ok (tok_string <$>
              filter (λ t, tok_type t = NAME ∧ tok_string t ∈ state_ids self) g))
  ∧ get_states Py.tokenize xyzw_model "x + 2*y - z" = Ok ["x"; "y"; "z"]
  ∧ get_states Py.tokenize xyzw_model "x*x" = Ok ["x"; "x"].
Proof.
  split; [|by vm_compute].
  intros tokenize self math_expr g Hg. by apply get_states_tokens.
Qed.

Lemma get_states_references_witness :
  get_states Py.tokenize xyzw_model "x + 2*y - z"
  = Ok (tok_string <$>
          filter (λ t, tok_type t = NAME ∧ tok_string t ∈ state_ids xyzw_model)
            [Token ENCODING "utf-8"; Token NAME "x"; Token OP "+";
             Token NUMBER "2"; Token OP "*"; Token NAME "y"; Token OP "-";
             Token NAME "z"; Token NEWLINE ""; Token ENDMARKER ""]).
Proof.
  apply (proj1 get_states_references Py.tokenize xyzw_model).
  by vm_compute.
Defined.

(** C10: a name token that is a parameter id is written [p.<name>] whatever
    stands before and after it, also when an opening bracket follows: the
    tokens before and after are translated on their own; so [f(x)] with
    parameter [f] becomes [p.f(x)]. *)
Theorem string2matlab_namespaces_call_head :
  (∀ (tokenize : string → exn + list TokenInfo) (self : Matlab)
     (math_expr f : string) (g1 g2 : list TokenInfo),
      f ∈ parameter_ids self →
      tokenize math_expr = inr (g1 ++ Token NAME f :: g2) →
      string2matlab tokenize self math_expr
      = Ok (translate_tokens (parameter_ids self) g1 +:+ "p." +:+ f
            +:+ translate_tokens (parameter_ids self) g2))
  ∧ string2matlab Py.tokenize f_model "f(x)" = Ok "p.f(x)".
Proof.
  split; [|by vm_compute].
  intros tokenize self math_expr f g1 g2 Hf Hg.
  rewrite (string2matlab_tokens _ _ _ _ Hg).
  rewrite translate_tokens_app, translate_tokens_cons. cbn [tok_type].
  rewrite bool_decide_eq_false_2 by done. unfold translate_token.
  cbn [tok_type tok_string]. rewrite bool_decide_eq_true_2 by done.
  by rewrite append_assoc.
Qed.

Lemma string2matlab_namespaces_call_head_witness :
  string2matlab Py.tokenize f_model "f(x)"
  = Ok (translate_tokens (parameter_ids f_model) [Token ENCODING "utf-8"]
        +:+ "p." +:+ "f"
        +:+ translate_tokens (parameter_ids f_model)
              [Token OP "("; Token NAME "x"; Token OP ")"; Token NEWLINE "";
               Token ENDMARKER ""]).
Proof.
  apply (proj1 string2matlab_namespaces_call_head Py.tokenize f_model "f(x)" "f"
           [Token ENCODING "utf-8"]).
  - compute_done.
  - by vm_compute.
Defined.

(** C5, as the code has it: a name in an equation that is neither a
    parameter id nor a state id is no reference: [get_states] leaves it out,
    so the resolver never waits for it, and [string2matlab] copies it as it
    stands between the translations of the tokens around it; neither
    raises. *)
Theorem unknown_identifier_passes_through
    (tokenize : string → exn + list TokenInfo) (self : Matlab)
    (math_expr q : string) (g1 g2 : list TokenInfo) :
  q ∉ parameter_ids self → q ∉ state_ids self →
  tokenize math_expr = inr (g1 ++ Token NAME q :: g2) →
  (∃ dependencies,
      get_states tokenize self math_expr = Ok dependencies ∧ q ∉ dependencies)
  ∧ string2matlab tokenize self math_expr
    = Ok (translate_tokens (parameter_ids self) g1 +:+ q
          +:+ translate_tokens (parameter_ids self) g2).
Proof.
  intros Hp Hs Hg. split.
  - eexists. split; [by apply get_states_tokens|].
    intros Hq. by apply reference_tokens_known in Hq.
  - rewrite (string2matlab_tokens _ _ _ _ Hg).
    rewrite translate_tokens_app, translate_tokens_cons. cbn [tok_type].
    rewrite bool_decide_eq_false_2 by done. unfold translate_token.
    cbn [tok_type tok_string]. by rewrite bool_decide_eq_false_2 by done.
Qed.

Lemma unknown_identifier_passes_through_witness :
  (∃ dependencies,
      get_states Py.tokenize unknown_model "q+1" = Ok dependencies
      ∧ "q" ∉ dependencies)
  ∧ string2matlab Py.tokenize unknown_model "q+1"
    = Ok (translate_tokens (parameter_ids unknown_model) [Token ENCODING "utf-8"]
          +:+ "q"
          +:+ translate_tokens (parameter_ids unknown_model)
                [Token OP "+"; Token NUMBER "1"; Token NEWLINE "";
                 Token ENDMARKER ""]).
Proof.
  apply (unknown_identifier_passes_through Py.tokenize unknown_model "q+1" "q"
           [Token ENCODING "utf-8"]).
  - compute_done.
  - compute_done.
  - by vm_compute.
Defined.

(** C5 fails on the code: the model whose only state is [a = q+1], with [q]
    unknown, is exported without an error, and the line written for [a]
    carries [q]. *)
Lemma unknown_model_is_exported :
  (export_class Py.tokenize 1 unknown_model []).1 = Ok "out/unknown.m"
  ∧ write_local_states Py.tokenize 1 unknown_model 0 [fresh]
    = (Ok ["a"],
       [File "out.m"
          (tabs 3 +:+ "% ODE and algebraic states:" +:+ nl +:+ nl
           +:+ tabs 3 +:+ "% Assigment states:" +:+ nl
           +:+ tabs 3 +:+ "a = q + 1;" +:+ nl +:+ nl)
          false]).
Proof. split; by vm_compute. Qed.

(** ** The export calls and their file *)

Lemma never_ok_bind_l {A B} (f : handle) (m : M A) (k : A → M B) :
  never_ok f m → never_ok f (m ≫= k).
Proof.
  intros Hm w b w' Hw. unfold mbind, M_bind.
  destruct (m w) as [[a|e|] w1] eqn:Hm1; [|done..].
  by destruct (Hm w a w1 Hw).
Qed.

Lemma never_ok_bind_r {A B} (f : handle) (m : M A) (k : A → M B) :
  keeps_open f m → (∀ a, never_ok f (k a)) → never_ok f (m ≫= k).
Proof.
  intros Hm Hk w b w' Hw. unfold mbind, M_bind.
  destruct (m w) as [[a|e|] w1] eqn:Hm1; [|done..].
  apply Hk. by eapply Hm.
Qed.

Lemma never_ok_pure {A} (f : handle) (m : M A) (r : result A) :
  pure_on f m r → (∀ a, r ≠ Ok a) → never_ok f m.
Proof.
  intros Hm Hr w a w' Hw Hmw. destruct (Hm w Hw) as (w1 & Hm1 & _).
  rewrite Hm1 in Hmw. simplify_eq. by eapply Hr.
Qed.

Lemma never_ok_for_each {A S} (f : handle) (body : S → A → M S)
    (l : list A) (x : A) :
  x ∈ l → (∀ s, never_ok f (body s x)) → (∀ s y, keeps_open f (body s y)) →
  ∀ s, never_ok f (for_each body s l).
Proof.
  intros Hx Hbad Hbody. induction l as [|y l IH]; [by apply elem_of_nil in Hx|].
  intros s. cbn [for_each]. apply elem_of_cons in Hx as [->|Hx].
  - by apply never_ok_bind_l.
  - apply never_ok_bind_r; [done|]. intros s'. by apply IH.
Qed.

Lemma released_on_return_bind {A B} (f : handle) (m : M A) (k : A → M B) :
  keeps_open f m → (∀ a, released_on_return f (k a)) →
  released_on_return f (m ≫= k).
Proof.
  intros Hm Hk w r w' Hw. unfold mbind, M_bind.
  destruct (m w) as [[a|e|] w1] eqn:Hm1.
  - apply Hk. by eapply Hm.
  - intros [= <- <-]. by eapply Hm.
  - intros [= <- <-]. by eapply Hm.
Qed.

Lemma released_on_return_close {A} (f : handle) (a : A) :
  released_on_return f (close f;; mret a).
Proof.
  intros w r w' (p & t & Hf). unfold mbind, M_bind, close. rewrite Hf.
  intros [= <- <-]. exists p, t.
  apply list_lookup_insert_eq. by eapply lookup_lt_Some.
Qed.

Lemma returns_closed_bind {A B} (f : handle) (m : M A) (k : A → M B) (a : A) (b : B) :
  pure_on f m (Ok a) → returns_closed f (k a) b → returns_closed f (m ≫= k) b.
Proof.
  intros Hm Hk w Hw. destruct (Hm w Hw) as (w1 & Hm1 & Hw1).
  unfold mbind, M_bind. rewrite Hm1. apply Hk. by eapply appends_open.
Qed.

Lemma returns_closed_close {A} (f : handle) (a : A) :
  returns_closed f (close f;; mret a) a.
Proof.
  intros w (p & t & Hf). unfold mbind, M_bind, close. rewrite Hf.
  eexists. split; [done|]. exists p, t.
  apply list_lookup_insert_eq. by eapply lookup_lt_Some.
Qed.

Lemma open_is_open (filepath : string) (w : world) :
  open filepath w = (Ok (length w), w ++ [File filepath "" false])
  ∧ is_open (length w) (w ++ [File filepath "" false]).
Proof.
  split; [done|]. exists filepath, "". by apply list_lookup_middle.
Qed.

Lemma bind_open {B} (filepath : string) (k : handle → M B) (w : world) :
  (open filepath ≫= k) w = k (length w) (w ++ [File filepath "" false]).
Proof. reflexivity. Qed.

Section Emitter.

Variable tokenize : string → exn + list TokenInfo.
Variable self : Matlab.
Variable f : handle.

Local Abbreviation states := (dae_model.get_states (dae self)).

Lemma write_warning_keeps_open (n : nat) : keeps_open f (write_warning self f n).
Proof. unfold write_warning. keeps_open. Qed.

Lemma write_warning_pure (n : nat) : pure_on f (write_warning self f n) (Ok ()).
Proof.
  unfold write_warning.
  repeat (eapply pure_on_seq; [apply pure_on_write|]). apply pure_on_write.
Qed.

Lemma write_class_header_keeps_open : keeps_open f (write_class_header self f).
Proof. unfold write_class_header. keeps_open. Qed.

Lemma write_constructor_keeps_open : keeps_open f (write_constructor self f).
Proof. unfold write_constructor. keeps_open. Qed.

Lemma write_default_parameters_keeps_open :
  keeps_open f (write_default_parameters self f).
Proof. unfold write_default_parameters. keeps_open. Qed.

Lemma write_initial_conditions_keeps_open :
  keeps_open f (write_initial_conditions self f).
Proof. unfold write_initial_conditions. keeps_open. Qed.

Lemma write_mass_matrix_keeps_open : keeps_open f (write_mass_matrix self f).
Proof. unfold write_mass_matrix. keeps_open. Qed.

Lemma write_simulation_options_keeps_open :
  keeps_open f (write_simulation_options self f).
Proof. unfold write_simulation_options. keeps_open. Qed.

Lemma write_local_states_keeps_open (fuel : nat) :
  keeps_open f (write_local_states tokenize fuel self f).
Proof.
  unfold write_local_states, write_ode_algebraic_states, write_assigment_scan.
  keeps_open.
Qed.

Lemma write_ode_keeps_open (fuel : nat) : keeps_open f (write_ode tokenize fuel self f).
Proof. unfold write_ode. keeps_open. Qed.

Lemma write_simout_2_struct_keeps_open (fuel : nat) :
  keeps_open f (write_simout_2_struct tokenize fuel self f).
Proof.
  unfold write_simout_2_struct. keeps_open.
Qed.

Lemma write_plot_keeps_open : keeps_open f (write_plot self f).
Proof. unfold write_plot. keeps_open. Qed.

End Emitter.

(** ** A formula the tokenizer rejects *)

Section Abort.

Variable tokenize : string → exn + list TokenInfo.
Variable self : Matlab.

Local Abbreviation states := (dae_model.get_states (dae self)).

Lemma length_states_split (l : list State.t) :
  length l = length (filter is_ode_algebraic l) + length (filter is_assigment l).
Proof.
  induction l as [|state l IH]; [done|].
  destruct (State.type state) eqn:Ht.
  1, 2: rewrite (filter_cons_True is_ode_algebraic),
          (filter_cons_False is_assigment); [simpl; lia|..].
  5: rewrite (filter_cons_False is_ode_algebraic),
       (filter_cons_True is_assigment); [simpl; lia|..].
  all: unfold is_ode_algebraic, is_assigment; rewrite Ht;
    first [compute_done | vm_compute; tauto].
Qed.

Lemma scan_step_appended_tokenized (known : list string) (state : State.t)
    (r : list string) :
  state ∈ states → appended_tokenized tokenize self known →
  scan_step tokenize self known state = Ok r → appended_tokenized tokenize self r.
Proof.
  intros Hs Hk
    [[-> _]|(deps & Hdeps & Ht & Hid & [[-> _]|[-> _]])]%scan_step_inv;
    try done.
  destruct Hk as (tail & -> & Hnd & Htail). exists (tail ++ [State.id state]).
  split; [by rewrite app_assoc|]. split.
  - apply NoDup_app. repeat split; [done| |apply NoDup_singleton].
    intros x Hx ->%list_elem_of_singleton. apply Hid, elem_of_app. by right.
  - apply Forall_app. split; [done|]. apply Forall_singleton.
    unfold tokenized_ids. apply list_elem_of_fmap_2, list_elem_of_filter. split.
    + unfold is_tokenized. destruct (tokenize (State.equation state)) eqn:Hg; [|done].
      by rewrite (get_states_raise _ _ _ _ Hg) in Hdeps.
    + apply list_elem_of_filter. split; [|done]. by apply bool_decide_pack.
Qed.

(** When the loop ends, every ASSIGMENT equation has passed the tokenizer. *)
Lemma order_tokenized (fuel : nat) (r : list string) (state : State.t) :
  order tokenize fuel self = Ok r →
  state ∈ states → State.type state = ASSIGMENT →
  ∃ g, tokenize (State.equation state) = inr g.
Proof.
  intros Hr Hs Ht. unfold order, resolve in Hr.
  apply (while_r_ind (appended_tokenized tokenize self)) in Hr as [(tail & -> & Hnd & Htail) Hlen].
  - apply negb_false_iff, bool_decide_eq_true in Hlen.
    destruct (tokenize (State.equation state)) as [e|g] eqn:Hg; [|by eexists].
    exfalso. rewrite length_app, (length_states_split states) in Hlen.
    unfold ode_algebraic_ids in Hlen. rewrite length_fmap in Hlen.
    assert (length tail ≤ length (tokenized_ids tokenize self)) as Hle.
    { apply submseteq_length, NoDup_submseteq; [done|].
      by apply Forall_forall. }
    unfold tokenized_ids in Hle. rewrite length_fmap in Hle.
    assert (length (filter (is_tokenized tokenize) (filter is_assigment states))
            < length (filter is_assigment states)); [|lia].
    apply length_filter_lt with state.
    + apply list_elem_of_filter. split; [|done]. by apply bool_decide_pack.
    + unfold is_tokenized. rewrite Hg. intros [].
  - exists []. rewrite app_nil_r. repeat split; [apply NoDup_nil_2 | done].
  - intros k k' Hk _. unfold scan.
    apply (for_each_r_ind (appended_tokenized tokenize self)); [done|].
    intros k1 x k2 Hx Hk1 Hstep. by eapply scan_step_appended_tokenized.
Qed.

Lemma never_ok_lift {A} (f : handle) (r : result A) :
  (∀ a, r ≠ Ok a) → never_ok f (lift r).
Proof. intros Hr w a w' _ [= ? _]. by eapply Hr. Qed.

(** [write_ode] does not return when some equation is rejected: the resolver
    hits it if it belongs to an ASSIGMENT state, the loop over the ODE and
    ALGEBRAIC states does otherwise. *)
Lemma write_ode_never_ok (f : handle) (fuel : nat) (state : State.t) (e : exn) :
  state ∈ states → tokenize (State.equation state) = inl e →
  never_ok f (write_ode tokenize fuel self f).
Proof.
  intros Hs He. unfold write_ode.
  do 11 (apply never_ok_bind_r; [apply keeps_open_write | intros _]).
  destruct (decide (State.type state = ASSIGMENT)) as [Ht|Ht].
  - apply never_ok_bind_l.
    apply (never_ok_pure _ _ _ (write_local_states_pure tokenize self fuel f)).
    intros r Hr. destruct (order_tokenized _ _ _ Hr Hs Ht) as [g Hg]. congruence.
  - apply never_ok_bind_r; [apply write_local_states_keeps_open | intros _].
    apply never_ok_bind_l. apply never_ok_for_each with state; [done| |].
    + intros i. rewrite (string2matlab_raise _ _ _ _ He).
      destruct (State.type state); [| |done];
        repeat case_bool_decide; try done;
        apply never_ok_bind_l, never_ok_lift; done.
    + intros. keeps_open.
Qed.

Lemma export_class_never_ok (fuel : nat) (state : State.t) (e : exn) (w : world) :
  state ∈ states → tokenize (State.equation state) = inl e →
  ¬ ∃ filepath, (export_class tokenize fuel self w).1 = Ok filepath.
Proof.
  intros Hs He [filepath Hok]. unfold export_class in Hok. cbv zeta in Hok.
  rewrite bind_open in Hok.
  match type of Hok with
  | (?m ?w1).1 = _ => destruct (m w1) as [r w'] eqn:Hrun
  end.
  simpl in Hok. subst r. revert Hrun.
  assert (∀ {A} (m : M A) w1 a w', never_ok (length w) m → is_open (length w) w1 →
            m w1 ≠ (Ok a, w')) as Hnever by (intros A m w1 a w2 Hm; apply Hm).
  apply Hnever; [|apply open_is_open].
  apply never_ok_bind_r; [apply write_class_header_keeps_open | intros _].
  apply never_ok_bind_r; [apply write_constructor_keeps_open | intros _].
  apply never_ok_bind_r; [apply write_default_parameters_keeps_open | intros _].
  apply never_ok_bind_r; [apply write_initial_conditions_keeps_open | intros _].
  apply never_ok_bind_r; [apply write_mass_matrix_keeps_open | intros _].
  apply never_ok_bind_r; [apply write_simulation_options_keeps_open | intros _].
  apply never_ok_bind_l. by eapply write_ode_never_ok.
Qed.

End Abort.

(** C7, as the code has it: when the tokenizer raises on a formula,
    [string2matlab] and [get_states] raise the same exception and return
    nothing, and [export_class] does not return on a model that has such a
    formula as the equation of one of its states; what the tokenizer does not
    reject is not rejected later: a character it yields as an error token is
    copied between the translations of the tokens around it. *)
Theorem tokenizer_error_aborts_export
    (tokenize : string → exn + list TokenInfo) (self : Matlab) :
  (∀ math_expr e,
      tokenize math_expr = inl e →
      string2matlab tokenize self math_expr = Raise e
      ∧ get_states tokenize self math_expr = Raise e)
  ∧ (∀ state e fuel w,
      state ∈ dae_model.get_states (dae self) →
      tokenize (State.equation state) = inl e →
      ¬ ∃ filepath, (export_class tokenize fuel self w).1 = Ok filepath)
  ∧ (∀ math_expr c g1 g2,
      tokenize math_expr = inr (g1 ++ Token ERRORTOKEN c :: g2) →
      string2matlab tokenize self math_expr
      = Ok (translate_tokens (parameter_ids self) g1 +:+ c
            +:+ translate_tokens (parameter_ids self) g2)).
Proof.
  repeat split.
  - by apply string2matlab_raise.
  - by apply get_states_raise.
  - intros state e fuel w Hs He. by eapply export_class_never_ok.
  - intros math_expr c g1 g2 Hg. rewrite (string2matlab_tokens _ _ _ _ Hg).
    by rewrite translate_tokens_app, translate_tokens_cons.
Qed.

Lemma tokenizer_error_aborts_export_witness :
  string2matlab Py.tokenize broken_model "(v"
  = Raise (Exn "TokenError" "EOF in multi-line statement")
  ∧ get_states Py.tokenize broken_model "(v"
    = Raise (Exn "TokenError" "EOF in multi-line statement").
Proof.
  apply (proj1 (tokenizer_error_aborts_export Py.tokenize broken_model)).
  by vm_compute.
Defined.

(** C7 fails on the code: a character outside the formula grammar and a
    malformed number go through the tokenizer, and [string2matlab] and
    [get_states] return as on any other formula. *)
Lemma malformed_formulas_are_translated :
  string2matlab Py.tokenize a_model "a$b" = Ok "p.a$b"
  ∧ string2matlab Py.tokenize a_model "1.2.3" = Ok "1.2.3"
  ∧ get_states Py.tokenize xyzw_model "x$1.2.3" = Ok ["x"].
Proof. repeat split; by vm_compute. Qed.

(** C8, as the code has it: the file an export call opened is closed exactly
    when the call returns: [export_example] always returns and has closed
    its file; [export_class] has closed its file when it returns, and has
    left it open when it ends any other way (the tokenizer raised in the
    translator or the resolver, or the resolver did not come to an end). *)
Theorem export_releases_on_return
    (tokenize : string → exn + list TokenInfo) (self : Matlab) (w : world) :
  (∃ filepath w',
      export_example self w = (Ok filepath, w') ∧ is_closed (length w) w')
  ∧ (∀ fuel r w',
      export_class tokenize fuel self w = (r, w') →
      match r with
      | Ok _ => is_closed (length w) w'
      | _ => is_open (length w) w'
      end).
Proof.
  split.
  - unfold export_example. cbv zeta. rewrite bind_open. eexists.
    assert (∀ {A} (m : M A) a w1, returns_closed (length w) m a →
              is_open (length w) w1 →
              ∃ w', m w1 = (Ok a, w') ∧ is_closed (length w) w') as Hret
      by (intros A m a w1 Hm; apply Hm).
    apply Hret; [|apply open_is_open].
    repeat (eapply returns_closed_bind;
            [first [apply pure_on_write | apply write_warning_pure]|]).
    apply returns_closed_close.
  - intros fuel r w'. unfold export_class. cbv zeta. rewrite bind_open.
    assert (∀ (m : M string) w1, released_on_return (length w) m →
              is_open (length w) w1 → m w1 = (r, w') →
              match r with
              | Ok _ => is_closed (length w) w'
              | _ => is_open (length w) w'
              end) as Hrel by (intros m w1 Hm Hw1; by apply Hm).
    apply Hrel; [|apply open_is_open].
    apply released_on_return_bind; [apply write_class_header_keeps_open | intros _].
    apply released_on_return_bind; [apply write_constructor_keeps_open | intros _].
    apply released_on_return_bind; [apply write_default_parameters_keeps_open | intros _].
    apply released_on_return_bind; [apply write_initial_conditions_keeps_open | intros _].
    apply released_on_return_bind; [apply write_mass_matrix_keeps_open | intros _].
    apply released_on_return_bind; [apply write_simulation_options_keeps_open | intros _].
    apply released_on_return_bind; [apply write_ode_keeps_open | intros _].
    apply released_on_return_bind; [apply write_simout_2_struct_keeps_open | intros _].
    apply released_on_return_bind; [apply write_plot_keeps_open | intros _].
    apply released_on_return_bind; [apply keeps_open_write | intros _].
    apply released_on_return_bind; [apply keeps_open_write | intros _].
    apply released_on_return_close.
Qed.

Lemma export_releases_on_return_witness :
  is_closed 0 (export_class Py.tokenize 3 chain_model []).2.
Proof.
  pose proof (proj2 (export_releases_on_return Py.tokenize chain_model [])
                3 _ _ (surjective_pairing _)) as Hrel.
  assert ((export_class Py.tokenize 3 chain_model []).1 = Ok "out/chain.m") as Hok
    by by vm_compute.
  rewrite Hok in Hrel. exact Hrel.
Defined.

(** C8 fails on the code: on a model with an equation the tokenizer rejects,
    [export_class] ends with the tokenizer's exception and its file is still
    open. *)
Lemma broken_model_leaves_file_open :
  ∃ w',
    export_class Py.tokenize 1 broken_model []
    = (Raise (Exn "TokenError" "EOF in multi-line statement"), w')
    ∧ is_open 0 w'.
Proof.
  destruct (export_class Py.tokenize 1 broken_model []) as [r w'] eqn:Hrun.
  vm_compute in Hrun. injection Hrun as <- <-.
  eexists. split; [reflexivity|]. by eexists _, _.
Qed.

(** * More of the exporter: what the templating methods write *)

(** ** Sequences of writes and their text *)

Lemma emits_ret {A} (f : handle) (a : A) : emits f (mret a) (Ok a) "".
Proof.
  intros w p t Hf. rewrite append_nil_r.
  by rewrite (list_insert_id _ _ _ Hf).
Qed.

Lemma emits_lift {A} (f : handle) (r : result A) : emits f (lift r) r "".
Proof.
  intros w p t Hf. rewrite append_nil_r.
  by rewrite (list_insert_id _ _ _ Hf).
Qed.

Lemma emits_write (f : handle) (s : string) : emits f (write f s) (Ok ()) s.
Proof. intros w p t Hf. unfold write. by rewrite Hf. Qed.

Lemma emits_bind {A B} (f : handle) (m : M A) (k : A → M B) (a : A)
    (r : result B) (s1 s2 : string) :
  emits f m (Ok a) s1 → emits f (k a) r s2 → emits f (m ≫= k) r (s1 +:+ s2).
Proof.
  intros Hm Hk w p t Hf. unfold mbind, M_bind. rewrite (Hm w p t Hf).
  rewrite (Hk _ p (t +:+ s1)).
  - by rewrite list_insert_insert_eq, append_assoc.
  - apply list_lookup_insert_eq. by eapply lookup_lt_Some.
Qed.

Lemma emits_bind_fail {A B} (f : handle) (m : M A) (k : A → M B)
    (r : result A) (s : string) :
  emits f m r s → (∀ a, r ≠ Ok a) →
  ∃ r', emits f (m ≫= k) r' s ∧ ∀ b, r' ≠ Ok b.
Proof.
  intros Hm Hr. destruct r as [a|e|]; [by destruct (Hr a)| |].
  - exists (Raise e). split; [|done]. intros w p t Hf.
    unfold mbind, M_bind. by rewrite (Hm w p t Hf).
  - exists Timeout. split; [|done]. intros w p t Hf.
    unfold mbind, M_bind. by rewrite (Hm w p t Hf).
Qed.

Lemma emits_skip {A B} (f : handle) (k : A → M B) (a : A) (r : result B)
    (s : string) :
  emits f (k a) r s → emits f (mret a ≫= k) r s.
Proof. intros Hk. apply (emits_bind _ _ _ a _ "" s); [apply emits_ret | done]. Qed.

(** The text may be written in any equal way. *)
Lemma emits_text {A} (f : handle) (m : M A) (r : result A) (s s' : string) :
  emits f m r s → s = s' → emits f m r s'.
Proof. by intros Hm <-. Qed.

Lemma emits_pure_on {A} (f : handle) (m : M A) (r : result A) (s : string) :
  emits f m r s → pure_on f m r.
Proof.
  intros Hm w (p & t & Hf). eexists. split; [by apply Hm|]. by exists p, t, s.
Qed.

(** A loop whose body writes one piece of text per element. *)
Lemma emits_for_each_unit {A} (f : handle) (body : () → A → M ())
    (line : A → string) (l : list A) :
  (∀ x, x ∈ l → emits f (body () x) (Ok ()) (line x)) →
  emits f (for_each body () l) (Ok ()) (String.concat "" (line <$> l)).
Proof.
  induction l as [|x l IH]; intros Hbody.
  - apply emits_ret.
  - cbn [for_each]. rewrite fmap_cons, concat_cons.
    eapply emits_bind; [apply Hbody; left|].
    apply IH. intros y Hy. apply Hbody. by right.
Qed.

(** ** The mass matrix *)

Section MassMatrix.

Variable self : Matlab.
Variable f : handle.

(** The list [m] the method builds: one entry per ODE or ALGEBRAIC state. *)
Lemma mass_matrix_entries (l : list State.t) (acc : list nat) :
  foldl (λ m item,
      if bool_decide (State.type item = ODE) then m ++ [1]
      else if bool_decide (State.type item = ALGEBRAIC) then m ++ [0]
      else m) acc l
  = acc ++ (mass_matrix_entry <$> filter is_ode_algebraic l).
Proof.
  revert acc. induction l as [|item l IH]; intros acc; cbn [foldl].
  { by rewrite app_nil_r. }
  rewrite IH. destruct (State.type item) eqn:Ht.
  - rewrite (filter_cons_True is_ode_algebraic)
      by (unfold is_ode_algebraic; rewrite Ht; compute_done).
    rewrite fmap_cons. unfold mass_matrix_entry at 2. rewrite Ht.
    repeat case_bool_decide; try done; by rewrite <- app_assoc.
  - rewrite (filter_cons_True is_ode_algebraic)
      by (unfold is_ode_algebraic; rewrite Ht; compute_done).
    rewrite fmap_cons. unfold mass_matrix_entry at 2. rewrite Ht.
    repeat case_bool_decide; try done; by rewrite <- app_assoc.
  - rewrite (filter_cons_False is_ode_algebraic)
      by (unfold is_ode_algebraic; rewrite Ht; vm_compute; tauto).
    done.
Qed.

(** The rows from [length m1] on: the loop ends within one round per row
    left and never reads past the end of [m]. *)
Lemma write_mass_matrix_rows (m1 m2 : list nat) (fuel : nat) :
  length m2 ≤ fuel →
  emits f
    (while_ fuel (λ i, bool_decide (i < length (m1 ++ m2)))
       (λ i,
          write f (tabs 4);;
          write f (str_mul "0 " i);;
          match (m1 ++ m2) !! i with
          | Some mi => write f (pretty mi +:+ " ")
          | None => lift (Raise (Exn "IndexError" "list index out of range"))
          end;;
          write f (str_mul "0 " (length (m1 ++ m2) - i - 1));;
          write f nl;;
          mret (i + 1))
       (length m1))
    (Ok (length (m1 ++ m2)))
    (String.concat ""
       (imap (λ k, mass_matrix_row (length (m1 ++ m2)) (length m1 + k)) m2)).
Proof.
  revert m1 fuel. induction m2 as [|mi m2 IH]; intros m1 fuel Hfuel.
  - rewrite app_nil_r. destruct fuel; cbn [while_];
      rewrite bool_decide_eq_false_2 by lia; apply emits_ret.
  - destruct fuel as [|fuel]; [simpl in Hfuel; lia|]. cbn [while_].
    rewrite bool_decide_eq_true_2 by (rewrite length_app; simpl; lia).
    rewrite imap_cons, concat_cons.
    eapply emits_bind.
    + eapply emits_text.
      * eapply emits_bind; [apply emits_write|].
        eapply emits_bind; [apply emits_write|].
        eapply emits_bind.
        { rewrite list_lookup_middle by done. apply emits_write. }
        eapply emits_bind; [apply emits_write|].
        eapply emits_bind; [apply emits_write|]. apply emits_ret.
      * unfold mass_matrix_row. rewrite Nat.add_0_r.
        by rewrite !append_assoc, append_nil_r.
    + specialize (IH (m1 ++ [mi]) fuel). rewrite <- app_assoc in IH.
      cbn [app] in IH. rewrite (length_app m1 [mi]) in IH. cbn [length] in IH.
      eapply emits_text; [apply IH; simpl in Hfuel; lia|].
      f_equal. apply imap_ext. intros k x _. simpl. f_equal. lia.
Qed.

Lemma write_mass_matrix_emits :
  emits f (write_mass_matrix self f) (Ok ()) (mass_matrix_text self).
Proof.
  unfold write_mass_matrix, mass_matrix_text. cbv zeta.
  rewrite (mass_matrix_entries _ []). cbn [app].
  fold (ode_algebraic_states self).
  set (m := mass_matrix_entry <$> ode_algebraic_states self).
  eapply emits_text.
  - eapply emits_bind; [apply emits_write|].
    eapply emits_bind; [apply emits_write|].
    eapply emits_bind; [apply emits_write|].
    eapply emits_bind; [apply (write_mass_matrix_rows [] m (length m)); lia|].
    eapply emits_bind; [apply emits_write|].
    eapply emits_bind; [apply emits_write|]. apply emits_write.
  - cbn [app length Nat.add]. by rewrite !append_assoc.
Qed.

End MassMatrix.

(** X1: [write_mass_matrix] always returns on an open file: its loop ends
    within one round per row and never reads past the end of its list. What
    it writes is a square matrix with one row per ODE or ALGEBRAIC state, in
    declaration order: row [i] has [i] zeros, then [1] for an ODE state or
    [0] for an ALGEBRAIC one, then zeros up to the number of rows; ASSIGMENT
    states get no row. *)
Theorem write_mass_matrix_diagonal (self : Matlab) (f : handle) (w : world)
    (p t : string) :
  w !! f = Some (File p t false) →
  write_mass_matrix self f w
  = (Ok (), <[f := File p (t +:+ mass_matrix_text self) false]> w).
Proof. apply write_mass_matrix_emits. Qed.

Lemma write_mass_matrix_diagonal_witness :
  write_mass_matrix chain_model 0 [fresh]
  = (Ok (), <[0 := File "out.m" ("" +:+ mass_matrix_text chain_model) false]> [fresh]).
Proof. by apply write_mass_matrix_diagonal. Defined.

(** ** The initial conditions and the local states *)

Section LocalStates.

Variable tokenize : string → exn + list TokenInfo.
Variable self : Matlab.
Variable f : handle.

Local Abbreviation states := (dae_model.get_states (dae self)).

Lemma write_initial_conditions_rows (l : list State.t) :
  emits f
    (for_each (λ _ item,
        if bool_decide (State.type item = ODE) then
          write f (tabs 4 +:+ State.initialCondition item +:+ " % "
                   +:+ State.id item +:+ nl)
        else if bool_decide (State.type item = ALGEBRAIC) then
          write f (tabs 4 +:+ State.initialCondition item);;
          write f ("% " +:+ State.id item +:+ " (algebraic)" +:+ nl)
        else mret ())
      () l)
    (Ok ())
    (String.concat "" (initial_condition_row <$> filter is_ode_algebraic l)).
Proof.
  induction l as [|item l IH]; [apply emits_ret|]. cbn [for_each].
  destruct (State.type item) eqn:Ht.
  - rewrite (filter_cons_True is_ode_algebraic)
      by (unfold is_ode_algebraic; rewrite Ht; compute_done).
    rewrite fmap_cons, concat_cons. eapply emits_bind; [|exact IH].
    unfold initial_condition_row. rewrite Ht.
    rewrite !bool_decide_eq_true_2 by done. apply emits_write.
  - rewrite (filter_cons_True is_ode_algebraic)
      by (unfold is_ode_algebraic; rewrite Ht; compute_done).
    rewrite fmap_cons, concat_cons. eapply emits_bind; [|exact IH].
    unfold initial_condition_row. rewrite Ht.
    rewrite (bool_decide_eq_false_2 (ALGEBRAIC = ODE)) by done.
    rewrite bool_decide_eq_true_2 by done.
    eapply emits_text.
    + eapply emits_bind; apply emits_write.
    + by rewrite !append_assoc.
  - rewrite (filter_cons_False is_ode_algebraic)
      by (unfold is_ode_algebraic; rewrite Ht; vm_compute; tauto).
    rewrite !bool_decide_eq_false_2 by done.
    apply emits_skip, IH.
Qed.

Lemma write_initial_conditions_emits :
  emits f (write_initial_conditions self f) (Ok ()) (initial_conditions_text self).
Proof.
  unfold write_initial_conditions, initial_conditions_text.
  eapply emits_text.
  - eapply emits_bind; [apply emits_write|].
    eapply emits_bind; [apply emits_write|].
    eapply emits_bind; [apply emits_write|].
    eapply emits_bind; [apply write_initial_conditions_rows|].
    eapply emits_bind; [apply emits_write|].
    eapply emits_bind; [apply emits_write|]. apply emits_write.
  - unfold ode_algebraic_states. by rewrite !append_assoc.
Qed.

(** The first loop of [write_local_states], started at row [i]. *)
Lemma write_ode_algebraic_states_rows (l : list State.t) (i : nat)
    (known : list string) :
  emits f
    (for_each (λ '(i, known_states) state,
        if negb (bool_decide (State.type state ∈ [ODE; ALGEBRAIC])) then
          mret (i, known_states)
        else
          write f (tabs 3 +:+ State.id state +:+ " = x(" +:+ pretty i +:+ ",:);"
                   +:+ nl);;
          mret (i + 1, known_states ++ [State.id state]))
      (i, known) l)
    (Ok (i + length (filter is_ode_algebraic l),
         known ++ (State.id <$> filter is_ode_algebraic l)))
    (String.concat ""
       (imap (λ k state, tabs 3 +:+ State.id state +:+ " = x(" +:+ pretty (i + k)
                         +:+ ",:);" +:+ nl)
          (filter is_ode_algebraic l))).
Proof.
  revert i known. induction l as [|state l IH]; intros i known.
  - cbn. rewrite Nat.add_0_r, app_nil_r. apply emits_ret.
  - cbn [for_each].
    destruct (bool_decide (State.type state ∈ [ODE; ALGEBRAIC])) eqn:Ht; cbn [negb].
    + rewrite filter_cons_True by (unfold is_ode_algebraic; by rewrite Ht).
      rewrite fmap_cons, imap_cons, concat_cons. cbn [length].
      eapply emits_bind.
      * eapply emits_text.
        { eapply emits_bind; [apply emits_write | apply emits_ret]. }
        by rewrite append_nil_r, Nat.add_0_r.
      * specialize (IH (i + 1) (known ++ [State.id state])).
        rewrite <- app_assoc in IH. cbn [app] in IH.
        replace (i + S (length (filter is_ode_algebraic l)))
          with (i + 1 + length (filter is_ode_algebraic l)) by lia.
        eapply emits_text; [exact IH|].
        f_equal. apply imap_ext. intros k x _. simpl.
        by replace (i + 1 + k) with (i + S k) by lia.
    + rewrite filter_cons_False by (unfold is_ode_algebraic; rewrite Ht; intros []).
      apply emits_skip, IH.
Qed.

Lemma write_ode_algebraic_states_emits (known : list string) :
  emits f (write_ode_algebraic_states self f known)
    (Ok (1 + length (ode_algebraic_states self), known ++ ode_algebraic_ids self))
    (String.concat "" (imap local_state_read (ode_algebraic_states self))).
Proof.
  unfold write_ode_algebraic_states.
  eapply emits_text; [apply write_ode_algebraic_states_rows|].
  f_equal. apply imap_ext. intros k x _. unfold local_state_read.
  by rewrite (Nat.add_comm 1 k).
Qed.

(** The body of the scan. *)
Local Abbreviation scan_body :=
  (λ (known_states : list string) (state : State.t),
      if negb (bool_decide (State.type state = ASSIGMENT)) then
        mret known_states
      else if bool_decide (State.id state ∈ known_states) then
        mret known_states
      else
        dependencies ← lift (get_states tokenize self (State.equation state));
        if forallb (λ elem, bool_decide (elem ∈ known_states)) dependencies then
          equation ← lift (string2matlab tokenize self (State.equation state));
          write f (tabs 3 +:+ State.id state +:+ " = " +:+ equation +:+ ";" +:+ nl);;
          mret (known_states ++ [State.id state])
        else mret known_states).

(** One step of the scan: the line of the state when it is resolved, nothing
    otherwise. *)
Lemma write_assigment_scan_step_line (known : list string) (state : State.t) :
  ∃ r s,
    emits f (scan_body known state) r s
    ∧ ∀ k, r = Ok k →
        (k = known ∧ s = "")
        ∨ (State.type state = ASSIGMENT ∧ k = known ++ [State.id state]
           ∧ s = assigment_line tokenize self state).
Proof.
  cbv beta. case_bool_decide as Ht; cbn [negb].
  2: { exists (Ok known), "". split; [apply emits_ret|]. intros k [= <-]. by left. }
  case_bool_decide as Hid.
  { exists (Ok known), "". split; [apply emits_ret|]. intros k [= <-]. by left. }
  destruct (get_states tokenize self (State.equation state)) as [deps|e|] eqn:Hdeps.
  2, 3: eexists _, ""; split; [apply emits_lift | done].
  destruct (forallb (λ elem, bool_decide (elem ∈ known)) deps) eqn:Hall.
  2: { exists (Ok known), "". split; [|intros k [= <-]; by left].
       apply (emits_bind _ _ _ deps _ "" ""); [apply emits_lift|].
       cbv beta. rewrite Hall. apply emits_ret. }
  destruct (string2matlab tokenize self (State.equation state))
    as [equation|e|] eqn:Heq.
  2, 3: eexists _, ""; split;
    [apply (emits_bind _ _ _ deps _ "" ""); [apply emits_lift|];
     cbv beta; rewrite Hall; apply emits_lift | done].
  exists (Ok (known ++ [State.id state])), (assigment_line tokenize self state).
  split; [|intros k [= <-]; by right].
  eapply emits_text.
  - eapply (emits_bind _ _ _ deps _ ""); [apply emits_lift|].
    cbv beta. rewrite Hall.
    eapply (emits_bind _ _ _ equation _ ""); [apply emits_lift|].
    eapply emits_bind; [apply emits_write | apply emits_ret].
  - unfold assigment_line, translated. rewrite Heq. by rewrite append_nil_r.
Qed.

(** The scan: a line for each state it resolves, in the order it resolves
    them. *)
Lemma write_assigment_scan_lines (l : list State.t) (known : list string) :
  (∀ x, x ∈ l → x ∈ states) →
  appends_lines tokenize self f (for_each scan_body known l) known.
Proof.
  revert known. induction l as [|state l IH]; intros known Hl.
  { exists (Ok known), "". split; [apply emits_ret|]. intros k [= <-].
    exists []. by rewrite app_nil_r. }
  cbn [for_each].
  assert (∀ x, x ∈ l → x ∈ states) as Hl' by (intros x Hx; apply Hl; by right).
  destruct (write_assigment_scan_step_line known state) as (r1 & s1 & Hstep & Hr1).
  destruct r1 as [k1|e|].
  2, 3: edestruct (emits_bind_fail f _ (λ s', for_each scan_body s' l) _ _ Hstep)
          as (r' & Hr' & Hne); [done|];
        exists r', s1; split; [exact Hr'|]; intros k ->; by destruct (Hne k).
  destruct (IH k1 Hl') as (r & s & Hrs & Hk).
  exists r, (s1 +:+ s). split; [by eapply emits_bind|].
  intros k Hrk. destruct (Hk k Hrk) as (rs & -> & Hrs' & ->).
  destruct (Hr1 k1 eq_refl) as [[-> ->]|(Ht & -> & ->)].
  - by exists rs.
  - exists (state :: rs). split; [by rewrite <- app_assoc|]. split.
    + apply Forall_cons. split; [|done]. split; [apply Hl; left | done].
    + by rewrite fmap_cons, concat_cons.
Qed.

Lemma appends_lines_bind (m : M (list string)) (k : list string → M (list string))
    (known : list string) :
  appends_lines tokenize self f m known →
  (∀ k1, appends_lines tokenize self f (k k1) k1) →
  appends_lines tokenize self f (m ≫= k) known.
Proof.
  intros (r1 & s1 & Hm & Hr1) Hk. destruct r1 as [k1|e|].
  2, 3: edestruct (emits_bind_fail f m k _ _ Hm) as (r' & Hr' & Hne); [done|];
        exists r', s1; split; [exact Hr'|]; intros k' ->; by destruct (Hne k').
  destruct (Hk k1) as (r & s & Hrs & Hr).
  exists r, (s1 +:+ s). split; [by eapply emits_bind|].
  intros k' Hrk. destruct (Hr k' Hrk) as (rs2 & -> & Hrs2 & ->).
  destruct (Hr1 k1 eq_refl) as (rs1 & -> & Hrs1 & ->).
  exists (rs1 ++ rs2). split; [by rewrite fmap_app, app_assoc|]. split.
  - by apply Forall_app.
  - by rewrite fmap_app, concat_app.
Qed.

(** The loop: a line for each state it resolves, scan after scan. *)
Lemma write_local_states_loop_lines (fuel : nat) (known : list string) :
  appends_lines tokenize self f
    (while_ fuel
       (λ known_states,
          negb (bool_decide (length known_states = length states)))
       (write_assigment_scan tokenize self f) known)
    known.
Proof.
  revert known. induction fuel as [|fuel IH]; intros known; cbn [while_].
  - destruct (negb _).
    + exists Timeout, "". split; [apply emits_lift | done].
    + exists (Ok known), "". split; [apply emits_ret|]. intros k [= <-].
      exists []. by rewrite app_nil_r.
  - destruct (negb _).
    + apply appends_lines_bind; [|exact IH].
      by apply write_assigment_scan_lines.
    + exists (Ok known), "". split; [apply emits_ret|]. intros k [= <-].
      exists []. by rewrite app_nil_r.
Qed.

(** [write_local_states]: the reads of the ODE and ALGEBRAIC states, then one
    line per ASSIGMENT state in the order the loop resolved them. *)
Lemma write_local_states_lines (fuel : nat) :
  ∃ r s,
    emits f (write_local_states tokenize fuel self f) r s
    ∧ ∀ written, r = Ok written →
        ∃ resolved_states,
          written = ode_algebraic_ids self ++ (State.id <$> resolved_states)
          ∧ Forall (λ state, state ∈ states ∧ State.type state = ASSIGMENT)
              resolved_states
          ∧ s = local_states_text tokenize self resolved_states.
Proof.
  unfold write_local_states. cbv zeta.
  destruct (write_local_states_loop_lines fuel (ode_algebraic_ids self))
    as (r0 & s0 & Hloop & Hr0).
  set (T1 := String.concat "" (imap local_state_read (ode_algebraic_states self))).
  set (unresolved := λ known_states : list string,
         negb (bool_decide (length known_states = length states))) in *.
  assert (∀ {B} (rest : list string → M B) r s,
            emits f (while_ fuel unresolved (write_assigment_scan tokenize self f)
                       (ode_algebraic_ids self) ≫= rest) r s →
            emits f
              (write f (tabs 3 +:+ "% ODE and algebraic states:" +:+ nl);;
               '(i, known_states) ← write_ode_algebraic_states self f [];
               write f nl;;
               write f (tabs 3 +:+ "% Assigment states:" +:+ nl);;
               while_ fuel unresolved (write_assigment_scan tokenize self f)
                 known_states
               ≫= rest)
              r
              ((tabs 3 +:+ "% ODE and algebraic states:" +:+ nl) +:+ T1 +:+ nl
               +:+ (tabs 3 +:+ "% Assigment states:" +:+ nl) +:+ s)) as Hprefix.
  { intros B rest r s Hrest.
    eapply emits_bind; [apply emits_write|].
    eapply emits_bind; [apply (write_ode_algebraic_states_emits [])|].
    cbn [app]. eapply emits_bind; [apply emits_write|].
    eapply emits_bind; [apply emits_write | exact Hrest]. }
  destruct r0 as [k|e|].
  2, 3: edestruct (emits_bind_fail f _
            (λ known_states, write f nl;; mret known_states) _ _ Hloop)
          as (r' & Hr' & Hne); [done|];
        eexists r', _; split; [apply Hprefix, Hr'|];
        intros k' ->; by destruct (Hne k').
  destruct (Hr0 k eq_refl) as (rs & -> & Hrs & ->).
  eexists (Ok _), _. split.
  - apply Hprefix. eapply emits_bind; [exact Hloop|].
    eapply emits_bind; [apply emits_write | apply emits_ret].
  - intros written [= <-]. by exists rs.
Qed.

End LocalStates.

(** X2: [write_initial_conditions] always returns on an open file and writes
    one row of [x0] per ODE or ALGEBRAIC state, in declaration order, with
    the state's initial condition and its id; ASSIGMENT states get no row, so
    the rows of [x0] line up with the rows of the mass matrix. *)
Theorem write_initial_conditions_rows_of_x0 (self : Matlab) (f : handle)
    (w : world) (p t : string) :
  w !! f = Some (File p t false) →
  write_initial_conditions self f w
  = (Ok (), <[f := File p (t +:+ initial_conditions_text self) false]> w).
Proof. apply write_initial_conditions_emits. Qed.

Lemma write_initial_conditions_rows_of_x0_witness :
  write_initial_conditions chain_model 0 [fresh]
  = (Ok (),
     <[0 := File "out.m" ("" +:+ initial_conditions_text chain_model) false]> [fresh]).
Proof. by apply write_initial_conditions_rows_of_x0. Defined.

(** X3: when [write_local_states] returns, what it appended to the file is:
    for the state at position [k] among the ODE and ALGEBRAIC states, in
    declaration order, the line reading row [k + 1] of [x]; then, for each
    ASSIGMENT state in the order the loop resolved them, which is the order
    it returns, the line assigning the translated equation to the state's
    id. *)
Theorem write_local_states_text
    (tokenize : string → exn + list TokenInfo) (self : Matlab) (fuel : nat)
    (f : handle) (w : world) (p t : string) (written : list string) :
  w !! f = Some (File p t false) →
  (write_local_states tokenize fuel self f w).1 = Ok written →
  ∃ resolved_states,
    written = ode_algebraic_ids self ++ (State.id <$> resolved_states)
    ∧ Forall (λ state, state ∈ dae_model.get_states (dae self)
                       ∧ State.type state = ASSIGMENT) resolved_states
    ∧ write_local_states tokenize fuel self f w
      = (Ok written,
         <[f := File p (t +:+ local_states_text tokenize self resolved_states)
                  false]> w).
Proof.
  intros Hf Hok.
  destruct (write_local_states_lines tokenize self f fuel) as (r & s & Hrs & Hr).
  rewrite (Hrs w p t Hf) in Hok. simpl in Hok. subst r.
  destruct (Hr written eq_refl) as (rs & -> & Hforall & ->).
  exists rs. repeat split; try done. by apply Hrs.
Qed.

Lemma write_local_states_text_witness :
  ∃ resolved_states,
    ["v1"; "a1"; "a2"]
    = ode_algebraic_ids chain_model ++ (State.id <$> resolved_states)
    ∧ Forall (λ state, state ∈ dae_model.get_states (dae chain_model)
                       ∧ State.type state = ASSIGMENT) resolved_states
    ∧ write_local_states Py.tokenize 3 chain_model 0 [fresh]
      = (Ok ["v1"; "a1"; "a2"],
         <[0 := File "out.m"
                  ("" +:+ local_states_text Py.tokenize chain_model resolved_states)
                  false]> [fresh]).
Proof.
  apply (write_local_states_text Py.tokenize chain_model 3 0 [fresh]).
  - reflexivity.
  - by vm_compute.
Defined.

(** The scenario of the spec, as text. *)
Example chain_model_local_states :
  (write_local_states Py.tokenize 3 chain_model 0 [fresh]).2
  = [File "out.m"
       (tabs 3 +:+ "% ODE and algebraic states:" +:+ nl
        +:+ tabs 3 +:+ "v1 = x(1,:);" +:+ nl
        +:+ nl
        +:+ tabs 3 +:+ "% Assigment states:" +:+ nl
        +:+ tabs 3 +:+ "a1 = v1.*2;" +:+ nl
        +:+ tabs 3 +:+ "a2 = a1 + 1;" +:+ nl
        +:+ nl)
       false].
Proof. by vm_compute. Qed.

(** ** Composing methods that may raise *)

Lemma emits_when_ok {A} (f : handle) (m : M A) (a : A) (s : string)
    (P : A → string → Prop) :
  emits f m (Ok a) s → P a s → emits_when f m P.
Proof. intros Hm HP. exists (Ok a), s. split; [done|]. by intros ? [= <-]. Qed.

Lemma emits_when_mono {A} (f : handle) (m : M A) (P Q : A → string → Prop) :
  emits_when f m P → (∀ a s, P a s → Q a s) → emits_when f m Q.
Proof.
  intros (r & s & Hm & HP) HPQ. exists r, s. split; [done|].
  intros a Hr. by apply HPQ, HP.
Qed.

Lemma emits_when_ret {A} (f : handle) (a : A) (P : A → string → Prop) :
  P a "" → emits_when f (mret a) P.
Proof. intros HP. eapply emits_when_ok; [apply emits_ret | done]. Qed.

Lemma emits_when_bind {A B} (f : handle) (m : M A) (k : A → M B)
    (P : A → string → Prop) (Q : B → string → Prop) :
  emits_when f m P →
  (∀ a s1, P a s1 → emits_when f (k a) (λ b s2, Q b (s1 +:+ s2))) →
  emits_when f (m ≫= k) Q.
Proof.
  intros (r1 & s1 & Hm & HP) Hk. destruct r1 as [a|e|].
  2, 3: edestruct (emits_bind_fail f m k _ _ Hm) as (r' & Hr' & Hne); [done|];
        exists r', s1; split; [exact Hr'|]; intros b ->; by destruct (Hne b).
  destruct (Hk a s1 (HP a eq_refl)) as (r & s2 & Hka & HQ).
  exists r, (s1 +:+ s2). split; [by eapply emits_bind | done].
Qed.

Lemma emits_when_write {B} (f : handle) (s : string) (k : () → M B)
    (Q : B → string → Prop) :
  emits_when f (k ()) (λ b s2, Q b (s +:+ s2)) →
  emits_when f (write f s ≫= k) Q.
Proof.
  intros Hk. eapply emits_when_bind.
  - eapply (emits_when_ok _ _ _ _ (λ _ s1, s1 = s)); [apply emits_write | done].
  - by intros [] s1 ->.
Qed.

Lemma emits_when_lift {A B} (f : handle) (r : result A) (k : A → M B)
    (Q : B → string → Prop) :
  (∀ a, r = Ok a → emits_when f (k a) Q) → emits_when f (lift r ≫= k) Q.
Proof.
  intros Hk. apply (emits_when_bind _ _ _ (λ a s1, r = Ok a ∧ s1 = "")).
  - exists r, "". split; [apply emits_lift | done].
  - intros a s1 [Hr ->]. exact (Hk a Hr).
Qed.

(** Some table has [f] open. *)
Lemma open_world (f : handle) : ∃ w : world, w !! f = Some (File "" "" false).
Proof.
  exists (replicate f (File "" "" true) ++ [File "" "" false]).
  rewrite lookup_app_r; rewrite length_replicate; [|lia].
  by rewrite Nat.sub_diag.
Qed.

Section Ode.

Variable tokenize : string → exn + list TokenInfo.
Variable self : Matlab.
Variable f : handle.

Local Abbreviation states := (dae_model.get_states (dae self)).

Lemma is_ode_algebraic_type (state : State.t) :
  is_ode_algebraic state
  ↔ State.type state = ODE ∨ State.type state = ALGEBRAIC.
Proof.
  unfold is_ode_algebraic. rewrite bool_decide_spec, !elem_of_cons, elem_of_nil.
  tauto.
Qed.

Lemma translated_ok (state : State.t) (equation : string) :
  string2matlab tokenize self (State.equation state) = Ok equation →
  translated tokenize self state = equation.
Proof. unfold translated. by intros ->. Qed.

(** [write_local_states] again, with the order it computes. *)
Lemma write_local_states_emits_when (fuel : nat) :
  emits_when f (write_local_states tokenize fuel self f)
    (λ written s,
       ∃ resolved_states,
         order tokenize fuel self
         = Ok (ode_algebraic_ids self ++ (State.id <$> resolved_states))
         ∧ Forall (λ state, state ∈ states ∧ State.type state = ASSIGMENT)
             resolved_states
         ∧ s = local_states_text tokenize self resolved_states).
Proof.
  destruct (write_local_states_lines tokenize self f fuel) as (r & s & Hrs & Hr).
  exists r, s. split; [done|]. intros written ->.
  destruct (Hr written eq_refl) as (rs & -> & Hforall & ->).
  exists rs. repeat split; try done.
  destruct (open_world f) as (w & Hw).
  rewrite <- (pure_on_fst f _ _ w (write_local_states_pure tokenize self fuel f))
    by by eexists _, _.
  by rewrite (Hrs w _ _ Hw).
Qed.

(** The body of the loop of [write_ode]. *)
Local Abbreviation ode_body :=
  (λ (i : nat) (item : State.t),
      let string := tabs 3 +:+ "% der(" +:+ State.id item +:+ ")" +:+ nl in
      if bool_decide (State.type item = ODE) then
        equation ← lift (string2matlab tokenize self (State.equation item));
        let string := string +:+ tabs 3 +:+ "dx(" +:+ pretty i +:+ ",1) = "
                      +:+ equation +:+ ";" +:+ nl +:+ nl in
        write f string;;
        mret (i + 1)
      else if bool_decide (State.type item = ALGEBRAIC) then
        equation ← lift (string2matlab tokenize self (State.equation item));
        let string := string +:+ tabs 3 +:+ "dx(" +:+ pretty i +:+ ",1) = "
                      +:+ equation +:+ ";" +:+ nl +:+ nl in
        write f string;;
        mret (i + 1)
      else mret i).

Lemma write_ode_row (state : State.t) (i : nat) :
  emits_when f
    (equation ← lift (string2matlab tokenize self (State.equation state));
     write f ((tabs 3 +:+ "% der(" +:+ State.id state +:+ ")" +:+ nl)
              +:+ tabs 3 +:+ "dx(" +:+ pretty (i + 1) +:+ ",1) = "
              +:+ equation +:+ ";" +:+ nl +:+ nl);;
     mret (i + 1 + 1))
    (λ j s, j = i + 1 + 1 ∧ s = ode_row tokenize self i state).
Proof.
  apply emits_when_lift. intros equation Heq.
  apply emits_when_write, emits_when_ret. split; [done|].
  unfold ode_row. rewrite (translated_ok _ _ Heq).
  by rewrite !append_assoc, append_nil_r.
Qed.

(** The loop of [write_ode], started at row [i + 1]. *)
Lemma write_ode_rows (l : list State.t) (i : nat) :
  emits_when f (for_each ode_body (i + 1) l)
    (λ _ s,
       s = String.concat ""
             (imap (λ k, ode_row tokenize self (i + k)) (filter is_ode_algebraic l))).
Proof.
  revert i. induction l as [|state l IH]; intros i.
  - by apply emits_when_ret.
  - cbn [for_each]. cbv zeta.
    assert (emits_when f (for_each ode_body (i + 1 + 1) l)
              (λ (_ : nat) s2,
                 ode_row tokenize self i state +:+ s2
                 = String.concat ""
                     (imap (λ k, ode_row tokenize self (i + k))
                        (state :: filter is_ode_algebraic l)))) as Hrest.
    { eapply emits_when_mono; [apply (IH (i + 1))|].
      intros _ s2 ->. rewrite imap_cons, concat_cons, Nat.add_0_r. do 2 f_equal.
      apply imap_ext. intros k x _. simpl. f_equal. lia. }
    repeat case_bool_decide.
    + rewrite filter_cons_True by (apply is_ode_algebraic_type; by left).
      eapply emits_when_bind; [apply write_ode_row|].
      by intros j s1 [-> ->].
    + rewrite filter_cons_True by (apply is_ode_algebraic_type; by right).
      eapply emits_when_bind; [apply write_ode_row|].
      by intros j s1 [-> ->].
    + rewrite filter_cons_False by (rewrite is_ode_algebraic_type; tauto).
      apply (emits_when_bind _ _ _ (λ j s, j = i + 1 ∧ s = ""));
        [by apply emits_when_ret|].
      intros j s1 [-> ->]. apply IH.
Qed.

(** [write_ode]: the header, the local states, a row of [dx] per ODE or
    ALGEBRAIC state. *)
Lemma write_ode_emits_when (fuel : nat) :
  emits_when f (write_ode tokenize fuel self f)
    (λ _ s,
       ∃ resolved_states,
         order tokenize fuel self
         = Ok (ode_algebraic_ids self ++ (State.id <$> resolved_states))
         ∧ Forall (λ state, state ∈ states ∧ State.type state = ASSIGMENT)
             resolved_states
         ∧ s = ode_text tokenize self resolved_states).
Proof.
  unfold write_ode. do 11 apply emits_when_write.
  eapply emits_when_bind; [apply write_local_states_emits_when|].
  intros written s1 (rs & Horder & Hrs & ->). cbv beta.
  eapply emits_when_bind; [apply (write_ode_rows states 0)|].
  intros _ s2 ->. cbv beta.
  eapply emits_when_ok; [apply emits_write|].
  by exists rs.
Qed.

End Ode.

(** X4: when [write_ode] returns on an open file, what it appended is the
    header, the text of [write_local_states] for the order the resolver
    computes, and then, for the state at position [k] among the ODE and
    ALGEBRAIC states, the assignment of its translated equation to row
    [k + 1] of [dx]: the row [write_local_states] read that state from.
    ASSIGMENT states get no row. *)
Theorem write_ode_rows_of_dx
    (tokenize : string → exn + list TokenInfo) (self : Matlab) (fuel : nat)
    (f : handle) (w : world) (p t : string) :
  w !! f = Some (File p t false) →
  (write_ode tokenize fuel self f w).1 = Ok () →
  ∃ resolved_states,
    order tokenize fuel self
    = Ok (ode_algebraic_ids self ++ (State.id <$> resolved_states))
    ∧ Forall (λ state, state ∈ dae_model.get_states (dae self)
                       ∧ State.type state = ASSIGMENT) resolved_states
    ∧ write_ode tokenize fuel self f w
      = (Ok (),
         <[f := File p (t +:+ ode_text tokenize self resolved_states) false]> w).
Proof.
  intros Hf Hok.
  destruct (write_ode_emits_when tokenize self f fuel) as (r & s & Hrs & Hr).
  rewrite (Hrs w p t Hf) in Hok. simpl in Hok. subst r.
  destruct (Hr () eq_refl) as (rs & Horder & Hforall & ->).
  exists rs. repeat split; try done. by apply Hrs.
Qed.

Lemma write_ode_rows_of_dx_witness :
  ∃ resolved_states,
    order Py.tokenize 3 chain_model
    = Ok (ode_algebraic_ids chain_model ++ (State.id <$> resolved_states))
    ∧ Forall (λ state, state ∈ dae_model.get_states (dae chain_model)
                       ∧ State.type state = ASSIGMENT) resolved_states
    ∧ write_ode Py.tokenize 3 chain_model 0 [fresh]
      = (Ok (),
         <[0 := File "out.m"
                  ("" +:+ ode_text Py.tokenize chain_model resolved_states)
                  false]> [fresh]).
Proof.
  apply (write_ode_rows_of_dx Py.tokenize chain_model 3 0 [fresh]).
  - reflexivity.
  - by vm_compute.
Defined.

(** ** [write_plot]: the figures *)

Lemma dict_get_fmap {V} (h : string → V) (ks : list string) (c : string) :
  dict_get ((λ k, (k, h k)) <$> ks) c
  = if bool_decide (c ∈ ks) then Some (h c) else None.
Proof.
  induction ks as [|k ks IH]; [done|]. rewrite fmap_cons. cbn [dict_get].
  destruct (decide (k = c)) as [->|Hk].
  - rewrite bool_decide_eq_true_2 by done.
    by rewrite bool_decide_eq_true_2 by left.
  - rewrite (bool_decide_eq_false_2 (k = c)) by done. rewrite IH.
    apply (f_equal (λ b : bool, if b then Some (h c) else None)).
    apply bool_decide_ext. rewrite elem_of_cons.
    split; [by right | by intros [->|?]].
Qed.

Lemma dict_set_fmap_new {V} (h : string → V) (ks : list string) (c : string)
    (v : V) :
  c ∉ ks →
  dict_set ((λ k, (k, h k)) <$> ks) c v = ((λ k, (k, h k)) <$> ks) ++ [(c, v)].
Proof.
  induction ks as [|k ks IH]; intros Hc; [done|].
  rewrite not_elem_of_cons in Hc. destruct Hc as [Hck Hc].
  rewrite fmap_cons. cbn [dict_set app].
  rewrite bool_decide_eq_false_2 by done. f_equal. by apply IH.
Qed.

Lemma dict_set_fmap_old {V} (h h' : string → V) (ks : list string) (c : string)
    (v : V) :
  NoDup ks → c ∈ ks → h' c = v → (∀ k, k ≠ c → h' k = h k) →
  dict_set ((λ k, (k, h k)) <$> ks) c v = (λ k, (k, h' k)) <$> ks.
Proof.
  intros Hnd Hc Hv Hh. induction ks as [|k ks IH]; [by apply elem_of_nil in Hc|].
  apply NoDup_cons in Hnd as [Hk Hnd]. rewrite !fmap_cons. cbn [dict_set].
  case_bool_decide as Hkc.
  - subst k. rewrite Hv. f_equal.
    apply Forall_fmap_ext, Forall_forall. intros k' Hk'.
    rewrite Hh; [done|]. by intros ->.
  - rewrite Hh by done. f_equal. apply IH; [done|].
    apply elem_of_cons in Hc as [->|Hc]; done.
Qed.

Lemma first_occurrences_elem (l : list string) (x : string) :
  x ∈ first_occurrences l ↔ x ∈ l.
Proof.
  induction l as [|a l IH]; [done|]. cbn [first_occurrences].
  rewrite !elem_of_cons, list_elem_of_filter, IH.
  destruct (decide (x = a)); tauto.
Qed.

Lemma first_occurrences_NoDup (l : list string) : NoDup (first_occurrences l).
Proof.
  induction l as [|a l IH]; [constructor|]. cbn [first_occurrences].
  apply NoDup_cons. split.
  - rewrite list_elem_of_filter. by intros [? _].
  - by apply NoDup_filter.
Qed.

Lemma first_occurrences_snoc (l : list string) (x : string) :
  first_occurrences (l ++ [x])
  = if bool_decide (x ∈ l) then first_occurrences l else first_occurrences l ++ [x].
Proof.
  induction l as [|a l IH]; [done|].
  cbn [app first_occurrences]. rewrite IH. clear IH.
  destruct (decide (x = a)) as [->|Hxa].
  - rewrite (bool_decide_eq_true_2 (a ∈ a :: l)) by left.
    case_bool_decide; [done|].
    rewrite filter_app, filter_cons_False, filter_nil, app_nil_r; tauto.
  - case_bool_decide as Hx.
    + by rewrite bool_decide_eq_true_2 by by right.
    + rewrite bool_decide_eq_false_2 by (rewrite elem_of_cons; tauto).
      rewrite filter_app, filter_cons_True, filter_nil; done.
Qed.

Lemma filter_none {A} (P : A → Prop) `{∀ x, Decision (P x)} (l : list A) :
  (∀ x, x ∈ l → ¬ P x) → filter P l = [].
Proof.
  induction l as [|x l IH]; intros Hl; [done|].
  rewrite filter_cons_False by (apply Hl; left).
  apply IH. intros y Hy. apply Hl. by right.
Qed.

(** The loop that fills [contexts]. *)
Lemma plot_contexts_loop (l : list State.t) :
  foldl (λ contexts state,
      let c := State.context state in
      match dict_get contexts c with
      | None => dict_set contexts c [state]
      | Some l => dict_set contexts c (l ++ [state])
      end)
    [] l
  = plot_groups l.
Proof.
  induction l as [|state l IH] using rev_ind; [done|].
  rewrite foldl_app, IH. cbn [foldl]. cbv zeta. unfold plot_groups.
  rewrite (fmap_app State.context).
  change (State.context <$> [state]) with [State.context state].
  rewrite first_occurrences_snoc, dict_get_fmap.
  rewrite (bool_decide_ext _ _ (first_occurrences_elem _ _)).
  case_bool_decide as Hc.
  - apply dict_set_fmap_old.
    + apply first_occurrences_NoDup.
    + by apply first_occurrences_elem.
    + rewrite filter_app. by rewrite (filter_cons_True _ state []).
    + intros k Hk. rewrite filter_app, filter_cons_False, filter_nil, app_nil_r; done.
  - rewrite dict_set_fmap_new by by rewrite first_occurrences_elem.
    rewrite fmap_app. f_equal.
    + apply Forall_fmap_ext, Forall_forall. intros k Hk. f_equal.
      rewrite filter_app, filter_cons_False, filter_nil, app_nil_r; [done|].
      intros Hk'. apply Hc. rewrite Hk'. by apply first_occurrences_elem.
    + cbn [fmap list_fmap]. do 2 f_equal.
      rewrite filter_app, (filter_cons_True _ state []) by done.
      rewrite filter_none; [done|].
      intros x Hx Hcx. apply Hc. rewrite <- Hcx. by apply list_elem_of_fmap_2.
Qed.

(** ** [write_plot]: the grid of a figure *)

Lemma ceil_sqrt_spec (n : nat) :
  0 < n →
  (1 ≤ ceil_sqrt n
   ∧ (ceil_sqrt n - 1) * (ceil_sqrt n - 1) < Z.of_nat n
   ∧ Z.of_nat n ≤ ceil_sqrt n * ceil_sqrt n)%Z.
Proof.
  intros Hn. unfold ceil_sqrt.
  pose proof (Nat.sqrt_spec n (Nat.le_0_l n)) as [Hlo Hhi].
  case_bool_decide; nia.
Qed.

Lemma subplot_rows_spec (x : Z) (n : nat) :
  (1 ≤ x)%Z → ((x - 1) * (x - 1) < Z.of_nat n)%Z → (Z.of_nat n ≤ x * x)%Z →
  (x * (subplot_rows x n - 1) < Z.of_nat n
   ∧ Z.of_nat n ≤ x * subplot_rows x n
   ∧ x - 1 ≤ subplot_rows x n ∧ subplot_rows x n ≤ x)%Z.
Proof.
  intros Hx Hlo Hhi. unfold subplot_rows.
  pose proof (Z.div_mod (Z.of_nat n + x - 1) x) as Hdiv.
  pose proof (Z.mod_pos_bound (Z.of_nat n + x - 1) x) as Hmod.
  nia.
Qed.

Section Plot.

Variable self : Matlab.
Variable f : handle.

(** The [while] loop: at most one round, and the rows are those the
    subplots need. *)
Lemma write_plot_rows (n : nat) :
  0 < n →
  emits f
    (while_ (Z.to_nat (ceil_sqrt n))
       (λ y, bool_decide (Z.of_nat n ≤ ceil_sqrt n * (y - 1))%Z)
       (λ y, mret (y - 1)%Z)
       (ceil_sqrt n))
    (Ok (subplot_rows (ceil_sqrt n) n)) "".
Proof.
  intros Hn. destruct (ceil_sqrt_spec n Hn) as (Hx & Hlo & Hhi).
  destruct (subplot_rows_spec _ n Hx Hlo Hhi) as (Hy1 & Hy2 & Hy3 & Hy4).
  destruct (Z.to_nat (ceil_sqrt n)) as [|fuel] eqn:Hfuel; [lia|].
  cbn [while_]. case_bool_decide as Hc.
  - apply emits_skip.
    replace (subplot_rows (ceil_sqrt n) n) with (ceil_sqrt n - 1)%Z by nia.
    assert (bool_decide (Z.of_nat n ≤ ceil_sqrt n * (ceil_sqrt n - 1 - 1))%Z = false)
      as Hstop by (apply bool_decide_eq_false_2; nia).
    destruct fuel; cbn [while_]; rewrite Hstop; apply emits_ret.
  - replace (subplot_rows (ceil_sqrt n) n) with (ceil_sqrt n) by nia.
    apply emits_ret.
Qed.

(** The subplots of a figure, from subplot [length l1 + 1] on. *)
Lemma write_plot_subplots (x y : Z) (states l1 l2 : list State.t) :
  states = l1 ++ l2 →
  emits f
    (for_each (λ _ i,
        match states !! i with
        | Some state =>
            write f (tabs 3 +:+ "subplot(" +:+ pretty x +:+ "," +:+ pretty y
                     +:+ "," +:+ pretty (i + 1) +:+ ");" +:+ nl);;
            write f (tabs 3 +:+ "plot(out.t, out." +:+ State.id state +:+ ");"
                     +:+ nl);;
            write f (tabs 3 +:+ "title(" +:+ dq +:+ State.id state +:+ dq
                     +:+ ");" +:+ nl);;
            write f (tabs 3 +:+ "ylim([0, +inf]);" +:+ nl);;
            write f (tabs 3 +:+ "grid on;" +:+ nl);;
            write f nl
        | None => lift (Raise (Exn "IndexError" "list index out of range"))
        end)
      () (seq (length l1) (length l2)))
    (Ok ())
    (String.concat "" (imap (λ i, subplot_text x y (length l1 + i)) l2)).
Proof.
  revert l1. induction l2 as [|state l2 IH]; intros l1 Hstates.
  - apply emits_ret.
  - cbn [length seq for_each]. rewrite imap_cons, concat_cons.
    eapply emits_bind.
    + rewrite Hstates, list_lookup_middle by done.
      eapply emits_text.
      { do 5 (eapply emits_bind; [apply emits_write|]). apply emits_write. }
      unfold subplot_text. by rewrite Nat.add_0_r, !append_assoc.
    + specialize (IH (l1 ++ [state])). rewrite length_app in IH. cbn [length] in IH.
      rewrite Nat.add_1_r in IH. eapply emits_text.
      { apply IH. by rewrite <- app_assoc. }
      f_equal. apply imap_ext. intros i s' _. simpl. f_equal. lia.
Qed.

Lemma plot_groups_nonempty (l : list State.t) (c : string) (g : list State.t) :
  (c, g) ∈ plot_groups l → 0 < length g.
Proof.
  unfold plot_groups. intros Hg.
  apply list_elem_of_fmap in Hg as (c' & [= -> ->] & Hc).
  apply first_occurrences_elem, list_elem_of_fmap in Hc as (state & Hc & Hstate).
  assert (state ∈ filter (λ state, State.context state = c') l) as Hin
    by by apply list_elem_of_filter.
  destruct (filter _ l); [by apply elem_of_nil in Hin | cbn; lia].
Qed.

Lemma plot_contexts_groups : plot_contexts self = plot_groups (dae_model.get_states (dae self)).
Proof. apply plot_contexts_loop. Qed.

(** The figure of one context. *)
Lemma write_plot_figure (group : string * list State.t) :
  0 < length group.2 →
  emits f
    ((λ (_ : ()) '(context, states),
        let x := ceil_sqrt (length states) in
        let y := x in
        y ← while_ (Z.to_nat x)
               (λ y, bool_decide (Z.of_nat (length states) ≤ x * (y - 1))%Z)
               (λ y, mret (y - 1)%Z)
               y;
        write f (tabs 3 +:+ "figure('Name','" +:+ context +:+ "');" +:+ nl);;
        for_each (λ _ i,
            match states !! i with
            | Some state =>
                write f (tabs 3 +:+ "subplot(" +:+ pretty x +:+ "," +:+ pretty y
                         +:+ "," +:+ pretty (i + 1) +:+ ");" +:+ nl);;
                write f (tabs 3 +:+ "plot(out.t, out." +:+ State.id state +:+ ");"
                         +:+ nl);;
                write f (tabs 3 +:+ "title(" +:+ dq +:+ State.id state +:+ dq
                         +:+ ");" +:+ nl);;
                write f (tabs 3 +:+ "ylim([0, +inf]);" +:+ nl);;
                write f (tabs 3 +:+ "grid on;" +:+ nl);;
                write f nl
            | None => lift (Raise (Exn "IndexError" "list index out of range"))
            end)
          () (seq 0 (length states))) () group)
    (Ok ()) (figure_text group).
Proof.
  destruct group as [context states]. cbn [snd]. intros Hn. cbv beta iota zeta.
  eapply emits_text.
  { eapply emits_bind; [by apply write_plot_rows|].
    eapply emits_bind; [apply emits_write|].
    apply (write_plot_subplots _ _ states [] states eq_refl). }
  unfold figure_text. cbn [fst snd length]. by rewrite !append_assoc.
Qed.

Lemma write_plot_emits : emits f (write_plot self f) (Ok ()) (plot_text self).
Proof.
  unfold write_plot. cbv zeta. fold (plot_contexts self).
  eapply emits_text.
  { do 2 (eapply emits_bind; [apply emits_write|]).
    eapply emits_bind; [|apply emits_write].
    apply (emits_for_each_unit _ _ figure_text). intros group Hgroup.
    apply write_plot_figure. destruct group as [c g].
    rewrite plot_contexts_groups in Hgroup. by eapply plot_groups_nonempty. }
  unfold plot_text. by rewrite !append_assoc.
Qed.

End Plot.

(** The groups of a list of states hold every state once. *)
Lemma plot_groups_add (state : State.t) (l : list State.t) (ks : list string) :
  NoDup ks → State.context state ∈ ks →
  mjoin ((λ c, filter (λ state, State.context state = c) (state :: l)) <$> ks)
  ≡ₚ state :: mjoin ((λ c, filter (λ state, State.context state = c) l) <$> ks).
Proof.
  induction ks as [|k ks IH]; intros Hnd Hc; [by apply elem_of_nil in Hc|].
  apply NoDup_cons in Hnd as [Hk Hnd]. rewrite !fmap_cons. cbn [mjoin list_join].
  destruct (decide (State.context state = k)) as [Heq|Hne].
  - rewrite filter_cons_True by done. cbn [app].
    assert ((λ c, filter (λ state, State.context state = c) (state :: l)) <$> ks
            = (λ c, filter (λ state, State.context state = c) l) <$> ks) as ->;
      [|done].
    apply Forall_fmap_ext, Forall_forall. intros k' Hk'.
    rewrite filter_cons_False; [done|]. intros Heq'. apply Hk. by rewrite <- Heq, Heq'.
  - rewrite filter_cons_False by done.
    apply elem_of_cons in Hc as [Hc|Hc]; [done|].
    rewrite (IH Hnd Hc). by rewrite Permutation_middle.
Qed.

Lemma plot_groups_none (ks : list string) :
  mjoin ((λ c, filter (λ state : State.t, State.context state = c) []) <$> ks) = [].
Proof. induction ks as [|k ks IH]; [done|]. by rewrite fmap_cons. Qed.

Lemma plot_groups_all (l : list State.t) (ks : list string) :
  NoDup ks → (∀ state, state ∈ l → State.context state ∈ ks) →
  mjoin ((λ c, filter (λ state, State.context state = c) l) <$> ks) ≡ₚ l.
Proof.
  intros Hnd. induction l as [|state l IH]; intros Hl.
  - by rewrite plot_groups_none.
  - rewrite plot_groups_add; [|done|apply Hl; left].
    f_equiv. apply IH. intros s' Hs'. apply Hl. by right.
Qed.

(** X5: the dict [contexts] that [write_plot] builds holds one entry per
    distinct context, in the order the contexts first appear among the
    states, and the entry of a context lists exactly the states with that
    context, in declaration order. *)
Theorem plot_contexts_by_first_appearance (self : Matlab) :
  plot_contexts self
  = (λ c, (c, filter (λ state, State.context state = c)
                (dae_model.get_states (dae self))))
    <$> first_occurrences (State.context <$> dae_model.get_states (dae self)).
Proof. apply plot_contexts_loop. Qed.

Example plot_model_contexts :
  plot_contexts plot_model
  = [("cell", [State.mk "a" ODE "1" "0" "cell"; State.mk "c" ODE "1" "0" "cell";
               State.mk "d" ALGEBRAIC "1" "0" "cell"]);
     ("medium", [State.mk "b" ODE "1" "0" "medium";
                 State.mk "e" ASSIGMENT "a" "0" "medium"])].
Proof. reflexivity. Qed.

(** X6: [write_plot], on an open file, always returns: the [while] loop
    that sizes the grid ends and no index is out of range. It writes one
    figure per entry of [contexts], in the order of the dict, named after
    the context; the state at position [i] of the entry is subplot [i + 1]
    of a grid with [x = ceil (sqrt n)] columns and [ceil (n / x)] rows, [n]
    the number of states of the entry. *)
Theorem write_plot_figures (self : Matlab) (f : handle) (w : world)
    (p t : string) :
  w !! f = Some (File p t false) →
  write_plot self f w
  = (Ok (), <[f := File p (t +:+ plot_text self) false]> w).
Proof. apply write_plot_emits. Qed.

Lemma write_plot_figures_witness :
  write_plot plot_model 0 [fresh]
  = (Ok (), <[0 := File "out.m" ("" +:+ plot_text plot_model) false]> [fresh]).
Proof. by apply write_plot_figures. Defined.

(** X7: the grid that [write_plot] writes for every figure fits its
    subplots. For every model, what [write_plot] appends is the header, then
    for each entry of [contexts] a figure whose subplot lines carry
    [x = ceil (sqrt n)] columns and some number [y] of rows, the one its
    [while] loop leaves, then the end; and for every figure, with [n] its
    number of states, [1 <= n] and [x * (y - 1) < n <= x * y], so that no
    subplot is off the grid and no row is empty; [x] is the least integer
    with [n <= x * x] and [y] is [x] or [x - 1]. *)
Theorem write_plot_grid_fits (self : Matlab) (f : handle) (w : world)
    (p t : string) :
  w !! f = Some (File p t false) →
  ∃ rows,
    write_plot self f w
    = (Ok (), <[f := File p (t +:+ plot_text_rows self rows) false]> w)
    ∧ Forall2 (λ group y,
                 grid_fits (length group.2) (ceil_sqrt (length group.2)) y)
        (plot_contexts self) rows.
Proof.
  intros Hf.
  exists ((λ group, subplot_rows (ceil_sqrt (length group.2)) (length group.2))
          <$> plot_contexts self).
  split.
  - replace (plot_text_rows self _) with (plot_text self);
      [by apply write_plot_emits|].
    unfold plot_text, plot_text_rows. by rewrite zip_with_fmap_r, zip_with_diag.
  - apply Forall2_fmap_r, Forall_Forall2_diag, Forall_forall.
    intros [context states] Hin. cbn [snd].
    unfold plot_contexts in Hin. rewrite plot_contexts_loop in Hin.
    apply plot_groups_nonempty in Hin.
    destruct (ceil_sqrt_spec _ Hin) as (Hx & Hlo & Hhi).
    destruct (subplot_rows_spec _ _ Hx Hlo Hhi) as (Hy1 & Hy2 & Hy3 & Hy4).
    unfold grid_fits. repeat split; try done. lia.
Qed.

Lemma write_plot_grid_fits_witness :
  ∃ rows,
    write_plot plot_model 0 [fresh]
    = (Ok (), <[0 := File "out.m" ("" +:+ plot_text_rows plot_model rows) false]>
                [fresh])
    ∧ Forall2 (λ group y,
                 grid_fits (length group.2) (ceil_sqrt (length group.2)) y)
        (plot_contexts plot_model) rows.
Proof. by apply write_plot_grid_fits. Defined.

(** Three states on a grid of 2 by 2, two states on a grid of 2 by 1. *)
Example plot_model_rows :
  write_plot plot_model 0 [fresh]
  = (Ok (), [File "out.m" (plot_text_rows plot_model [2; 1]%Z) false]).
Proof. by vm_compute. Qed.

(** X8: [write_plot] plots every state exactly once: the entries of
    [contexts] have distinct contexts, and together they hold the states of
    the model, each once. *)
Theorem write_plot_every_state_once (self : Matlab) :
  NoDup (plot_contexts self).*1
  ∧ mjoin (plot_contexts self).*2 ≡ₚ dae_model.get_states (dae self).
Proof.
  unfold plot_contexts. rewrite plot_contexts_loop. unfold plot_groups.
  rewrite <- !list_fmap_compose. split.
  - rewrite (list_fmap_ext _ id) by done. rewrite list_fmap_id.
    apply first_occurrences_NoDup.
  - apply plot_groups_all; [apply first_occurrences_NoDup|].
    intros state Hstate. by apply first_occurrences_elem, list_elem_of_fmap_2.
Qed.

(** ** How the export ends *)

Lemma ends_emits {A} (f : handle) (m : M A) (r : result A) (s : string)
    (P : result A → Prop) :
  emits f m r s → P r → ends f m P.
Proof. intros Hm HP. by exists r, s. Qed.

Lemma ends_ret {A} (f : handle) (a : A) (P : result A → Prop) :
  P (Ok a) → ends f (mret a) P.
Proof. intros HP. eapply ends_emits; [apply emits_ret | done]. Qed.

Lemma ends_lift {A} (f : handle) (r : result A) (P : result A → Prop) :
  P r → ends f (lift r) P.
Proof. intros HP. eapply ends_emits; [apply emits_lift | done]. Qed.

Lemma ends_write (f : handle) (s : string) (P : result () → Prop) :
  P (Ok ()) → ends f (write f s) P.
Proof. intros HP. eapply ends_emits; [apply emits_write | done]. Qed.

Lemma ends_bind {A B} (f : handle) (m : M A) (k : A → M B)
    (V : A → Prop) (V' : B → Prop) (E : exn → Prop) (T : Prop) :
  ends f m (outcome V E T) →
  (∀ a, V a → ends f (k a) (outcome V' E T)) →
  ends f (m ≫= k) (outcome V' E T).
Proof.
  intros (r & s & Hm & Hr) Hk. destruct r as [a|e|].
  - destruct (Hk a Hr) as (r2 & s2 & Hk2 & Hr2).
    exists r2, (s +:+ s2). split; [by eapply emits_bind | done].
  - exists (Raise e), s. split; [|done]. intros w p t Hf.
    unfold mbind, M_bind. by rewrite (Hm w p t Hf).
  - exists Timeout, s. split; [|done]. intros w p t Hf.
    unfold mbind, M_bind. by rewrite (Hm w p t Hf).
Qed.

Lemma ends_for_each {A S} (f : handle) (body : S → A → M S) (l : list A) (s : S)
    (E : exn → Prop) (T : Prop) :
  (∀ s x, x ∈ l → ends f (body s x) (outcome (λ _, True) E T)) →
  ends f (for_each body s l) (outcome (λ _, True) E T).
Proof.
  revert s. induction l as [|x l IH]; intros s Hbody; cbn [for_each].
  - by apply ends_ret.
  - eapply ends_bind; [apply Hbody; left|].
    intros s' _. apply IH. intros s'' y Hy. apply Hbody. by right.
Qed.

Lemma finishes_bind {A B} (f : handle) (m : M A) (k : A → M B)
    (V : A → Prop) (V' : B → Prop) (E : exn → Prop) (T : Prop) :
  ends f m (outcome V E T) →
  (∀ a, V a → finishes f (k a) (outcome V' E T)) →
  finishes f (m ≫= k) (outcome V' E T).
Proof.
  intros (r & s & Hm & Hr) Hk. destruct r as [a|e|].
  - destruct (Hk a Hr) as (r2 & s2 & Hr2 & Hk2).
    exists r2, (s +:+ s2). split; [done|]. intros w p t Hf.
    unfold mbind, M_bind. rewrite (Hm w p t Hf).
    rewrite (Hk2 _ p (t +:+ s)).
    + by rewrite list_insert_insert_eq, append_assoc.
    + apply list_lookup_insert_eq. by eapply lookup_lt_Some.
  - exists (Raise e), s. split; [done|]. intros w p t Hf.
    unfold mbind, M_bind. by rewrite (Hm w p t Hf).
  - exists Timeout, s. split; [done|]. intros w p t Hf.
    unfold mbind, M_bind. by rewrite (Hm w p t Hf).
Qed.

Lemma finishes_close {A} (f : handle) (a : A) (P : result A → Prop) :
  P (Ok a) → finishes f (close f;; mret a) P.
Proof.
  intros HP. exists (Ok a), "". split; [done|]. intros w p t Hf.
  unfold mbind, M_bind, close. by rewrite Hf, append_nil_r.
Qed.

(** Splits a sequence of calls into its steps. *)
Ltac ends :=
  repeat first
    [ by apply ends_ret | by apply ends_write
    | eapply ends_bind; [|intros ? _]
    | apply ends_for_each; intros ].

Lemma for_each_r_outcome {A S} (body : S → A → result S) (l : list A) (s : S)
    (E : exn → Prop) (T : Prop) :
  (∀ s x, x ∈ l → outcome (λ _, True) E T (body s x)) →
  outcome (λ _, True) E T (for_each_r body s l).
Proof.
  revert s. induction l as [|x l IH]; intros s Hbody; [done|].
  cbn [for_each_r]. pose proof (Hbody s x ltac:(left)) as Hx.
  destruct (body s x) as [s'|e|]; try done.
  apply IH. intros s'' y Hy. apply Hbody. by right.
Qed.

Lemma while_r_outcome {S} (fuel : nat) (cond : S → bool) (body : S → result S)
    (s : S) (E : exn → Prop) :
  (∀ s, outcome (λ _, True) E True (body s)) →
  outcome (λ _, True) E True (while_r fuel cond body s).
Proof.
  intros Hbody. revert s. induction fuel as [|fuel IH]; intros s; cbn [while_r].
  - by destruct (cond s).
  - destruct (cond s); [|done]. pose proof (Hbody s) as Hs.
    destruct (body s) as [s'|e|]; try done. apply IH.
Qed.

(** A call that only writes ends the same way in every table. *)
Lemma emits_pure_on_eq {A} (f : handle) (m : M A) (r r' : result A) (s : string) :
  emits f m r s → pure_on f m r' → r = r'.
Proof.
  intros Hm Hpure. destruct (open_world f) as (w & Hw).
  rewrite <- (pure_on_fst f m r' w Hpure) by by eexists _, _.
  by rewrite (Hm w _ _ Hw).
Qed.

Section Outcome.

Variable tokenize : string → exn + list TokenInfo.
Variable self : Matlab.
Variable f : handle.
Variable fuel : nat.
Variable E : exn → Prop.
Variable T : Prop.

Local Abbreviation states := (dae_model.get_states (dae self)).
Local Abbreviation any := (outcome (λ _, True) E T).

Hypothesis Horder : any (order tokenize fuel self).
Hypothesis Hequations :
  ∀ state, state ∈ states →
    any (string2matlab tokenize self (State.equation state)).

Local Ltac step := eapply (ends_bind _ _ _ (λ _, True)); [|intros ? _].
Local Ltac writes :=
  repeat first [ by apply ends_write | by apply ends_ret | step ].

Lemma write_warning_ends (n : nat) : ends f (write_warning self f n) any.
Proof. unfold write_warning. cbv zeta. writes. Qed.

Lemma write_class_header_ends : ends f (write_class_header self f) any.
Proof.
  unfold write_class_header. step; [writes|]. step; [apply write_warning_ends|].
  writes.
Qed.

Lemma write_constructor_ends : ends f (write_constructor self f) any.
Proof. unfold write_constructor. cbv zeta. writes. Qed.

Lemma write_default_parameters_ends : ends f (write_default_parameters self f) any.
Proof.
  unfold write_default_parameters. do 3 (step; [writes|]).
  step; [apply ends_for_each; intros; writes|]. writes.
Qed.

Lemma write_initial_conditions_ends : ends f (write_initial_conditions self f) any.
Proof. eapply ends_emits; [apply write_initial_conditions_emits | done]. Qed.

Lemma write_mass_matrix_ends : ends f (write_mass_matrix self f) any.
Proof. eapply ends_emits; [apply write_mass_matrix_emits | done]. Qed.

Lemma write_simulation_options_ends : ends f (write_simulation_options self f) any.
Proof.
  unfold write_simulation_options. cbv zeta. do 2 (step; [writes|]).
  step; [apply ends_for_each; intros; writes|]. writes.
Qed.

Lemma write_local_states_ends : ends f (write_local_states tokenize fuel self f) any.
Proof.
  destruct (write_local_states_lines tokenize self f fuel) as (r & s & Hrs & _).
  exists r, s. split; [done|].
  by rewrite (emits_pure_on_eq _ _ _ _ _ Hrs
                (write_local_states_pure tokenize self fuel f)).
Qed.

Lemma write_ode_ends : ends f (write_ode tokenize fuel self f) any.
Proof.
  unfold write_ode. do 11 (step; [writes|]).
  step; [apply write_local_states_ends|].
  step; [|writes].
  apply ends_for_each. intros i state Hstate. cbv zeta.
  repeat case_bool_decide; try by apply ends_ret.
  - step; [by apply ends_lift, Hequations|]. writes.
  - step; [by apply ends_lift, Hequations|]. writes.
Qed.

Lemma write_simout_2_struct_ends :
  ends f (write_simout_2_struct tokenize fuel self f) any.
Proof.
  unfold write_simout_2_struct. do 7 (step; [writes|]).
  step; [apply write_local_states_ends|].
  do 9 (step; [writes|]).
  step; [apply ends_for_each; intros; writes|].
  do 2 (step; [writes|]).
  step; [apply ends_for_each; intros; writes|]. writes.
Qed.

Lemma write_plot_ends : ends f (write_plot self f) any.
Proof. eapply ends_emits; [apply write_plot_emits | done]. Qed.

(** [export_class] once the file is open. *)
Lemma export_class_finishes (filepath : string) :
  finishes f
    (write_class_header self f;;
     write_constructor self f;;
     write_default_parameters self f;;
     write_initial_conditions self f;;
     write_mass_matrix self f;;
     write_simulation_options self f;;
     write_ode tokenize fuel self f;;
     write_simout_2_struct tokenize fuel self f;;
     write_plot self f;;
     write f (tabs 1 +:+ "end" +:+ nl);;
     write f ("end" +:+ nl);;
     close f;;
     mret filepath)
    (outcome (λ a, a = filepath) E T).
Proof.
  eapply finishes_bind; [apply write_class_header_ends | intros ? _].
  eapply finishes_bind; [apply write_constructor_ends | intros ? _].
  eapply finishes_bind; [apply write_default_parameters_ends | intros ? _].
  eapply finishes_bind; [apply write_initial_conditions_ends | intros ? _].
  eapply finishes_bind; [apply write_mass_matrix_ends | intros ? _].
  eapply finishes_bind; [apply write_simulation_options_ends | intros ? _].
  eapply finishes_bind; [apply write_ode_ends | intros ? _].
  eapply finishes_bind; [apply write_simout_2_struct_ends | intros ? _].
  eapply finishes_bind; [apply write_plot_ends | intros ? _].
  eapply (finishes_bind _ _ _ (λ _, True)); [by apply ends_write | intros ? _].
  eapply (finishes_bind _ _ _ (λ _, True)); [by apply ends_write | intros ? _].
  by apply finishes_close.
Qed.

End Outcome.

(** [export_class]: one file object more in the table, the others as they
    were. *)
Lemma export_class_outcome (tokenize : string → exn + list TokenInfo)
    (self : Matlab) (fuel : nat) (E : exn → Prop) (T : Prop) (w : world) :
  outcome (λ _, True) E T (order tokenize fuel self) →
  (∀ state, state ∈ dae_model.get_states (dae self) →
     outcome (λ _, True) E T (string2matlab tokenize self (State.equation state))) →
  let filepath :=
    output_path self +:+ "/" +:+ dae_model.get_model_name (dae self) +:+ ".m" in
  ∃ r text,
    outcome (λ a, a = filepath) E T r
    ∧ export_class tokenize fuel self w
      = (r, w ++ [File filepath text (if r is Ok _ then true else false)]).
Proof.
  intros Horder Hequations filepath. unfold export_class. cbv zeta.
  rewrite bind_open, !append_assoc. fold filepath.
  destruct (export_class_finishes tokenize self (length w) fuel E T
              Horder Hequations filepath) as (r & s & Hr & Hm).
  exists r, s. split; [done|].
  rewrite (Hm _ filepath "") by by rewrite list_lookup_middle.
  by rewrite insert_app_r_alt, Nat.sub_diag.
Qed.

(** Every equation of the chain model passes the tokenizer. *)
Lemma chain_model_equations (state : State.t) :
  state ∈ dae_model.get_states (dae chain_model) →
  ∃ g, Py.tokenize (State.equation state) = inr g.
Proof.
  intros Hs. cbn in Hs.
  repeat (apply elem_of_cons in Hs as [->|Hs]; [by eexists|]).
  by apply elem_of_nil in Hs.
Qed.

(** X9: on a model with unique state ids, whose equations all pass the
    tokenizer and whose assignment-state reference graph has no cycle,
    [export_class] returns the path [output_path/name.m] (one scan per state
    is enough for the resolver), having created one file object, which it
    has closed, and having left every other file object as it was. *)
Theorem export_class_succeeds
    (tokenize : string → exn + list TokenInfo) (self : Matlab) (fuel : nat)
    (w : world) :
  NoDup (state_ids self) →
  (∀ state, state ∈ dae_model.get_states (dae self) →
     ∃ g, tokenize (State.equation state) = inr g) →
  ¬ cyclic tokenize self →
  length (dae_model.get_states (dae self)) ≤ fuel →
  ∃ text,
    export_class tokenize fuel self w
    = (Ok (output_path self +:+ "/" +:+ dae_model.get_model_name (dae self)
           +:+ ".m"),
       w ++ [File (output_path self +:+ "/" +:+ dae_model.get_model_name (dae self)
                   +:+ ".m") text true]).
Proof.
  intros Hids Htok Hacyclic Hfuel.
  destruct (export_class_outcome tokenize self fuel (λ _, False) False w)
    as (r & text & Hr & Hm).
  - unfold order.
    destruct (resolve_terminates tokenize self fuel (ode_algebraic_ids self))
      as (r & -> & _); try done.
    + intros state Hstate _. by apply Htok.
    + apply resolved_init.
    + by apply ode_algebraic_ids_NoDup.
    + by apply ordered_init.
    + lia.
  - intros state Hstate. destruct (Htok state Hstate) as [g Hg].
    by rewrite (string2matlab_tokens _ _ _ _ Hg).
  - destruct r as [a| |]; try done. cbn in Hr. subst a. by exists text.
Qed.

Lemma export_class_succeeds_witness :
  ∃ text,
    export_class Py.tokenize 3 chain_model []
    = (Ok (output_path chain_model +:+ "/"
           +:+ dae_model.get_model_name (dae chain_model) +:+ ".m"),
       [] ++ [File (output_path chain_model +:+ "/"
                    +:+ dae_model.get_model_name (dae chain_model) +:+ ".m")
                text true]).
Proof.
  apply export_class_succeeds.
  - exact chain_model_NoDup.
  - exact chain_model_equations.
  - exact chain_model_acyclic.
  - vm_compute. lia.
Defined.

(** X10: whatever the model, the only exceptions [export_class] raises are
    those the tokenizer raised on the equation of one of the states: no
    write goes to a closed file and no index is out of range. (Errors of the
    file system are outside the model.) The file object it created is then
    left open, and every other file object is as it was. *)
Theorem export_class_raises_tokenizer_errors
    (tokenize : string → exn + list TokenInfo) (self : Matlab) (fuel : nat)
    (w w' : world) (e : exn) :
  export_class tokenize fuel self w = (Raise e, w') →
  (∃ state, state ∈ dae_model.get_states (dae self)
            ∧ tokenize (State.equation state) = inl e)
  ∧ ∃ text,
      w' = w ++ [File (output_path self +:+ "/"
                       +:+ dae_model.get_model_name (dae self) +:+ ".m")
                   text false].
Proof.
  intros Hraise.
  destruct (export_class_outcome tokenize self fuel
              (λ e, ∃ state, state ∈ dae_model.get_states (dae self)
                             ∧ tokenize (State.equation state) = inl e)
              True w) as (r & text & Hr & Hm).
  - apply while_r_outcome. intros known.
    apply for_each_r_outcome. intros known' state Hstate.
    unfold scan_step, get_states, string2matlab.
    destruct (negb _); [done|]. destruct (bool_decide _); [done|].
    destruct (tokenize (State.equation state)) as [e'|g] eqn:Hg.
    + by exists state.
    + cbn. by destruct (forallb _ _).
  - intros state Hstate. unfold string2matlab.
    destruct (tokenize (State.equation state)) as [e'|g] eqn:Hg; [|done].
    by exists state.
  - rewrite Hm in Hraise. destruct r as [a|e'|]; try done.
    injection Hraise as -> <-. split; [done | by exists text].
Qed.

Lemma export_class_raises_tokenizer_errors_witness :
  (∃ state, state ∈ dae_model.get_states (dae broken_model)
            ∧ Py.tokenize (State.equation state)
              = inl (Exn "TokenError" "EOF in multi-line statement"))
  ∧ ∃ text,
      (export_class Py.tokenize 1 broken_model []).2
      = [] ++ [File (output_path broken_model +:+ "/"
                     +:+ dae_model.get_model_name (dae broken_model) +:+ ".m")
                 text false].
Proof.
  apply (export_class_raises_tokenizer_errors Py.tokenize broken_model 1 []).
  by vm_compute.
Defined.

(** ** States that share an id *)

Section SharedId.

Variable tokenize : string → exn + list TokenInfo.
Variable self : Matlab.

Local Abbreviation states := (dae_model.get_states (dae self)).

Lemma scan_step_appended_fresh (known : list string) (state : State.t)
    (r : list string) :
  state ∈ states → appended_fresh self known →
  scan_step tokenize self known state = Ok r → appended_fresh self r.
Proof.
  intros Hs Hk
    [[-> _]|(deps & Hdeps & Ht & Hid & [[-> _]|[-> _]])]%scan_step_inv;
    try done.
  destruct Hk as (tail & -> & Hnd & Htail). exists (tail ++ [State.id state]).
  split; [by rewrite app_assoc|]. split.
  - apply NoDup_app. repeat split; [done| |apply NoDup_singleton].
    intros x Hx ->%list_elem_of_singleton. apply Hid, elem_of_app. by right.
  - apply Forall_app. split; [done|]. apply Forall_singleton. split.
    + apply assigment_ids_elem. by exists state.
    + intros Hin. apply Hid, elem_of_app. by left.
Qed.

(** When the loop ends, the ids it appended are the ids of the ASSIGMENT
    states, each once. *)
Lemma order_appended_fresh (fuel : nat) (r : list string) :
  order tokenize fuel self = Ok r →
  ∃ tail, NoDup tail
          ∧ Forall (λ x, x ∉ ode_algebraic_ids self) tail
          ∧ tail ≡ₚ assigment_ids self.
Proof.
  intros Hr. unfold order, resolve in Hr.
  apply (while_r_ind (appended_fresh self)) in Hr
    as [(tail & -> & Hnd & Htail) Hlen].
  - apply negb_false_iff, bool_decide_eq_true in Hlen.
    rewrite length_app, (length_states_split states) in Hlen.
    unfold ode_algebraic_ids in Hlen. rewrite length_fmap in Hlen.
    exists tail. split; [done|]. split.
    + eapply Forall_impl; [exact Htail|]. by intros x [_ Hx].
    + apply submseteq_length_Permutation.
      * apply NoDup_submseteq; [done|]. intros x Hx.
        by apply (proj1 (Forall_forall _ _) Htail x Hx).
      * unfold assigment_ids. rewrite length_fmap. lia.
  - exists []. rewrite app_nil_r. repeat split; [apply NoDup_nil_2 | done].
  - intros k k' Hk _. unfold scan.
    apply (for_each_r_ind (appended_fresh self)); [done|].
    intros k1 x k2 Hx Hk1 Hstep. by eapply scan_step_appended_fresh.
Qed.

Lemma order_shared_id (fuel : nat) (r : list string) :
  shared_id self → order tokenize fuel self ≠ Ok r.
Proof.
  intros Hshared Hr.
  destruct (order_appended_fresh _ _ Hr) as (tail & Hnd & Htail & Hperm).
  destruct Hshared as [Hdup|(x & Hx & Hode)].
  - apply Hdup. by rewrite <- Hperm.
  - rewrite <- Hperm in Hx. by apply (proj1 (Forall_forall _ _) Htail x Hx).
Qed.

Lemma write_local_states_shared_id (f : handle) (fuel : nat) :
  shared_id self → never_ok f (write_local_states tokenize fuel self f).
Proof.
  intros Hshared.
  apply (never_ok_pure _ _ _ (write_local_states_pure tokenize self fuel f)).
  intros r. by apply order_shared_id.
Qed.

Lemma export_class_shared_id (fuel : nat) (w : world) :
  shared_id self →
  ¬ ∃ filepath, (export_class tokenize fuel self w).1 = Ok filepath.
Proof.
  intros Hshared [filepath Hok]. unfold export_class in Hok. cbv zeta in Hok.
  rewrite bind_open in Hok.
  match type of Hok with
  | (?m ?w1).1 = _ => destruct (m w1) as [r w'] eqn:Hrun
  end.
  simpl in Hok. subst r. revert Hrun.
  assert (∀ {A} (m : M A) w1 a w', never_ok (length w) m → is_open (length w) w1 →
            m w1 ≠ (Ok a, w')) as Hnever by (intros A m w1 a w2 Hm; apply Hm).
  apply Hnever; [|apply open_is_open].
  apply never_ok_bind_r; [apply write_class_header_keeps_open | intros _].
  apply never_ok_bind_r; [apply write_constructor_keeps_open | intros _].
  apply never_ok_bind_r; [apply write_default_parameters_keeps_open | intros _].
  apply never_ok_bind_r; [apply write_initial_conditions_keeps_open | intros _].
  apply never_ok_bind_r; [apply write_mass_matrix_keeps_open | intros _].
  apply never_ok_bind_r; [apply write_simulation_options_keeps_open | intros _].
  apply never_ok_bind_l. unfold write_ode.
  do 11 (apply never_ok_bind_r; [apply keeps_open_write | intros _]).
  by apply never_ok_bind_l, write_local_states_shared_id.
Qed.

End SharedId.

(** X11: when an ASSIGMENT state shares its id with another state (two
    ASSIGMENT states with one id, or an ASSIGMENT state with the id of an ODE
    or ALGEBRAIC state), the loop of [write_local_states] has no way out: an
    id is appended only if it is not yet in [known_states], so the list never
    gets as long as the list of states. Whatever bound is put on the number
    of scans, [write_local_states] does not return, and neither does
    [export_class]. *)
Theorem write_local_states_shared_id_never_returns
    (tokenize : string → exn + list TokenInfo) (self : Matlab) (fuel : nat)
    (f : handle) (w w0 : world) :
  shared_id self → is_open f w →
  (¬ ∃ written, (write_local_states tokenize fuel self f w).1 = Ok written)
  ∧ ¬ ∃ filepath, (export_class tokenize fuel self w0).1 = Ok filepath.
Proof.
  intros Hshared Hw. split.
  - intros [written Hok].
    rewrite (pure_on_fst _ _ _ _ (write_local_states_pure tokenize self fuel f) Hw)
      in Hok.
    by eapply order_shared_id.
  - by apply export_class_shared_id.
Qed.

Lemma write_local_states_shared_id_never_returns_witness :
  (¬ ∃ written,
       (write_local_states Py.tokenize 5 shared_id_model 0 [fresh]).1 = Ok written)
  ∧ ¬ ∃ filepath, (export_class Py.tokenize 5 shared_id_model []).1 = Ok filepath.
Proof.
  apply write_local_states_shared_id_never_returns.
  - right. exists "x". split; compute_done.
  - exact fresh_open.
Defined.

(** With two scans allowed, the loop is still running. *)
Example shared_id_model_timeout :
  (write_local_states Py.tokenize 2 shared_id_model 0 [fresh]).1 = Timeout.
Proof. by vm_compute. Qed.

(** ** [write_simout_2_struct] *)

Lemma write_simout_2_struct_emits_when
    (tokenize : string → exn + list TokenInfo) (self : Matlab) (f : handle)
    (fuel : nat) :
  emits_when f (write_simout_2_struct tokenize fuel self f)
    (λ _ s,
       ∃ resolved_states,
         order tokenize fuel self
         = Ok (ode_algebraic_ids self ++ (State.id <$> resolved_states))
         ∧ Forall (λ state, state ∈ dae_model.get_states (dae self)
                            ∧ State.type state = ASSIGMENT) resolved_states
         ∧ s = simout_text tokenize self resolved_states).
Proof.
  unfold write_simout_2_struct. do 7 apply emits_when_write.
  eapply emits_when_bind; [apply write_local_states_emits_when|].
  intros written s1 (rs & Horder & Hrs & ->). cbv beta.
  do 9 apply emits_when_write.
  eapply emits_when_bind.
  { eapply (emits_when_ok _ _ _ _ (λ _ s, s = _));
      [apply (emits_for_each_unit _ _ save_state_line) | reflexivity].
    intros state _. apply emits_write. }
  intros _ s2 ->. cbv beta. do 2 apply emits_when_write.
  eapply emits_when_bind.
  { eapply (emits_when_ok _ _ _ _ (λ _ s, s = _));
      [apply (emits_for_each_unit _ _ save_parameter_line) | reflexivity].
    intros item _. apply emits_write. }
  intros _ s3 ->. cbv beta. apply emits_when_write.
  eapply emits_when_ok; [apply emits_write|].
  by exists rs.
Qed.

(** X12: when [write_simout_2_struct] returns on an open file, what it
    appended is the header, the text of [write_local_states] for the order
    the resolver computes (the same lines as in [write_ode]), the time, and
    then one line that saves each state into [out], in declaration order,
    and one line that saves each parameter, read from [p], in declaration
    order. *)
Theorem write_simout_2_struct_saves
    (tokenize : string → exn + list TokenInfo) (self : Matlab) (fuel : nat)
    (f : handle) (w : world) (p t : string) :
  w !! f = Some (File p t false) →
  (write_simout_2_struct tokenize fuel self f w).1 = Ok () →
  ∃ resolved_states,
    order tokenize fuel self
    = Ok (ode_algebraic_ids self ++ (State.id <$> resolved_states))
    ∧ Forall (λ state, state ∈ dae_model.get_states (dae self)
                       ∧ State.type state = ASSIGMENT) resolved_states
    ∧ write_simout_2_struct tokenize fuel self f w
      = (Ok (),
         <[f := File p (t +:+ simout_text tokenize self resolved_states) false]> w).
Proof.
  intros Hf Hok.
  destruct (write_simout_2_struct_emits_when tokenize self f fuel)
    as (r & s & Hrs & Hr).
  rewrite (Hrs w p t Hf) in Hok. simpl in Hok. subst r.
  destruct (Hr () eq_refl) as (rs & Horder & Hforall & ->).
  exists rs. repeat split; try done. by apply Hrs.
Qed.

Lemma write_simout_2_struct_saves_witness :
  ∃ resolved_states,
    order Py.tokenize 3 chain_model
    = Ok (ode_algebraic_ids chain_model ++ (State.id <$> resolved_states))
    ∧ Forall (λ state, state ∈ dae_model.get_states (dae chain_model)
                       ∧ State.type state = ASSIGMENT) resolved_states
    ∧ write_simout_2_struct Py.tokenize 3 chain_model 0 [fresh]
      = (Ok (),
         <[0 := File "out.m"
                  ("" +:+ simout_text Py.tokenize chain_model resolved_states)
                  false]> [fresh]).
Proof.
  apply (write_simout_2_struct_saves Py.tokenize chain_model 3 0 [fresh]).
  - reflexivity.
  - by vm_compute.
Defined.

(** ** States declared in dependency order *)

Section InOrder.

Variable tokenize : string → exn + list TokenInfo.
Variable self : Matlab.

Local Abbreviation states := (dae_model.get_states (dae self)).

Hypothesis Hids : NoDup (state_ids self).
Hypothesis Htok : tokenizes tokenize self.
Hypothesis Hin_order : declared_in_order tokenize self.

(** A scan that has reached [state] with every ASSIGMENT state before it
    resolved resolves [state] too. *)
Lemma scan_step_in_order (l1 l2 : list State.t) (state : State.t) :
  states = l1 ++ state :: l2 →
  scan_step tokenize self
    (ode_algebraic_ids self ++ (State.id <$> filter is_assigment l1)) state
  = Ok (ode_algebraic_ids self
        ++ (State.id <$> filter is_assigment (l1 ++ [state]))).
Proof.
  intros Hstates. unfold scan_step.
  assert (state ∈ states) as Hstate
    by (rewrite Hstates, elem_of_app, elem_of_cons; tauto).
  rewrite filter_app, fmap_app.
  case_bool_decide as Ht; cbn [negb].
  2: { rewrite filter_cons_False by (unfold is_assigment; by rewrite bool_decide_spec).
       by rewrite filter_nil, app_nil_r. }
  rewrite filter_cons_True by (unfold is_assigment; by rewrite bool_decide_spec).
  rewrite filter_nil, app_assoc. cbn [fmap list_fmap].
  rewrite bool_decide_eq_false_2.
  2: { rewrite elem_of_app. intros [Hode|Hbefore].
       - apply ode_algebraic_ids_elem in Hode as (s' & Hs' & Hid & Hty).
         apply Hty. by rewrite (state_id_inj self s' state Hids Hs' Hstate Hid).
       - apply list_elem_of_fmap in Hbefore as (s' & Hid & [_ Hs']%list_elem_of_filter).
         unfold state_ids in Hids. rewrite Hstates, fmap_app, fmap_cons in Hids.
         apply NoDup_app in Hids as (_ & Hdisjoint & _).
         apply (Hdisjoint (State.id s')); [by apply list_elem_of_fmap_2|].
         rewrite <- Hid. left. }
  destruct (Htok state Hstate Ht) as [g Hg].
  pose proof (get_states_tokens tokenize self _ _ Hg) as Hdeps.
  rewrite Hdeps, (string2matlab_tokens tokenize self _ _ Hg). cbn.
  rewrite (proj2 (forallb_forall _ _)); [done|].
  intros d Hd%list_elem_of_In. apply bool_decide_eq_true, elem_of_app.
  by eapply Hin_order.
Qed.

Lemma scan_in_order (l1 l2 : list State.t) :
  states = l1 ++ l2 →
  for_each_r (scan_step tokenize self)
    (ode_algebraic_ids self ++ (State.id <$> filter is_assigment l1)) l2
  = Ok (ode_algebraic_ids self ++ (State.id <$> filter is_assigment (l1 ++ l2))).
Proof.
  revert l1. induction l2 as [|state l2 IH]; intros l1 Hstates.
  - by rewrite app_nil_r.
  - cbn [for_each_r]. rewrite (scan_step_in_order l1 l2) by done. cbn.
    rewrite IH by by rewrite <- app_assoc. by rewrite <- app_assoc.
Qed.

Lemma order_in_order (fuel : nat) :
  0 < fuel →
  order tokenize fuel self = Ok (ode_algebraic_ids self ++ assigment_ids self).
Proof.
  intros Hfuel. destruct fuel as [|fuel]; [lia|].
  unfold order. rewrite resolve_unfold.
  assert (length (ode_algebraic_ids self ++ assigment_ids self) = length states)
    as Hlen.
  { unfold ode_algebraic_ids, assigment_ids.
    rewrite length_app, !length_fmap. symmetry. apply length_states_split. }
  case_bool_decide as Hdone.
  - f_equal. rewrite length_app, Hdone in Hlen.
    destruct (assigment_ids self); [|cbn in Hlen; lia].
    by rewrite app_nil_r.
  - unfold scan.
    pose proof (scan_in_order [] states eq_refl) as Hscan.
    rewrite filter_nil, fmap_nil, app_nil_r in Hscan. cbn [app] in Hscan.
    rewrite Hscan. cbn. fold (assigment_ids self).
    destruct fuel; [rewrite resolve_0 | rewrite resolve_unfold];
      by rewrite bool_decide_eq_true_2.
Qed.

End InOrder.

Lemma sorted_model_in_order : declared_in_order Py.tokenize sorted_model.
Proof.
  intros l1 state l2 deps d Hstates Ht Hdeps Hd.
  destruct l1 as [|s0 [|s1 [|s2 [|s3 l1]]]]; simplify_eq/=.
  - vm_compute in Hdeps. simplify_eq. by apply elem_of_nil in Hd.
  - vm_compute in Hdeps. simplify_eq.
    repeat (apply elem_of_cons in Hd as [->|Hd]; [compute_done|]).
    by apply elem_of_nil in Hd.
  - vm_compute in Hdeps. simplify_eq.
    repeat (apply elem_of_cons in Hd as [->|Hd]; [compute_done|]).
    by apply elem_of_nil in Hd.
  - by destruct l1.
Qed.

Lemma sorted_model_tokenizes : tokenizes Py.tokenize sorted_model.
Proof.
  intros s Hs _. cbn in Hs.
  repeat (apply elem_of_cons in Hs as [->|Hs]; [by eexists|]).
  by apply elem_of_nil in Hs.
Qed.

(** X13: when the states have unique ids, the ASSIGMENT equations pass the
    tokenizer and every ASSIGMENT state is declared after the ASSIGMENT
    states its equation references, one scan resolves everything and
    [write_local_states] keeps the declaration order: it returns the ids of
    the ODE and ALGEBRAIC states followed by the ids of the ASSIGMENT states,
    both as declared. *)
Theorem write_local_states_keeps_declared_order
    (tokenize : string → exn + list TokenInfo) (self : Matlab) (fuel : nat)
    (f : handle) (w : world) :
  NoDup (state_ids self) → tokenizes tokenize self →
  declared_in_order tokenize self → is_open f w → 0 < fuel →
  (write_local_states tokenize fuel self f w).1
  = Ok (ode_algebraic_ids self ++ assigment_ids self).
Proof.
  intros Hids Htok Hin_order Hw Hfuel.
  rewrite (pure_on_fst _ _ _ _ (write_local_states_pure tokenize self fuel f) Hw).
  by apply order_in_order.
Qed.

Lemma write_local_states_keeps_declared_order_witness :
  (write_local_states Py.tokenize 1 sorted_model 0 [fresh]).1
  = Ok (ode_algebraic_ids sorted_model ++ assigment_ids sorted_model).
Proof.
  apply write_local_states_keeps_declared_order.
  - compute_done.
  - exact sorted_model_tokenizes.
  - exact sorted_model_in_order.
  - exact fresh_open.
  - lia.
Defined.

(** ** [export_example] and [write_simulation_options] *)

Lemma export_example_finishes (self : Matlab) (f : handle) (filepath : string) :
  finishes f
    (let name := dae_model.get_model_name (dae self) in
     write f ("%% Example driver script for simulating " +:+ dq +:+ name +:+ dq
              +:+ " model." +:+ nl);;
     write_warning self f 0;;
     write f ("clear all;" +:+ nl);;
     write f ("close all;" +:+ nl);;
     write f (nl +:+ "% Init model." +:+ nl);;
     write f ("m = " +:+ name +:+ "();" +:+ nl);;
     write f (nl +:+ "% Solver options." +:+ nl);;
     write f ("opt = odeset('AbsTol',1e-8,'RelTol',1e-8);" +:+ nl);;
     write f ("opt = odeset(opt,'Mass',m.M);" +:+ nl);;
     write f (nl +:+ "% Simulation time span." +:+ nl);;
     write f ("tspan = [m.opts.t_init m.opts.t_end];" +:+ nl);;
     write f (nl +:+ "[t,x] = ode15s(@(t,x) m.ode(t,x,m.p),tspan,m.x0,opt);" +:+ nl);;
     write f ("out = m.simout2struct(t,x,m.p);" +:+ nl);;
     write f (nl +:+ "% Plot result." +:+ nl);;
     write f ("m.plot(out);" +:+ nl);;
     close f;;
     mret filepath)
    (outcome (λ a, a = filepath) (λ _, False) False).
Proof.
  cbv zeta.
  eapply (finishes_bind _ _ _ (λ _, True)); [by apply ends_write | intros ? _].
  eapply (finishes_bind _ _ _ (λ _, True));
    [apply write_warning_ends | intros ? _].
  do 13 (eapply (finishes_bind _ _ _ (λ _, True));
           [by apply ends_write | intros ? _]).
  by apply finishes_close.
Qed.

(** X14: [export_example] returns on every model, also on those
    [export_class] does not return on: it returns the path
    [output_path/name_example.m], having created one file object, which it
    has closed, and having left every other file object as it was. *)
Theorem export_example_succeeds (self : Matlab) (w : world) :
  ∃ text,
    export_example self w
    = (Ok (output_path self +:+ "/" +:+ dae_model.get_model_name (dae self)
           +:+ "_example.m"),
       w ++ [File (output_path self +:+ "/"
                   +:+ dae_model.get_model_name (dae self) +:+ "_example.m")
               text true]).
Proof.
  unfold export_example.
  set (filepath := output_path self +:+ "/"
                   +:+ dae_model.get_model_name (dae self) +:+ "_example.m").
  cbv zeta. rewrite bind_open, !append_assoc. fold filepath.
  destruct (export_example_finishes self (length w) filepath)
    as (r & s & Hr & Hm).
  exists s. rewrite (Hm _ filepath "") by by rewrite list_lookup_middle.
  rewrite insert_app_r_alt, Nat.sub_diag by done.
  destruct r as [a| |]; try done. cbn in Hr. by subst a.
Qed.

Lemma dict_get_item {V} (d : list (string * V)) (k : string) (v : V) :
  NoDup d.*1 → (k, v) ∈ d → dict_get d k = Some v.
Proof.
  induction d as [|[k' v'] d IH]; intros Hnd Hin; [by apply elem_of_nil in Hin|].
  rewrite fmap_cons in Hnd. apply NoDup_cons in Hnd as [Hk' Hnd]. cbn [dict_get].
  apply elem_of_cons in Hin as [[= -> ->]|Hin].
  - by rewrite bool_decide_eq_true_2.
  - rewrite bool_decide_eq_false_2; [by apply IH|].
    intros ->. apply Hk'. by apply (list_elem_of_fmap_2 fst _ (k, v)).
Qed.

(** X15: when the keys of the dict of options are distinct, as the keys of
    a dict are, [write_simulation_options] always returns on an open file
    and writes, for each item of the dict in order, the line that sets the
    option to the value of that item: the default [None] of
    [options.get(item, None)] is never written. *)
Theorem write_simulation_options_items (self : Matlab) (f : handle) (w : world)
    (p t : string) :
  NoDup (dae_model.get_options (dae self)).*1 →
  w !! f = Some (File p t false) →
  write_simulation_options self f w
  = (Ok (), <[f := File p (t +:+ simulation_options_text self) false]> w).
Proof.
  intros Hnd. revert w p t. change (emits f (write_simulation_options self f)
                                     (Ok ()) (simulation_options_text self)).
  unfold write_simulation_options. cbv zeta.
  eapply emits_text.
  { do 2 (eapply emits_bind; [apply emits_write|]).
    eapply emits_bind.
    - apply (emits_for_each_unit _ _
               (λ item, tabs 3 +:+ "opts." +:+ item +:+ " = "
                        +:+ default "None"
                              (dict_get (dae_model.get_options (dae self)) item)
                        +:+ ";" +:+ nl)).
      intros item _. apply emits_write.
    - eapply emits_bind; apply emits_write. }
  unfold simulation_options_text. rewrite <- list_fmap_compose.
  assert (∀ line,
            line ∘ fst <$> dae_model.get_options (dae self)
            = option_line <$> dae_model.get_options (dae self) →
            (tabs 2 +:+ "function opts = simulation_options(~)" +:+ nl)
            +:+ (tabs 3 +:+ "%% Default simulation options." +:+ nl)
            +:+ String.concat "" (line ∘ fst <$> dae_model.get_options (dae self))
            +:+ (tabs 2 +:+ "end" +:+ nl) +:+ nl
            = tabs 2 +:+ "function opts = simulation_options(~)" +:+ nl
              +:+ tabs 3 +:+ "%% Default simulation options." +:+ nl
              +:+ String.concat ""
                    (option_line <$> dae_model.get_options (dae self))
              +:+ tabs 2 +:+ "end" +:+ nl +:+ nl) as Htext
    by (intros line ->; by rewrite !append_assoc).
  apply Htext. apply Forall_fmap_ext, Forall_forall. intros [k v] Hin. cbn.
  by rewrite (dict_get_item _ _ _ Hnd Hin).
Qed.

Lemma write_simulation_options_items_witness :
  write_simulation_options options_model 0 [fresh]
  = (Ok (),
     <[0 := File "out.m" ("" +:+ simulation_options_text options_model) false]>
       [fresh]).
Proof.
  apply write_simulation_options_items.
  - compute_done.
  - reflexivity.
Defined.

(** ** A cycle among the ASSIGMENT states: what the loop writes *)

Section Traced.

Variable tokenize : string → exn + list TokenInfo.
Variable self : Matlab.
Variable f : handle.
Variable I : list string → Prop.

Local Abbreviation states := (dae_model.get_states (dae self)).

Hypothesis Hstep :
  ∀ known state,
    state ∈ states → I known →
    scan_step tokenize self known state = Ok (known ++ [State.id state]) →
    I (known ++ [State.id state]).

(** The body of the scan. *)
Local Abbreviation scan_body :=
  (λ (known_states : list string) (state : State.t),
      if negb (bool_decide (State.type state = ASSIGMENT)) then
        mret known_states
      else if bool_decide (State.id state ∈ known_states) then
        mret known_states
      else
        dependencies ← lift (get_states tokenize self (State.equation state));
        if forallb (λ elem, bool_decide (elem ∈ known_states)) dependencies then
          equation ← lift (string2matlab tokenize self (State.equation state));
          write f (tabs 3 +:+ State.id state +:+ " = " +:+ equation +:+ ";" +:+ nl);;
          mret (known_states ++ [State.id state])
        else mret known_states).

Lemma resolves_lines_skip (m : M (list string)) (r : result (list string))
    (known : list string) :
  I known → emits f m r "" → (∀ k, r = Ok k → k = known) →
  resolves_lines tokenize self f I m known.
Proof.
  intros HI Hm Hr. exists r, "", []. cbn. rewrite app_nil_r. by repeat split.
Qed.

Lemma scan_body_resolves (known : list string) (state : State.t) :
  state ∈ states → I known →
  resolves_lines tokenize self f I (scan_body known state) known.
Proof.
  intros Hs HI. cbv beta.
  pose proof (Hstep known state Hs HI) as Hnext. unfold scan_step in Hnext.
  case_bool_decide as Ht; cbn [negb] in *.
  2: { apply (resolves_lines_skip _ (Ok known)); [done|apply emits_ret|].
       by intros k [= <-]. }
  case_bool_decide as Hid.
  { apply (resolves_lines_skip _ (Ok known)); [done|apply emits_ret|].
    by intros k [= <-]. }
  destruct (get_states tokenize self (State.equation state)) as [deps|e|] eqn:Hdeps.
  2: { apply (resolves_lines_skip _ (Raise e)); [done|apply emits_lift|done]. }
  2: { apply (resolves_lines_skip _ Timeout); [done|apply emits_lift|done]. }
  cbn in Hnext.
  destruct (forallb (λ elem, bool_decide (elem ∈ known)) deps) eqn:Hall.
  2: { apply (resolves_lines_skip _ (Ok known)); [done| |by intros k [= <-]].
       apply (emits_bind _ _ _ deps _ "" ""); [apply emits_lift|].
       cbv beta. rewrite Hall. apply emits_ret. }
  destruct (string2matlab tokenize self (State.equation state))
    as [equation|e|] eqn:Heq.
  2: { apply (resolves_lines_skip _ (Raise e)); [done| |done].
       apply (emits_bind _ _ _ deps _ "" ""); [apply emits_lift|].
       cbv beta. rewrite Hall. apply emits_lift. }
  2: { apply (resolves_lines_skip _ Timeout); [done| |done].
       apply (emits_bind _ _ _ deps _ "" ""); [apply emits_lift|].
       cbv beta. rewrite Hall. apply emits_lift. }
  exists (Ok (known ++ [State.id state])), (assigment_line tokenize self state),
    [state].
  split; [|repeat split].
  - eapply emits_text.
    + eapply (emits_bind _ _ _ deps _ ""); [apply emits_lift|].
      cbv beta. rewrite Hall.
      eapply (emits_bind _ _ _ equation _ ""); [apply emits_lift|].
      eapply emits_bind; [apply emits_write | apply emits_ret].
    + unfold assigment_line, translated. rewrite Heq. by rewrite append_nil_r.
  - by apply Forall_singleton.
  - by apply Hnext.
  - by intros k [= <-].
Qed.

Lemma resolves_lines_bind (m : M (list string)) (k : list string → M (list string))
    (known : list string) :
  resolves_lines tokenize self f I m known →
  (∀ k1, I k1 → resolves_lines tokenize self f I (k k1) k1) →
  resolves_lines tokenize self f I (m ≫= k) known.
Proof.
  intros (r1 & s1 & rs1 & Hm & -> & Hrs1 & HI1 & Hr1) Hk.
  destruct r1 as [k1|e|].
  2: { eexists (Raise e), _, rs1. split; [|by repeat split].
       intros w p t Hf. unfold mbind, M_bind. by rewrite (Hm w p t Hf). }
  2: { eexists Timeout, _, rs1. split; [|by repeat split].
       intros w p t Hf. unfold mbind, M_bind. by rewrite (Hm w p t Hf). }
  rewrite (Hr1 k1 eq_refl) in *.
  destruct (Hk _ HI1) as (r & s2 & rs2 & Hk2 & -> & Hrs2 & HI2 & Hr2).
  eexists r, _, (rs1 ++ rs2). split; [by eapply emits_bind|]. repeat split.
  - by rewrite fmap_app, concat_app.
  - by apply Forall_app.
  - by rewrite fmap_app, app_assoc.
  - intros k' Hk'. by rewrite fmap_app, app_assoc, (Hr2 k' Hk').
Qed.

Lemma scan_resolves (l : list State.t) (known : list string) :
  (∀ x, x ∈ l → x ∈ states) → I known →
  resolves_lines tokenize self f I (for_each scan_body known l) known.
Proof.
  revert known. induction l as [|state l IH]; intros known Hl HI.
  - apply (resolves_lines_skip _ (Ok known)); [done|apply emits_ret|].
    by intros k [= <-].
  - cbn [for_each]. apply resolves_lines_bind.
    + apply scan_body_resolves; [apply Hl; left | done].
    + intros k1 HI1. apply IH; [|done]. intros x Hx. apply Hl. by right.
Qed.

Lemma loop_resolves (fuel : nat) (known : list string) :
  I known →
  resolves_lines tokenize self f I
    (while_ fuel
       (λ known_states,
          negb (bool_decide (length known_states = length states)))
       (write_assigment_scan tokenize self f) known)
    known.
Proof.
  revert known. induction fuel as [|fuel IH]; intros known HI; cbn [while_].
  - destruct (negb _).
    + apply (resolves_lines_skip _ Timeout); [done|apply emits_lift|done].
    + apply (resolves_lines_skip _ (Ok known)); [done|apply emits_ret|].
      by intros k [= <-].
  - destruct (negb _).
    + apply resolves_lines_bind; [by apply scan_resolves | exact IH].
    + apply (resolves_lines_skip _ (Ok known)); [done|apply emits_ret|].
      by intros k [= <-].
Qed.

(** [write_local_states], however it ends. *)
Lemma write_local_states_resolves (fuel : nat) :
  I (ode_algebraic_ids self) →
  ∃ r resolved_states,
    emits f (write_local_states tokenize fuel self f) r
      (local_states_started tokenize self resolved_states
       +:+ (if r is Ok _ then nl else ""))
    ∧ Forall (λ state, state ∈ states ∧ State.type state = ASSIGMENT)
        resolved_states
    ∧ I (ode_algebraic_ids self ++ (State.id <$> resolved_states))
    ∧ ∀ k, r = Ok k → k = ode_algebraic_ids self ++ (State.id <$> resolved_states).
Proof.
  intros HI. unfold write_local_states. cbv zeta.
  destruct (loop_resolves fuel (ode_algebraic_ids self) HI)
    as (r0 & s0 & rs & Hloop & -> & Hrs & HIrs & Hr0).
  set (unresolved := λ known_states : list string,
         negb (bool_decide (length known_states = length states))) in *.
  assert (∀ r s,
            emits f (while_ fuel unresolved (write_assigment_scan tokenize self f)
                       (ode_algebraic_ids self)
                     ≫= λ known_states, write f nl;; mret known_states) r s →
            emits f
              (write f (tabs 3 +:+ "% ODE and algebraic states:" +:+ nl);;
               '(i, known_states) ← write_ode_algebraic_states self f [];
               write f nl;;
               write f (tabs 3 +:+ "% Assigment states:" +:+ nl);;
               known_states ←
                 while_ fuel unresolved (write_assigment_scan tokenize self f)
                   known_states;
               write f nl;; mret known_states)
              r
              ((tabs 3 +:+ "% ODE and algebraic states:" +:+ nl)
               +:+ String.concat ""
                     (imap local_state_read (ode_algebraic_states self))
               +:+ nl
               +:+ (tabs 3 +:+ "% Assigment states:" +:+ nl) +:+ s)) as Hprefix.
  { intros r s Hrest.
    eapply emits_bind; [apply emits_write|].
    eapply emits_bind; [apply (write_ode_algebraic_states_emits self f [])|].
    cbn [app]. eapply emits_bind; [apply emits_write|].
    eapply emits_bind; [apply emits_write | exact Hrest]. }
  destruct r0 as [k|e|].
  - exists (Ok k), rs.
    split; [|repeat split; try done; intros k' [= <-]; by apply Hr0].
    eapply emits_text.
    + apply Hprefix. eapply emits_bind; [exact Hloop|].
      eapply emits_bind; [apply emits_write | apply emits_ret].
    + unfold local_states_started. by rewrite !append_assoc, append_nil_r.
  - exists (Raise e), rs. split; [|by repeat split].
    eapply emits_text.
    + apply Hprefix. intros w p t Hf. unfold mbind, M_bind.
      by rewrite (Hloop w p t Hf).
    + unfold local_states_started. by rewrite !append_assoc, append_nil_r.
  - exists Timeout, rs. split; [|by repeat split].
    eapply emits_text.
    + apply Hprefix. intros w p t Hf. unfold mbind, M_bind.
      by rewrite (Hloop w p t Hf).
    + unfold local_states_started. by rewrite !append_assoc, append_nil_r.
Qed.

End Traced.

(** C1, as the code has it: on a model with unique state ids whose equations
    all pass the tokenizer and whose assignment-state reference graph has a
    cycle, [write_local_states] raises nothing and never finishes: whatever
    bound is put on its [while] loop, the loop still wants another scan when
    the bound is used up. By then it has written the reads of the ODE and
    ALGEBRAIC states and the lines of the ASSIGMENT states it resolved, and
    no state on a cycle is among them: fewer ids are known than there are
    states, which is the condition of the loop. *)
Theorem write_local_states_cyclic_diverges
    (tokenize : string → exn + list TokenInfo) (self : Matlab)
    (f : handle) (w : world) (fuel : nat) (p t : string) :
  NoDup (state_ids self) → tokenizes tokenize self → cyclic tokenize self →
  w !! f = Some (File p t false) →
  ∃ resolved_states,
    write_local_states tokenize fuel self f w
    = (Timeout,
       <[f := File p (t +:+ local_states_started tokenize self resolved_states)
                false]> w)
    ∧ Forall (λ state,
                state ∈ dae_model.get_states (dae self)
                ∧ State.type state = ASSIGMENT
                ∧ ¬ tc (depends tokenize self) (State.id state) (State.id state))
        resolved_states
    ∧ length (ode_algebraic_ids self ++ (State.id <$> resolved_states))
      < length (dae_model.get_states (dae self)).
Proof.
  intros Hids Htok Hcyc Hf.
  destruct (write_local_states_resolves tokenize self f
              (λ known, resolved self known ∧ NoDup known
                        ∧ ∀ y, tc (depends tokenize self) y y → y ∉ known))
    with (fuel := fuel) as (r & rs & Hemits & Hrs & (Hres & Hnd & Hoff) & _).
  { intros known state Hs (Hres & Hnd & Hoff) Hstep. repeat split.
    - by eapply scan_step_resolved.
    - by eapply scan_step_NoDup.
    - by eapply scan_step_off_cycle. }
  { repeat split.
    - apply resolved_init.
    - by apply ode_algebraic_ids_NoDup.
    - intros y Hy. by eapply ode_algebraic_ids_off_cycle. }
  assert (r = Timeout) as ->.
  { rewrite (emits_pure_on_eq _ _ _ _ _ Hemits
               (write_local_states_pure tokenize self fuel f)).
    unfold order. apply resolve_cyclic; try done.
    - apply resolved_init.
    - by apply ode_algebraic_ids_NoDup.
    - intros y Hy. by eapply ode_algebraic_ids_off_cycle. }
  exists rs. rewrite append_nil_r in Hemits. repeat split.
  - by apply Hemits.
  - apply Forall_forall. intros state Hstate.
    destruct (proj1 (Forall_forall _ _) Hrs state Hstate) as [Hs Ht].
    repeat split; try done. intros Hon. apply (Hoff _ Hon).
    apply elem_of_app. right. by apply list_elem_of_fmap_2.
  - destruct Hcyc as [x Hx].
    assert (x ∈ state_ids self) as Hxid.
    { destruct (cycle_successor _ _ Hx) as (_ & (state & _ & Hs & _ & <- & _) & _).
      by apply state_id_elem. }
    assert (x :: ode_algebraic_ids self ++ (State.id <$> rs) ⊆+ state_ids self)
      as Hsub.
    { apply NoDup_submseteq.
      - apply NoDup_cons. split; [by apply Hoff | done].
      - intros y [->|Hy]%elem_of_cons; [done | by eapply resolved_known]. }
    apply submseteq_length in Hsub. unfold state_ids in Hsub.
    rewrite length_fmap in Hsub. simpl in Hsub. lia.
Qed.

Lemma partly_cyclic_model_tokenizes : tokenizes Py.tokenize partly_cyclic_model.
Proof.
  intros s Hs _. cbn in Hs.
  repeat (apply elem_of_cons in Hs as [->|Hs]; [by eexists|]).
  by apply elem_of_nil in Hs.
Qed.

Lemma partly_cyclic_model_cyclic : cyclic Py.tokenize partly_cyclic_model.
Proof.
  exists "A". apply tc_l with "B"; [|apply tc_once].
  - exists (state "A" ASSIGMENT "B"), ["B"]. repeat split; [left|left].
  - exists (state "B" ASSIGMENT "A"), ["A"].
    repeat split; [do 3 right; left|left].
Qed.

Lemma write_local_states_cyclic_diverges_witness :
  ∃ resolved_states,
    write_local_states Py.tokenize 7 partly_cyclic_model 0 [fresh]
    = (Timeout,
       <[0 := File "out.m"
                ("" +:+ local_states_started Py.tokenize partly_cyclic_model
                          resolved_states)
                false]> [fresh])
    ∧ Forall (λ state,
                state ∈ dae_model.get_states (dae partly_cyclic_model)
                ∧ State.type state = ASSIGMENT
                ∧ ¬ tc (depends Py.tokenize partly_cyclic_model)
                      (State.id state) (State.id state))
        resolved_states
    ∧ length (ode_algebraic_ids partly_cyclic_model
              ++ (State.id <$> resolved_states))
      < length (dae_model.get_states (dae partly_cyclic_model)).
Proof.
  apply write_local_states_cyclic_diverges.
  - compute_done.
  - exact partly_cyclic_model_tokenizes.
  - exact partly_cyclic_model_cyclic.
  - reflexivity.
Defined.

(** The state off the cycle is resolved, [A] and [B] never are. *)
Example partly_cyclic_model_text :
  write_local_states Py.tokenize 7 partly_cyclic_model 0 [fresh]
  = (Timeout,
     [File "out.m"
        (local_states_started Py.tokenize partly_cyclic_model
           [state "a" ASSIGMENT "v*2"])
        false]).
Proof. by vm_compute. Qed.
